(** * RAG-Guard: entity recognition and reversible tokenization

    A shallow embedding of [rag_guard/ner.py] and [rag_guard/masker.py].

    Conventions of the embedding.
    - A Python [str] is a list of Unicode code points ([str := list N]);
      [len] is [length] and slicing follows Python (negative indices count
      from the end, out-of-range indices are clamped).
    - A raised exception is the [Raise] branch of [result]; [try/except]
      blocks become matches on it.
    - A [dict] is an association list in insertion order with unique keys.
    - Library code ([re], [json], [hashlib], [base64]) is modelled by what
      it computes: SHA-1, Base32, UTF-8 and the replacement-template
      expansion of [re.sub] are written out; [json.loads], [float(str)],
      the completion function and compiled patterns are values supplied
      by the caller of the model. *)

From Stdlib Require Import String Ascii.
From Stdlib Require Import ZArith NArith QArith List Bool Lia.
From Stdlib Require Import Sorting.Sorted Sorting.Permutation.
Import ListNotations.

Set Implicit Arguments.
Set Warnings "-register-all".
Local Open Scope Z_scope.

(** ** Python values *)

Module Py.

Definition char := N.
Definition str := list char.

Definition char_eqb (a b : char) : bool := N.eqb a b.

Fixpoint str_eqb (a b : str) : bool :=
  match a, b with
  | [], [] => true
  | x :: a', y :: b' => char_eqb x y && str_eqb a' b'
  | _, _ => false
  end.

Definition len (s : str) : Z := Z.of_nat (length s).

(** Exceptions that the modelled code raises or catches. *)
Inductive exn :=
| JSONDecodeError | KeyError | ValueError
| TypeError | AttributeError | OverflowError
| UnicodeEncodeError | ReError
| NERError | MaskingError | UnmaskingError
| OtherError.

Inductive result (A : Type) : Type :=
| Ok (a : A)
| Raise (e : exn).
Arguments Ok {A} a.
Arguments Raise {A} e.

Definition bind {A B} (r : result A) (k : A -> result B) : result B :=
  match r with
  | Ok a => k a
  | Raise e => Raise e
  end.

(** [try: r  except Exception: raise e] *)
Definition reraise_as {A} (e : exn) (r : result A) : result A :=
  match r with
  | Ok a => Ok a
  | Raise _ => Raise e
  end.

(** Index normalisation of a slice bound: [i] is taken from the end when
    negative and clamped to [0, n]. *)
Definition norm_index (n i : Z) : nat :=
  Z.to_nat (if i <? 0 then Z.max 0 (i + n) else Z.min i n).

(** [s[:i]], [s[i:]] and [s[i:j]] *)
Definition slice_to (s : str) (i : Z) : str :=
  firstn (norm_index (len s) i) s.
Definition slice_from (s : str) (i : Z) : str :=
  skipn (norm_index (len s) i) s.
Definition slice (s : str) (i j : Z) : str :=
  let a := norm_index (len s) i in
  let b := norm_index (len s) j in
  firstn (b - a) (skipn a s).

(** Python floats: the special values and the finite ones, each finite
    float standing for the rational it denotes, so that the comparisons
    below are the exact ones Python performs. *)
Inductive pyfloat :=
| FNan
| FInf (negative : bool)
| FFin (q : Q).

Definition float_lt (a b : pyfloat) : bool :=
  match a, b with
  | FNan, _ | _, FNan => false
  | FInf true, FInf true => false
  | FInf true, _ => true
  | _, FInf true => false
  | FInf false, _ => false
  | FFin _, FInf false => true
  | FFin p, FFin q => match Qcompare p q with Lt => true | _ => false end
  end.

Definition float_le (a b : pyfloat) : bool :=
  match a, b with
  | FNan, _ | _, FNan => false
  | FInf true, _ => true
  | _, FInf true => false
  | _, FInf false => true
  | FInf false, _ => false
  | FFin p, FFin q => match Qcompare p q with Gt => false | _ => true end
  end.

Definition float_gt (a b : pyfloat) : bool := float_lt b a.
Definition float_ge (a b : pyfloat) : bool := float_le b a.

(** The values [json.loads] can return. *)
Inductive pyval :=
| PyNone
| PyBool (b : bool)
| PyInt (z : Z)
| PyFloat (f : pyfloat)
| PyStr (s : str)
| PyList (l : list pyval)
| PyDict (kv : list (str * pyval)).

(** [sorted(l, key=key)]: stable, ascending. *)
Section Sorting.
Variable A : Type.
Variable key : A -> Z.

Fixpoint insert_asc (x : A) (l : list A) : list A :=
    match l with
    | [] => [x]
    | y :: l' => if key y <? key x then y :: insert_asc x l' else x :: l
    end.

Definition sorted (l : list A) : list A := fold_right insert_asc [] l.

  (** [sorted(l, key=key, reverse=True)]: descending, and still stable
      (equal keys keep their original order). *)
Fixpoint insert_desc (x : A) (l : list A) : list A :=
    match l with
    | [] => [x]
    | y :: l' => if key x <? key y then y :: insert_desc x l' else x :: l
    end.

Definition sorted_reverse (l : list A) : list A := fold_right insert_desc [] l.
End Sorting.

(** [l[i] = x] for an index the caller knows to be in range. *)
Fixpoint setitem {A} (l : list A) (i : nat) (x : A) : list A :=
  match l, i with
  | [], _ => []
  | _ :: l', O => x :: l'
  | y :: l', S i' => y :: setitem l' i' x
  end.

End Py.
Import Py.

(** ** Library functions *)

(** [str.encode("utf-8")]: strict, so a surrogate code point (and anything
    beyond U+10FFFF, which no Python string holds) raises. *)
Module Utf8.
Local Open Scope N_scope.

Definition encode_char (c : char) : option (list N) :=
  if c <? 0x80 then Some [c]
  else if c <? 0x800 then
    Some [N.lor 0xC0 (N.shiftr c 6); N.lor 0x80 (N.land c 0x3F)]
  else if c <? 0x10000 then
    if (0xD800 <=? c) && (c <=? 0xDFFF) then None
    else Some [N.lor 0xE0 (N.shiftr c 12);
               N.lor 0x80 (N.land (N.shiftr c 6) 0x3F);
               N.lor 0x80 (N.land c 0x3F)]
  else if c <? 0x110000 then
    Some [N.lor 0xF0 (N.shiftr c 18);
          N.lor 0x80 (N.land (N.shiftr c 12) 0x3F);
          N.lor 0x80 (N.land (N.shiftr c 6) 0x3F);
          N.lor 0x80 (N.land c 0x3F)]
  else None.

Fixpoint encode (s : str) : option (list N) :=
  match s with
  | [] => Some []
  | c :: s' =>
      match encode_char c, encode s' with
      | Some bs, Some rest => Some (bs ++ rest)
      | _, _ => None
      end
  end.

(** The code points [encode] accepts. *)
Definition encodable_char (c : char) : bool :=
  (c <? 0xD800) || ((0xDFFF <? c) && (c <? 0x110000)).

(** Decoding of well-formed UTF-8, used to write string constants of the
    source as literals. *)
Fixpoint decode (bs : list N) : str :=
  match bs with
  | [] => []
  | b0 :: r0 =>
      if b0 <? 0x80 then b0 :: decode r0
      else match r0 with
      | [] => [b0]
      | b1 :: r1 =>
          if b0 <? 0xE0 then
            (N.shiftl (N.land b0 0x1F) 6 + N.land b1 0x3F) :: decode r1
          else match r1 with
          | [] => [b0; b1]
          | b2 :: r2 =>
              if b0 <? 0xF0 then
                (N.shiftl (N.land b0 0x0F) 12 + N.shiftl (N.land b1 0x3F) 6
                 + N.land b2 0x3F) :: decode r2
              else match r2 with
              | [] => [b0; b1; b2]
              | b3 :: r3 =>
                  (N.shiftl (N.land b0 0x07) 18 + N.shiftl (N.land b1 0x3F) 12
                   + N.shiftl (N.land b2 0x3F) 6 + N.land b3 0x3F) :: decode r3
              end
          end
      end
  end.

End Utf8.

(** A string constant of the source. *)
Definition lit (s : string) : str :=
  Utf8.decode (map N_of_ascii (list_ascii_of_string s)).

(** [hashlib.sha1(data).digest()] (FIPS 180-4), on a list of bytes. *)
Module Sha1.
Local Open Scope N_scope.

Definition mask32 : N := 0xFFFFFFFF.
Definition add32 (x y : N) : N := N.land (x + y) mask32.
Definition rotl (n x : N) : N :=
  N.land (N.lor (N.shiftl x n) (N.shiftr x (32 - n))) mask32.
Definition not32 (x : N) : N := N.lxor x mask32.

(** Big-endian bytes of [x], [n] of them. *)
Fixpoint be_bytes (n : nat) (x : N) : list N :=
  match n with
  | O => []
  | S n' => N.land (N.shiftr x (8 * N.of_nat n')) 0xFF :: be_bytes n' x
  end.

Definition pad (msg : list N) : list N :=
  let l := N.of_nat (length msg) in
  let k := (119 - l mod 64) mod 64 in
  msg ++ 0x80 :: repeat 0 (N.to_nat k) ++ be_bytes 8 (8 * l).

Fixpoint words (bs : list N) : list N :=
  match bs with
  | a :: b :: c :: d :: rest =>
      (N.shiftl a 24 + N.shiftl b 16 + N.shiftl c 8 + d) :: words rest
  | _ => []
  end.

(** The message schedule, most recent word first. *)
Fixpoint extend (n : nat) (w : list N) : list N :=
  match n with
  | O => w
  | S n' =>
      let x := N.lxor (N.lxor (nth 2 w 0) (nth 7 w 0))
                      (N.lxor (nth 13 w 0) (nth 15 w 0)) in
      extend n' (rotl 1 x :: w)
  end.

Definition schedule (block : list N) : list N :=
  rev (extend 64 (rev block)).

Definition state := (N * N * N * N * N)%type.

Definition round (i : nat) (st : state) (w : N) : state :=
  let '(a, b, c, d, e) := st in
  let '(f, k) :=
    if (i <? 20)%nat then
      (N.lor (N.land b c) (N.land (not32 b) d), 0x5A827999)
    else if (i <? 40)%nat then
      (N.lxor (N.lxor b c) d, 0x6ED9EBA1)
    else if (i <? 60)%nat then
      (N.lor (N.lor (N.land b c) (N.land b d)) (N.land c d), 0x8F1BBCDC)
    else
      (N.lxor (N.lxor b c) d, 0xCA62C1D6) in
  let temp := add32 (add32 (add32 (add32 (rotl 5 a) f) e) k) w in
  (temp, a, rotl 30 b, c, d).

Fixpoint rounds (i : nat) (st : state) (ws : list N) : state :=
  match ws with
  | [] => st
  | w :: ws' => rounds (S i) (round i st w) ws'
  end.

Definition compress (h : state) (block : list N) : state :=
  let '(h0, h1, h2, h3, h4) := h in
  let '(a, b, c, d, e) := rounds 0 h (schedule block) in
  (add32 h0 a, add32 h1 b, add32 h2 c, add32 h3 d, add32 h4 e).

(** The padded message, sixteen words at a time. *)
Fixpoint blocks (fuel : nat) (h : state) (ws : list N) : state :=
  match fuel, ws with
  | S fuel', _ :: _ => blocks fuel' (compress h (firstn 16 ws)) (skipn 16 ws)
  | _, _ => h
  end.

Definition init : state :=
  (0x67452301, 0xEFCDAB89, 0x98BADCFE, 0x10325476, 0xC3D2E1F0).

Definition digest (msg : list N) : list N :=
  let ws := words (pad msg) in
  let '(h0, h1, h2, h3, h4) := blocks (length ws) init ws in
  be_bytes 4 h0 ++ be_bytes 4 h1 ++ be_bytes 4 h2 ++ be_bytes 4 h3
  ++ be_bytes 4 h4.

End Sha1.

(** [base64.b32encode] (RFC 4648, with padding). *)
Module Base32.
Local Open Scope N_scope.

Definition alphabet : str := lit "ABCDEFGHIJKLMNOPQRSTUVWXYZ234567".

Definition digit (c : N) (shift : N) : char :=
  nth (N.to_nat (N.land (N.shiftr c shift) 31)) alphabet 0.

(** One quantum of five bytes, eight characters. *)
Definition quantum (b0 b1 b2 b3 b4 : N) : str :=
  let c := N.shiftl b0 32 + N.shiftl b1 24 + N.shiftl b2 16
           + N.shiftl b3 8 + b4 in
  [digit c 35; digit c 30; digit c 25; digit c 20;
   digit c 15; digit c 10; digit c 5; digit c 0].

Definition pad_char : char := 61.

Fixpoint b32encode (bs : list N) : str :=
  match bs with
  | [] => []
  | b0 :: b1 :: b2 :: b3 :: b4 :: rest => quantum b0 b1 b2 b3 b4 ++ b32encode rest
  | [b0; b1; b2; b3] => firstn 7 (quantum b0 b1 b2 b3 0) ++ repeat pad_char 1
  | [b0; b1; b2] => firstn 5 (quantum b0 b1 b2 0 0) ++ repeat pad_char 3
  | [b0; b1] => firstn 4 (quantum b0 b1 0 0 0) ++ repeat pad_char 4
  | [b0] => firstn 2 (quantum b0 0 0 0 0) ++ repeat pad_char 6
  end.

End Base32.

(** [s.rstrip("=")] and [s.lower()] on the ASCII text Base32 produces. *)
Fixpoint rstrip (c : char) (s : str) : str :=
  match s with
  | [] => []
  | x :: s' =>
      match rstrip c s' with
      | [] => if char_eqb x c then [] else [x]
      | r => x :: r
      end
  end.

Definition lower_char (c : char) : char :=
  if ((65 <=? c) && (c <=? 90))%N then (c + 32)%N else c.
Definition lower (s : str) : str := map lower_char s.

(** The parts of [re] the code calls. *)
Module Re.

Fixpoint starts_with (p s : str) : bool :=
  match p, s with
  | [], _ => true
  | x :: p', y :: s' => char_eqb x y && starts_with p' s'
  | _ :: _, [] => false
  end.

(** [re.search(r'\{.*\}', s, re.DOTALL)]: the match runs from the first
    opening brace to the last closing brace after it. *)
Fixpoint through_last (c : char) (s : str) : option str :=
  match s with
  | [] => None
  | x :: s' =>
      match through_last c s' with
      | Some p => Some (x :: p)
      | None => if char_eqb x c then Some [x] else None
      end
  end.

Fixpoint search_braces (s : str) : option str :=
  match s with
  | [] => None
  | x :: s' =>
      if char_eqb x 123%N then option_map (cons x) (through_last 125%N s')
      else search_braces s'
  end.

(** A compiled pattern, represented by what [finditer] yields on a text:
    the spans of its matches, left to right. *)
Definition Pattern := str -> list (Z * Z).

(** The matches of [re.compile(re.escape(p))]: the occurrences of the
    non-empty literal [p], leftmost first and not overlapping. *)
Fixpoint find_from (p : str) (skip : nat) (i : Z) (s : str) : list (Z * Z) :=
  match s with
  | [] => []
  | _ :: s' =>
      match skip with
      | S k => find_from p k (i + 1) s'
      | O =>
          if starts_with p s
          then (i, i + len p) :: find_from p (length p - 1) (i + 1) s'
          else find_from p 0 (i + 1) s'
      end
  end.

Definition literal_pattern (p : str) : Pattern := find_from p 0 0.

Definition is_digit (c : char) : bool := ((48 <=? c) && (c <=? 57))%N.

(** The matches of [[0-9]+]: the maximal runs of ASCII digits.  [run] is
    the start of the run the scan is in. *)
Fixpoint digit_runs (i : Z) (run : option Z) (s : str) : list (Z * Z) :=
  match s with
  | [] => match run with Some b => [(b, i)] | None => [] end
  | c :: s' =>
      if is_digit c then
        digit_runs (i + 1) (Some (match run with Some b => b | None => i end)) s'
      else
        match run with
        | Some b => (b, i) :: digit_runs (i + 1) None s'
        | None => digit_runs (i + 1) None s'
        end
  end.

Definition digits_pattern : Pattern := digit_runs 0 None.

(** *** Replacement templates

    [re.sub] takes a replacement without a backslash as it is, and
    parses any other as a template ([re._parser.parse_template], as of
    Python 3.12) for a pattern without groups, which is what
    [re.escape(tk)] compiles to.  Every failure ([re.error], or
    [IndexError] for an unknown group name) is [ReError] here. *)

Definition backslash : char := 92%N.

Inductive token :=
| TChar (c : char)
| TEsc (c : char).

Fixpoint tokenize (s : str) : option (list token) :=
  match s with
  | [] => Some []
  | c :: s' =>
      if char_eqb c backslash then
        match s' with
        | [] => None
        | d :: s'' => option_map (cons (TEsc d)) (tokenize s'')
        end
      else option_map (cons (TChar c)) (tokenize s')
  end.

Definition is_octdigit (c : char) : bool := ((48 <=? c) && (c <=? 55))%N.
Definition is_ascii_letter (c : char) : bool :=
  (((65 <=? c) && (c <=? 90)) || ((97 <=? c) && (c <=? 122)))%N.
Definition digit_value (c : char) : N := (c - 48)%N.

(** [ESCAPES] *)
Definition escape_char (c : char) : option char :=
  if char_eqb c 97%N then Some 7%N
  else if char_eqb c 98%N then Some 8%N
  else if char_eqb c 102%N then Some 12%N
  else if char_eqb c 110%N then Some 10%N
  else if char_eqb c 114%N then Some 13%N
  else if char_eqb c 116%N then Some 9%N
  else if char_eqb c 118%N then Some 11%N
  else if char_eqb c backslash then Some backslash
  else None.

(** [getuntil(">")]: the group name and what follows the terminator;
    [None] when the name is empty or unterminated. *)
Fixpoint getuntil (ts : list token) : option (list token * list token) :=
  match ts with
  | [] => None
  | TChar c :: ts' =>
      if char_eqb c 62%N then Some ([], ts')
      else match getuntil ts' with
           | Some (name, rest) => Some (TChar c :: name, rest)
           | None => None
           end
  | t :: ts' =>
      match getuntil ts' with
      | Some (name, rest) => Some (t :: name, rest)
      | None => None
      end
  end.

(** [int(name)] of a name made of ASCII decimal digits only. *)
Fixpoint decimal_name (acc : N) (name : list token) : option N :=
  match name with
  | [] => Some acc
  | TChar c :: name' =>
      if is_digit c then decimal_name (10 * acc + digit_value c)%N name'
      else None
  | TEsc _ :: _ => None
  end.

(** The expansion of a tokenized template at a match [m].  A reference
    to group 0 yields the match; no other group exists. *)
Fixpoint expand_tokens (fuel : nat) (m : str) (ts : list token) : result str :=
  match fuel with
  | O => Ok []
  | S fuel' =>
      match ts with
      | [] => Ok []
      | TChar c :: r => bind (expand_tokens fuel' m r) (fun x => Ok (c :: x))
      | TEsc c :: r =>
          if char_eqb c 103%N then
            match r with
            | TChar lt :: r1 =>
                if char_eqb lt 60%N then
                  match getuntil r1 with
                  | Some (name, r2) =>
                      match name, decimal_name 0 name with
                      | _ :: _, Some 0%N =>
                          bind (expand_tokens fuel' m r2) (fun x => Ok (m ++ x))
                      | _, _ => Raise ReError
                      end
                  | None => Raise ReError
                  end
                else Raise ReError
            | _ => Raise ReError
            end
          else if char_eqb c 48%N then
            match r with
            | TChar d1 :: TChar d2 :: r2 =>
                if is_octdigit d1 && is_octdigit d2 then
                  bind (expand_tokens fuel' m r2) (fun x =>
                    Ok (N.land (8 * digit_value d1 + digit_value d2) 255 :: x))
                else if is_octdigit d1 then
                  bind (expand_tokens fuel' m (TChar d2 :: r2)) (fun x =>
                    Ok (digit_value d1 :: x))
                else bind (expand_tokens fuel' m r) (fun x => Ok (0%N :: x))
            | TChar d1 :: r1 =>
                if is_octdigit d1 then
                  bind (expand_tokens fuel' m r1) (fun x =>
                    Ok (digit_value d1 :: x))
                else bind (expand_tokens fuel' m r) (fun x => Ok (0%N :: x))
            | _ => bind (expand_tokens fuel' m r) (fun x => Ok (0%N :: x))
            end
          else if is_digit c then
            match r with
            | TChar d1 :: TChar d2 :: r2 =>
                if is_digit d1 then
                  if is_octdigit c && is_octdigit d1 && is_octdigit d2 then
                    let v := (64 * digit_value c + 8 * digit_value d1
                              + digit_value d2)%N in
                    if (255 <? v)%N then Raise ReError
                    else bind (expand_tokens fuel' m r2) (fun x => Ok (v :: x))
                  else Raise ReError
                else Raise ReError
            | _ => Raise ReError
            end
          else
            match escape_char c with
            | Some e => bind (expand_tokens fuel' m r) (fun x => Ok (e :: x))
            | None =>
                if is_ascii_letter c then Raise ReError
                else bind (expand_tokens fuel' m r)
                          (fun x => Ok (backslash :: c :: x))
            end
      end
  end.

Definition has_backslash (s : str) : bool := existsb (char_eqb backslash) s.

Definition expand_template (repl m : str) : result str :=
  if has_backslash repl then
    match tokenize repl with
    | Some ts => expand_tokens (S (length ts)) m ts
    | None => Raise ReError
    end
  else Ok repl.

(** The scan of [re.sub] for a non-empty literal [tk]: every leftmost,
    non-overlapping occurrence is replaced by [repl]. *)
Fixpoint sub_from (tk repl : str) (skip : nat) (s : str) : str :=
  match s with
  | [] => []
  | c :: s' =>
      match skip with
      | S k => sub_from tk repl k s'
      | O =>
          if starts_with tk s
          then repl ++ sub_from tk repl (length tk - 1) s'
          else c :: sub_from tk repl 0 s'
      end
  end.

(** [re.sub(re.escape(tk), repl, s)].  The template is compiled before
    the scan, so a bad template raises whether or not [tk] occurs.  The
    empty pattern matches before every character and at the end. *)
Definition sub_escaped (tk repl s : str) : result str :=
  bind (expand_template repl tk) (fun r =>
    Ok (match tk with
        | [] => r ++ flat_map (fun c => c :: r) s
        | _ :: _ => sub_from tk r 0 s
        end)).

End Re.

(** ** ner.py *)

(** [class Entity].  [label] is whatever object the extractor stored: a
    string for pattern matches, any decoded JSON value for a delegated
    reply. *)
Record Entity := mkEntity {
  text : str;
  label : pyval;
  start : Z;
  end_ : Z;
  confidence : pyfloat
}.

Module RegexNER.

(** [self.patterns]: label to compiled pattern, in insertion order. *)
Record t := mk { patterns : list (str * Re.Pattern) }.

(** [extract_entities]: [match.group(0)] is the matched slice. *)
Definition extract_entities (self : t) (text : str) : list Entity :=
  flat_map
    (fun lp : str * Re.Pattern =>
       map (fun m : Z * Z =>
              mkEntity (slice text (fst m) (snd m)) (PyStr (fst lp))
                       (fst m) (snd m) (FFin 1))
           (snd lp text))
    (patterns self).

End RegexNER.

(** Operations on decoded JSON values, with the exceptions Python raises
    when a value has the wrong type. *)
Module Dyn.

(** [json.loads] and [float] applied to a string. *)
Record PyLib := mkLib {
  json_loads : str -> option pyval;
  float_of_str : str -> option pyfloat
}.

Fixpoint lookup {V} (k : str) (kv : list (str * V)) : option V :=
  match kv with
  | [] => None
  | (k', v) :: kv' => if str_eqb k' k then Some v else lookup k kv'
  end.

(** [d.get(k, default)] *)
Definition get (d : pyval) (k : str) (default : pyval) : result pyval :=
  match d with
  | PyDict kv =>
      Ok (match lookup k kv with Some v => v | None => default end)
  | _ => Raise AttributeError
  end.

(** The items a [for] loop draws from a value. *)
Definition iter (v : pyval) : result (list pyval) :=
  match v with
  | PyList l => Ok l
  | PyDict kv => Ok (map (fun p : str * pyval => PyStr (fst p)) kv)
  | PyStr s => Ok (map (fun c => PyStr [c]) s)
  | _ => Raise TypeError
  end.

(** [float(n)] for an integer: round to nearest, ties to even, on a
    53-bit significand; [None] beyond the range of a double. *)
Definition float_of_int (z : Z) : option pyfloat :=
  let a := Z.abs z in
  let e := Z.log2 a - 52 in
  let r :=
    if e <=? 0 then a
    else
      let q := Z.shiftr a e in
      let rem := Z.land a (Z.ones e) in
      let half := Z.shiftl 1 (e - 1) in
      let up := (half <? rem) || ((rem =? half) && Z.odd q) in
      Z.shiftl (if up then q + 1 else q) e in
  if r <? 2 ^ 1024 then Some (FFin (inject_Z (Z.sgn z * r))) else None.

(** [float(v)] *)
Definition to_float (lib : PyLib) (v : pyval) : result pyfloat :=
  match v with
  | PyFloat f => Ok f
  | PyBool b => Ok (FFin (if b then 1 else 0))
  | PyInt z =>
      match float_of_int z with
      | Some f => Ok f
      | None => Raise OverflowError
      end
  | PyStr s =>
      match float_of_str lib s with
      | Some f => Ok f
      | None => Raise ValueError
      end
  | _ => Raise TypeError
  end.

(** Numbers: [int] (and [bool], its subclass) and [float]. *)
Inductive num :=
| NumInt (z : Z)
| NumFloat (f : pyfloat).

Definition as_num (v : pyval) : option num :=
  match v with
  | PyInt z => Some (NumInt z)
  | PyBool b => Some (NumInt (if b then 1 else 0))
  | PyFloat f => Some (NumFloat f)
  | _ => None
  end.

(** Comparisons of an [int] with a [float] are exact in Python. *)
Definition exact (n : num) : pyfloat :=
  match n with
  | NumInt z => FFin (inject_Z z)
  | NumFloat f => f
  end.

Definition num_le (a b : num) : bool :=
  match a, b with
  | NumInt x, NumInt y => x <=? y
  | _, _ => float_le (exact a) (exact b)
  end.

Definition num_lt (a b : num) : bool :=
  match a, b with
  | NumInt x, NumInt y => x <? y
  | _, _ => float_lt (exact a) (exact b)
  end.

(** [a <= b] and [a < b] where one side is a number: any other type on
    the other side is a [TypeError]. *)
Definition le (a b : pyval) : result bool :=
  match as_num a, as_num b with
  | Some x, Some y => Ok (num_le x y)
  | _, _ => Raise TypeError
  end.

Definition lt (a b : pyval) : result bool :=
  match as_num a, as_num b with
  | Some x, Some y => Ok (num_lt x y)
  | _, _ => Raise TypeError
  end.

(** A slice bound: an [int] or a [bool]. *)
Definition as_index (v : pyval) : result Z :=
  match v with
  | PyInt z => Ok z
  | PyBool b => Ok (if b then 1 else 0)
  | _ => Raise TypeError
  end.

End Dyn.

Module LLMNER.
Import Dyn.

Record t := mk {
  llm_caller : str -> result str;
  entity_types : list str;
  confidence_threshold : pyfloat;
  max_text_length : Z
}.

Definition dquote : str := [34%N].

Definition prompt_head : str :=
  lit "请识别以下文本中的敏感实体信息。

需要识别的实体类型：".

Definition prompt_rules : str :=
  lit "

实体类型说明和识别要求：
- PERSON: 人名、姓名（如：张三、李四、王五）
- EMAIL: 电子邮箱地址（如：user@example.com、test@company.cn）
- PHONE: 电话号码、手机号码、座机号码，包括：
  * 手机号：13800138000、138-0013-8000
  * 座机号：010-62345678、021-58888888
  * 带区号的完整号码
- ID_NUMBER/IDCN: 身份证号、护照号等身份证件（18位或15位数字）
- BANK_ACCOUNT: 银行账户号码、卡号（16-19位数字）
- CREDIT_CARD: 信用卡号（带空格或连字符的16位数字）
- ADDRESS: 详细地址、街道地址（如：北京市朝阳区建国路88号）
- ORGANIZATION/COMPANY: 公司名称、组织机构名称（如：北京科技有限公司）
- IP_ADDRESS: IP地址（如：192.168.1.1）
- URL: 网址链接（如：https://example.com）
- LOCATION: 地理位置、地名
- LICENSE_PLATE: 车牌号
- FINANCIAL_INFO: 其他金融敏感信息

特别注意：
1. EMAIL必须包含@符号和域名
2. PHONE包括所有数字组合的电话号码（10位以上）
3. 银行账号通常是连续的16-19位数字
4. 地址信息要完整识别
5. 公司名称通常包含" ++ dquote ++ lit "公司" ++ dquote ++ lit "、" ++ dquote ++ lit "企业" ++ dquote ++ lit "、" ++ dquote ++ lit "集团" ++ dquote ++ lit "等关键词

文本内容：
".

Definition prompt_reply_shape : str :=
  lit "

请仔细分析文本，以JSON格式返回识别结果：
{
  " ++ dquote ++ lit "entities" ++ dquote ++ lit ": [
    {
      " ++ dquote ++ lit "text" ++ dquote ++ lit ": " ++ dquote ++ lit "实体的完整文本" ++ dquote ++ lit ",
      " ++ dquote ++ lit "label" ++ dquote ++ lit ": " ++ dquote ++ lit "实体类型" ++ dquote ++ lit ",
      " ++ dquote ++ lit "start" ++ dquote ++ lit ": 起始位置,
      " ++ dquote ++ lit "end" ++ dquote ++ lit ": 结束位置,
      " ++ dquote ++ lit "confidence" ++ dquote ++ lit ": 置信度
    }
  ]
}

要求：
1. 只返回JSON格式，不要其他解释
2. 起始和结束位置是字符索引（从0开始）
3. 置信度请根据识别的确定性给出0.7-1.0之间的数值
4. 如果没有找到实体，返回空数组
5. 必须识别所有EMAIL和PHONE类型的实体
6. 确保位置索引准确对应文本内容".

Fixpoint join (sep : str) (l : list str) : str :=
  match l with
  | [] => []
  | [x] => x
  | x :: l' => x ++ sep ++ join sep l'
  end.

(** [_build_prompt] *)
Definition _build_prompt (self : t) (text : str) : str :=
  let entity_types_str := join (lit "、") (entity_types self) in
  prompt_head ++ entity_types_str ++ prompt_rules ++ text ++ prompt_reply_shape.

(** [_fallback_parse] *)
Definition _fallback_parse (response original_text : str) : list Entity := [].

(** [0 <= start < end <= len(original_text)], evaluated left to right
    and stopping at the first false comparison. *)
Definition in_range (start end_ : pyval) (original_text : str) : result bool :=
  bind (le (PyInt 0) start) (fun c1 =>
  if negb c1 then Ok false else
  bind (lt start end_) (fun c2 =>
  if negb c2 then Ok false else
  le end_ (PyInt (len original_text)))).

(** The body of the [for item in ...] loop: the entity appended for
    [item], if any.  [actual_text == expected_text] is false when
    [expected_text] is not a string. *)
Definition parse_item (lib : PyLib) (original_text : str) (item : pyval)
  : result (option Entity) :=
  bind (get item (lit "start") (PyInt 0)) (fun start =>
  bind (get item (lit "end") (PyInt 0)) (fun end_ =>
  bind (get item (lit "text") (PyStr [])) (fun expected_text =>
  bind (in_range start end_ original_text) (fun ok =>
  if ok then
    bind (as_index start) (fun s =>
    bind (as_index end_) (fun e =>
    let actual_text := slice original_text s e in
    match expected_text with
    | PyStr expected =>
        if str_eqb actual_text expected then
          bind (get item (lit "label") (PyStr (lit "UNKNOWN"))) (fun label =>
          bind (get item (lit "confidence") (PyFloat (FFin (1 # 2)))) (fun c =>
          bind (to_float lib c) (fun confidence =>
          Ok (Some (mkEntity expected label s e confidence)))))
        else Ok None
    | _ => Ok None
    end))
  else Ok None)))).

Fixpoint parse_items (lib : PyLib) (original_text : str) (items : list pyval)
  : result (list Entity) :=
  match items with
  | [] => Ok []
  | item :: items' =>
      bind (parse_item lib original_text item) (fun r =>
      bind (parse_items lib original_text items') (fun entities =>
      Ok (match r with Some entity => entity :: entities | None => entities end)))
  end.

(** The string handed to [json.loads]. *)
Definition json_str (response : str) : str :=
  match Re.search_braces response with
  | Some block => block
  | None => response
  end.

(** The [try] block of [_parse_llm_response]. *)
Definition parse_body (lib : PyLib) (response original_text : str)
  : result (list Entity) :=
  match json_loads lib (json_str response) with
  | None => Raise JSONDecodeError
  | Some data =>
      bind (get data (lit "entities") (PyList [])) (fun v =>
      bind (iter v) (fun items =>
      parse_items lib original_text items))
  end.

(** [_parse_llm_response]:
    [except (json.JSONDecodeError, KeyError, ValueError)] falls back. *)
Definition _parse_llm_response (lib : PyLib) (response original_text : str)
  : result (list Entity) :=
  match parse_body lib response original_text with
  | Ok entities => Ok entities
  | Raise JSONDecodeError | Raise KeyError | Raise ValueError =>
      Ok (_fallback_parse response original_text)
  | Raise e => Raise e
  end.

(** The text the extraction works on: cut and marked when too long. *)
Definition truncated (self : t) (text : str) : str :=
  if max_text_length self <? len text
  then slice_to text (max_text_length self) ++ lit "...[截断]"
  else text.

(** [extract_entities] *)
Definition extract_entities (lib : PyLib) (self : t) (text : str)
  : result (list Entity) :=
  let text := truncated self text in
  reraise_as NERError
    (let prompt := _build_prompt self text in
     bind (llm_caller self prompt) (fun response =>
     bind (_parse_llm_response lib response text) (fun entities =>
     let filtered_entities :=
       filter (fun entity =>
                 float_ge (confidence entity) (confidence_threshold self))
              entities in
     Ok filtered_entities))).

End LLMNER.

Module HybridNER.

Record t := mk {
  regex_ner : option RegexNER.t;
  llm_ner : option LLMNER.t;
  merge_strategy : str
}.

(** [__init__]: at least one recogniser is required. *)
Definition init (regex_ner : option RegexNER.t) (llm_ner : option LLMNER.t)
                (merge_strategy : str) : result t :=
  match regex_ner, llm_ner with
  | None, None => Raise NERError
  | _, _ => Ok (mk regex_ner llm_ner merge_strategy)
  end.

(** [_is_overlap] *)
Definition _is_overlap (entity1 entity2 : Entity) : bool :=
  negb ((end_ entity1 <=? start entity2) || (end_ entity2 <=? start entity1)).

(** The inner [for i, existing in enumerate(merged)] loop up to its
    [break]: the first index whose entity overlaps [entity]. *)
Fixpoint first_overlap (entity : Entity) (i : nat) (merged : list Entity)
  : option (nat * Entity) :=
  match merged with
  | [] => None
  | existing :: merged' =>
      if _is_overlap entity existing then Some (i, existing)
      else first_overlap entity (S i) merged'
  end.

(** One iteration of the outer loop. *)
Definition merge_step (merged : list Entity) (entity : Entity) : list Entity :=
  match first_overlap entity 0 merged with
  | Some (i, existing) =>
      if float_gt (confidence entity) (confidence existing)
      then setitem merged i entity
      else merged
  | None => merged ++ [entity]
  end.

(** [_merge_entities] *)
Definition _merge_entities (entities : list Entity) : list Entity :=
  match entities with
  | [] => []
  | _ =>
      let sorted_entities := sorted start entities in
      fold_left merge_step sorted_entities []
  end.

(** [extract_entities] *)
Definition extract_entities (lib : Dyn.PyLib) (self : t) (text : str)
  : result (list Entity) :=
  let regex_entities :=
    match regex_ner self with
    | Some r => RegexNER.extract_entities r text
    | None => []
    end in
  bind (match llm_ner self with
        | Some l => LLMNER.extract_entities lib l text
        | None => Ok []
        end) (fun llm_entities =>
  let all_entities := regex_entities ++ llm_entities in
  Ok (_merge_entities all_entities)).

End HybridNER.

(** The merge algorithm as the specification words it. *)
Module MergeSpec.

Definition overlap (a b : Entity) : bool :=
  (start a <? end_ b) && (start b <? end_ a).

(** Scan the accepted list for the first entity overlapping the
    candidate; [None] when there is none. *)
Fixpoint resolve (accepted : list Entity) (cand : Entity) : option (list Entity) :=
  match accepted with
  | [] => None
  | a :: rest =>
      if overlap a cand
      then Some (if float_lt (confidence a) (confidence cand)
                 then cand :: rest else a :: rest)
      else option_map (cons a) (resolve rest cand)
  end.

Definition scan (accepted : list Entity) (cand : Entity) : list Entity :=
  match resolve accepted cand with
  | Some accepted' => accepted'
  | None => accepted ++ [cand]
  end.

Definition merge (candidates : list Entity) : list Entity :=
  fold_left scan (sorted start candidates) [].

End MergeSpec.

(** ** masker.py *)

Module DataMasker.

(** [self.ner]: one of the three recognisers. *)
Inductive recogniser :=
| Regex (r : RegexNER.t)
| LLM (l : LLMNER.t)
| Hybrid (h : HybridNER.t).

Record t := mk {
  salt : str;
  ner : recogniser;
  last_entities : list Entity
}.

(** [self.ner.extract_entities(text)] *)
Definition extract_entities (lib : Dyn.PyLib) (n : recogniser) (text : str)
  : result (list Entity) :=
  match n with
  | Regex r => Ok (RegexNER.extract_entities r text)
  | LLM l => LLMNER.extract_entities lib l text
  | Hybrid h => HybridNER.extract_entities lib h text
  end.

(** [self.salt + kind + value]: a [TypeError] unless [kind] is a string. *)
Definition hash_input (salt : str) (kind : pyval) (value : str) : result str :=
  match kind with
  | PyStr k => Ok (salt ++ k ++ value)
  | _ => Raise TypeError
  end.

(** [_short_hash] *)
Definition _short_hash (salt : str) (kind : pyval) (value : str) : result str :=
  reraise_as MaskingError
    (bind (hash_input salt kind value) (fun s =>
     match Utf8.encode s with
     | None => Raise UnicodeEncodeError
     | Some bytes =>
         let h := Sha1.digest bytes in
         Ok (firstn 8 (lower (rstrip 61%N (Base32.b32encode h))))
     end)).

(** [_token]; a label that is a string formats as itself. *)
Definition _token (salt : str) (kind : pyval) (value : str) : result str :=
  bind (_short_hash salt kind value) (fun h =>
  match kind with
  | PyStr k => Ok (lit "<RG:" ++ k ++ lit ":" ++ h ++ lit ">")
  | _ => Raise TypeError
  end).

Definition Mapping := list (str * str).

Definition contains (mapping : Mapping) (token : str) : bool :=
  match Dyn.lookup token mapping with Some _ => true | None => false end.

(** One iteration of the substitution loop on [(masked_text, mapping)]. *)
Definition mask_step (salt : str) (st : str * Mapping) (entity : Entity)
  : result (str * Mapping) :=
  let '(masked_text, mapping) := st in
  bind (_token salt (label entity) (text entity)) (fun token =>
  let mapping :=
    if negb (contains mapping token)
    then mapping ++ [(token, text entity)]
    else mapping in
  Ok (slice_to masked_text (start entity) ++ token
      ++ slice_from masked_text (end_ entity), mapping)).

Fixpoint mask_loop (salt : str) (st : str * Mapping) (entities : list Entity)
  : result (str * Mapping) :=
  match entities with
  | [] => Ok st
  | entity :: entities' =>
      bind (mask_step salt st entity) (fun st' => mask_loop salt st' entities')
  end.

(** [mask]: the result of the call and the instance afterwards.
    [self.last_entities] is bound to the extracted list before that list
    is sorted in place, so the slot holds the sorted list from then on,
    whatever happens later in the call. *)
Definition mask (lib : Dyn.PyLib) (self : t) (text : str)
  : result (str * Mapping * list Entity) * t :=
  match extract_entities lib (ner self) text with
  | Raise _ => (Raise MaskingError, self)
  | Ok entities =>
      let entities := sorted_reverse start entities in
      let self := mk (salt self) (ner self) entities in
      match mask_loop (salt self) (text, []) entities with
      | Raise _ => (Raise MaskingError, self)
      | Ok (masked_text, mapping) => (Ok (masked_text, mapping, entities), self)
      end
  end.

(** [get_last_entities] *)
Definition get_last_entities (self : t) : list Entity := last_entities self.

(** [mapping[tk]] *)
Definition getitem (mapping : Mapping) (tk : str) : result str :=
  match Dyn.lookup tk mapping with
  | Some v => Ok v
  | None => Raise KeyError
  end.

Fixpoint unmask_loop (mapping : Mapping) (result_ : str) (tokens : list str)
  : result str :=
  match tokens with
  | [] => Ok result_
  | tk :: tokens' =>
      bind (getitem mapping tk) (fun v =>
      bind (Re.sub_escaped tk v result_) (fun r =>
      unmask_loop mapping r tokens'))
  end.

(** [unmask] *)
Definition unmask (text : str) (mapping : Mapping) : result str :=
  reraise_as UnmaskingError
    (let tokens_sorted := sorted_reverse len (map fst mapping) in
     unmask_loop mapping text tokens_sorted).

(** [get_entities] *)
Definition get_entities (lib : Dyn.PyLib) (self : t) (text : str)
  : result (list Entity) :=
  extract_entities lib (ner self) text.

End DataMasker.

(** ** Predicates used in the statements *)

Module Shape.

(** No angle bracket occurs in [s]. *)
Definition no_angle (s : str) : bool :=
  forallb (fun c => negb (char_eqb c 60%N || char_eqb c 62%N)) s.

(** The textual shape of a token, [<RG:X:Y>], with [X] and [Y] free of
    angle brackets. *)
Definition is_token (s : str) : Prop :=
  exists X Y, s = lit "<RG:" ++ X ++ lit ":" ++ Y ++ lit ">" /\
              no_angle X = true /\ no_angle Y = true.

(** A bracketed string: an opening angle bracket, a body without angle
    brackets, a closing one. *)
Definition bracketed (s : str) : Prop :=
  exists body : str, s = 60%N :: body ++ [62%N] /\ no_angle body = true.

(** [tk] occurs in [s] as a substring. *)
Fixpoint occurs (tk s : str) : bool :=
  Re.starts_with tk s ||
  match s with
  | [] => false
  | _ :: s' => occurs tk s'
  end.

(** [k] starts no substring of [s]. *)
Definition nowhere (k s : str) : Prop :=
  forall a b c, s = a ++ b ++ c -> Re.starts_with k b = false.

(** Two spans intersect when some index lies in both. *)
Definition spans_intersect (a b : Entity) : Prop :=
  exists i, (start a <= i < end_ a) /\ (start b <= i < end_ b).

Definition disjoint (a b : Entity) : Prop :=
  HybridNER._is_overlap a b = false.

(** Letters a-z and digits 0-9. *)
Definition is_lower_alnum (c : char) : bool :=
  (((97 <=? c) && (c <=? 122)) || ((48 <=? c) && (c <=? 57)))%N.

(** The invariant of an entity with respect to the text it was found in. *)
Definition well_formed (source : str) (e : Entity) : bool :=
  (0 <=? start e) && (start e <? end_ e) && (end_ e <=? len source) &&
  str_eqb (text e) (slice source (start e) (end_ e)).

(** What the verification of a delegated candidate establishes. *)
Definition verified (original_text : str) (e : Entity) : Prop :=
  0 <= start e < end_ e /\ end_ e <= len original_text /\
  text e = slice original_text (start e) (end_ e).

(** The token of an entity, when one is produced. *)
Definition token_of (salt : str) (e : Entity) : str :=
  match DataMasker._token salt (label e) (text e) with
  | Ok tk => tk
  | Raise _ => []
  end.

(** The entity's token is [tk]. *)
Definition produces (salt tk : str) (e : Entity) : bool :=
  match DataMasker._token salt (label e) (text e) with
  | Ok t => str_eqb t tk
  | Raise _ => false
  end.

(** The label is a string without angle brackets, the hashed string can
    be encoded, and the value holds no backslash. *)
Definition plain (salt : str) (e : Entity) : bool :=
  match label e with
  | PyStr l =>
      no_angle l && forallb Utf8.encodable_char (salt ++ l ++ text e)
      && negb (Re.has_backslash (text e))
  | _ => false
  end.

(** Entities with the same token have the same text. *)
Definition collision_free (salt : str) (entities : list Entity) : bool :=
  forallb (fun a =>
    forallb (fun b =>
      implb (str_eqb (token_of salt a) (token_of salt b))
            (str_eqb (text a) (text b)))
      entities)
    entities.

(** No token of the entities occurs in the text. *)
Definition tokens_absent (salt : str) (source : str) (entities : list Entity)
  : bool :=
  forallb (fun e => negb (occurs (token_of salt e) source)) entities.

End Shape.


(** ** The layout of a masked text

    A text cut at the spans of its entities, taken in ascending order:
    each piece is the gap before an entity and the entity; what follows
    the last entity is kept apart. *)

Module Layout.

Definition piece := (str * Entity)%type.

(** The pieces put together, each entity rendered by [f]. *)
Fixpoint flat (f : Entity -> str) (ps : list piece) : str :=
  match ps with
  | [] => []
  | (g, e) :: ps' => g ++ f e ++ flat f ps'
  end.

(** The offsets of the entities are those of their texts in
    [flat text ps], counted from [off]. *)
Fixpoint positioned (off : nat) (ps : list piece) : Prop :=
  match ps with
  | [] => True
  | (g, e) :: ps' =>
      start e = Z.of_nat (off + length g) /\
      end_ e = Z.of_nat (off + length g + length (text e)) /\
      positioned (off + length g + length (text e)) ps'
  end.

(** The pieces of [source] from [pos] on, for entities in ascending
    order, and the position after the last of them. *)
Fixpoint pieces (source : str) (pos : nat) (A : list Entity) : list piece :=
  match A with
  | [] => []
  | e :: A' =>
      (firstn (Z.to_nat (start e) - pos) (skipn pos source), e)
      :: pieces source (Z.to_nat (end_ e)) A'
  end.

Fixpoint last_pos (pos : nat) (A : list Entity) : nat :=
  match A with
  | [] => pos
  | e :: A' => last_pos (Z.to_nat (end_ e)) A'
  end.

(** An entity as it stands while unmasking: its text once its token is
    among the restored ones, its token before. *)
Definition restored (salt : str) (S : list str) (e : Entity) : str :=
  if existsb (str_eqb (Shape.token_of salt e)) S
  then text e else Shape.token_of salt e.

(** What unmasking needs to know of a key [k] of the mapping: its value
    has no backslash and is the text of every entity whose token is [k],
    and [k] is bracketed and starts nowhere in the text. *)
Definition key_ok (salt : str) (mapping : DataMasker.Mapping) (source : str)
           (ps : list piece) (k : str) : Prop :=
  exists v,
    Dyn.lookup k mapping = Some v /\ Re.has_backslash v = false /\
    Shape.bracketed k /\ Shape.nowhere k source /\
    (forall e, In e (map snd ps) -> Shape.token_of salt e = k -> text e = v).

End Layout.

(** ** Example configurations *)

Module Examples.

Definition quoted (s : string) : str := LLMNER.dquote ++ lit s ++ LLMNER.dquote.

(** The JSON text of one candidate; [l] is the JSON text of its label. *)
Definition json_candidate (t : string) (l : str) (s e c : string) : str :=
  lit "{" ++ quoted "text" ++ lit ": " ++ quoted t ++ lit ", "
  ++ quoted "label" ++ lit ": " ++ l ++ lit ", "
  ++ quoted "start" ++ lit ": " ++ lit s ++ lit ", "
  ++ quoted "end" ++ lit ": " ++ lit e ++ lit ", "
  ++ quoted "confidence" ++ lit ": " ++ lit c ++ lit "}".

(** What [json.loads] returns for such a candidate. *)
Definition candidate (t : string) (l : pyval) (s e : Z) (c : Q) : pyval :=
  PyDict [(lit "text", PyStr (lit t)); (lit "label", l);
          (lit "start", PyInt s); (lit "end", PyInt e);
          (lit "confidence", PyFloat (FFin c))].

(** A decoder that knows one document and rejects every other string. *)
Definition decoder (document : str) (value : pyval) : Dyn.PyLib :=
  Dyn.mkLib (fun s => if str_eqb s document then Some value else None)
            (fun _ => None).

Definition lib_reject : Dyn.PyLib := Dyn.mkLib (fun _ => None) (fun _ => None).

(** A reply about the text ["Bob Ann now"]: a correct candidate, one
    whose text is not at the reported place, one below the threshold and
    one out of range. *)
Definition people_block : str :=
  lit "{" ++ quoted "entities" ++ lit ": ["
  ++ json_candidate "Bob" (quoted "PERSON") "0" "3" "0.9" ++ lit ", "
  ++ json_candidate "Eve" (quoted "PERSON") "4" "7" "0.9" ++ lit ", "
  ++ json_candidate "now" (quoted "TIME") "8" "11" "0.2" ++ lit ", "
  ++ json_candidate "Ann" (quoted "PERSON") "4" "50" "0.9"
  ++ lit "]}".

Definition people_reply : str := lit "Here you are: " ++ people_block ++ lit " Done.".

Definition people_data : pyval :=
  PyDict [(lit "entities",
           PyList [candidate "Bob" (PyStr (lit "PERSON")) 0 3 (9 # 10);
                   candidate "Eve" (PyStr (lit "PERSON")) 4 7 (9 # 10);
                   candidate "now" (PyStr (lit "TIME")) 8 11 (2 # 10);
                   candidate "Ann" (PyStr (lit "PERSON")) 4 50 (9 # 10)])].

Definition people_lib : Dyn.PyLib := decoder people_block people_data.

Definition people_ner : LLMNER.t :=
  LLMNER.mk (fun _ => Ok people_reply) [lit "PERSON"; lit "TIME"]
            (FFin (7 # 10)) 2000.

Definition people_text : str := lit "Bob Ann now".

(** A reply without a structured block. *)
Definition prose_ner : LLMNER.t :=
  LLMNER.mk (fun _ => Ok (lit "I found no entities.")) [lit "PERSON"]
            (FFin (7 # 10)) 2000.

(** A reply whose candidate is correct but labelled with a number. *)
Definition numbered_block : str :=
  lit "{" ++ quoted "entities" ++ lit ": ["
  ++ json_candidate "Bob" (lit "5") "0" "3" "0.9" ++ lit "]}".

Definition numbered_data : pyval :=
  PyDict [(lit "entities", PyList [candidate "Bob" (PyInt 5) 0 3 (9 # 10)])].

Definition numbered_lib : Dyn.PyLib := decoder numbered_block numbered_data.

Definition numbered_masker : DataMasker.t :=
  DataMasker.mk (lit "s0000000")
    (DataMasker.LLM (LLMNER.mk (fun _ => Ok numbered_block) [lit "PERSON"]
                               (FFin (7 # 10)) 2000))
    [].

(** Pattern-only maskers with one pattern each. *)
Definition email_masker : DataMasker.t :=
  DataMasker.mk (lit "s0000000")
    (DataMasker.Regex
       (RegexNER.mk [(lit "EMAIL", Re.literal_pattern (lit "a@b.com"))]))
    [].

Definition account_ner : RegexNER.t :=
  RegexNER.mk [(lit "ACCT", Re.digits_pattern)].

Definition account_masker : DataMasker.t :=
  DataMasker.mk (lit "s0000000") (DataMasker.Regex account_ner) [].

(** Two account numbers whose tokens coincide under this salt. *)
Definition colliding_text : str := lit "1000987594 1001986883".

(** A hybrid masker whose completion function fails. *)
Definition failing_hybrid : DataMasker.t :=
  DataMasker.mk (lit "s0000000")
    (DataMasker.Hybrid
       (HybridNER.mk (Some account_ner)
          (Some (LLMNER.mk (fun _ => Raise OtherError) [lit "PERSON"]
                           (FFin (7 # 10)) 2000))
          (lit "union")))
    [].

End Examples.

(** ** Dictionaries, and the string methods of pipeline.py and utils.py *)

Module Dict.

(** [d[k] = v]: the value of an existing key is replaced where it
    stands, a new key goes last. *)
Fixpoint setitem {V} (k : str) (v : V) (d : list (str * V)) : list (str * V) :=
  match d with
  | [] => [(k, v)]
  | (k', v') :: d' =>
      if str_eqb k' k then (k, v) :: d' else (k', v') :: setitem k v d'
  end.

(** [d.update(other)] *)
Definition update {V} (d other : list (str * V)) : list (str * V) :=
  fold_left (fun acc kv => setitem (fst kv) (snd kv) acc) other d.

End Dict.

Module Str.

Definition mem (c : char) (chars : str) : bool := existsb (char_eqb c) chars.

Fixpoint lstrip (chars s : str) : str :=
  match s with
  | [] => []
  | c :: s' => if mem c chars then lstrip chars s' else s
  end.

(** [s.strip(chars)] *)
Definition strip (chars s : str) : str :=
  rev (lstrip chars (rev (lstrip chars s))).

(** [s.split(sep)] for a separator of one character. *)
Fixpoint split (sep : char) (s : str) : list str :=
  match s with
  | [] => [[]]
  | c :: s' =>
      if char_eqb c sep then [] :: split sep s'
      else match split sep s' with
           | p :: ps => (c :: p) :: ps
           | [] => [[c]]
           end
  end.

(** [str.isspace] of a single character. *)
Definition is_space (c : char) : bool :=
  (((9 <=? c) && (c <=? 13)) || ((28 <=? c) && (c <=? 32))
   || (c =? 0x85) || (c =? 0xA0) || (c =? 0x1680)
   || ((0x2000 <=? c) && (c <=? 0x200A))
   || (c =? 0x2028) || (c =? 0x2029) || (c =? 0x202F) || (c =? 0x205F)
   || (c =? 0x3000))%N.

Fixpoint lstrip_space (s : str) : str :=
  match s with
  | [] => []
  | c :: s' => if is_space c then lstrip_space s' else s
  end.

(** [s.strip()] *)
Definition strip_space (s : str) : str :=
  rev (lstrip_space (rev (lstrip_space s))).

End Str.

(** ** masker.py: construction and patterns *)

Module Setup.

(** [re.compile]: the compiled pattern, or the exception raised.  A
    malformed pattern raises [ReError] ([re.error]); the function can
    raise others, such as [OverflowError] for a repeat count beyond the
    limit of the engine. *)
Definition Compiler := str -> result Re.Pattern.

(** [RegexNER.__init__]: [except re.error] turns a malformed pattern
    into [NERError]; any other exception of [re.compile] passes
    through. *)
Fixpoint compile_all (compile : Compiler) (acc : list (str * Re.Pattern))
         (patterns : list (str * str)) : result (list (str * Re.Pattern)) :=
  match patterns with
  | [] => Ok acc
  | (label, pattern) :: patterns' =>
      match compile pattern with
      | Ok p => compile_all compile (Dict.setitem label p acc) patterns'
      | Raise ReError => Raise NERError
      | Raise e => Raise e
      end
  end.

Definition RegexNER_init (compile : Compiler) (patterns : list (str * str))
  : result RegexNER.t :=
  bind (compile_all compile [] patterns) (fun ps => Ok (RegexNER.mk ps)).

Definition default_entity_types : list str :=
  [lit "PERSON"; lit "EMAIL"; lit "PHONE"; lit "ID_NUMBER"; lit "IDCN";
   lit "CREDIT_CARD"; lit "BANK_ACCOUNT"; lit "ADDRESS"; lit "ORGANIZATION";
   lit "COMPANY"; lit "LICENSE_PLATE"; lit "IP_ADDRESS"; lit "URL";
   lit "LOCATION"; lit "FINANCIAL_INFO"].

(** [LLMNER.__init__] with the default threshold and length, which is
    how [DataMasker] calls it; [entity_types or [...]] takes the defaults
    for [None] and for the empty list. *)
Definition LLMNER_init (llm_caller : str -> result str)
           (entity_types : option (list str)) : LLMNER.t :=
  LLMNER.mk llm_caller
    (match entity_types with
     | Some (ty :: tys) => ty :: tys
     | _ => default_entity_types
     end)
    (FFin (7 # 10)) 2000.

(** [_validate_salt] *)
Definition _validate_salt (salt : str) : result unit :=
  if len salt <? 8 then Raise MaskingError else Ok tt.

Definition default_patterns : list (str * str) :=
  [
   (lit "EMAIL", lit "\b[a-zA-Z0-9._%+-]+@[a-zA-Z0-9.-]+\.[a-zA-Z]{2,}\b");
   (lit "PHONE", lit "\b(?:\+?\d{1,3}[-.\s]?)?(?:\(?\d{2,4}\)?[-.\s]?)?\d{3,4}[-.\s]?\d{3,4}\b|\b1[3-9]\d{9}\b");
   (lit "IDCN", lit "\b\d{17}[\dXx]\b|\b\d{15}\b");
   (lit "IPV4", lit "\b(?:\d{1,3}\.){3}\d{1,3}\b");
   (lit "CREDIT_CARD", lit "\b(?:\d{4}[-\s]?){3}\d{4}\b");
   (lit "BANK_ACCOUNT", lit "\b\d{16,19}\b");
   (lit "URL", lit "https?://[^\s<>\" ++ LLMNER.dquote ++ lit "]+")
  ].

(** [_init_ner] *)
Definition _init_ner (compile : Compiler) (ner_strategy : str)
           (patterns : list (str * str))
           (llm_caller : option (str -> result str))
           (llm_entity_types : option (list str))
  : result DataMasker.recogniser :=
  reraise_as MaskingError
    (if str_eqb ner_strategy (lit "regex_only") then
       bind (RegexNER_init compile patterns) (fun r => Ok (DataMasker.Regex r))
     else if str_eqb ner_strategy (lit "llm_only") then
       match llm_caller with
       | None => Raise NERError
       | Some caller =>
           Ok (DataMasker.LLM (LLMNER_init caller llm_entity_types))
       end
     else if str_eqb ner_strategy (lit "hybrid") then
       bind (RegexNER_init compile patterns) (fun regex_ner =>
       let llm_ner :=
         match llm_caller with
         | Some caller => Some (LLMNER_init caller llm_entity_types)
         | None => None
         end in
       bind (HybridNER.init (Some regex_ner) llm_ner (lit "union")) (fun h =>
       Ok (DataMasker.Hybrid h)))
     else Raise NERError).

(** [DataMasker.__init__].  [ner_strategy] is kept by the source for
    [get_ner_info] only, and [use_llm_ner] is not read. *)
Definition init (compile : Compiler) (salt : str)
           (custom_patterns : option (list (str * str)))
           (llm_caller : option (str -> result str))
           (llm_entity_types : option (list str))
           (ner_strategy : str) : result DataMasker.t :=
  bind (_validate_salt salt) (fun _ =>
  let patterns :=
    match custom_patterns with
    | Some custom => Dict.update default_patterns custom
    | None => default_patterns
    end in
  bind (_init_ner compile ner_strategy patterns llm_caller llm_entity_types)
       (fun ner => Ok (DataMasker.mk salt ner []))).

(** [add_pattern]: the instance after the call.  The patterns are only
    written once the pattern has compiled.  [except re.error] turns a
    malformed pattern into [MaskingError]; any other exception of
    [re.compile] leaves the method as it is. *)
Definition add_pattern (compile : Compiler) (self : DataMasker.t)
           (name pattern : str) : result DataMasker.t :=
  match DataMasker.ner self with
  | DataMasker.Regex r =>
      match compile pattern with
      | Ok p =>
          Ok (DataMasker.mk (DataMasker.salt self)
                (DataMasker.Regex
                   (RegexNER.mk (Dict.setitem name p (RegexNER.patterns r))))
                (DataMasker.last_entities self))
      | Raise ReError => Raise MaskingError
      | Raise e => Raise e
      end
  | DataMasker.Hybrid h =>
      match HybridNER.regex_ner h with
      | Some r =>
          match compile pattern with
          | Ok p =>
              Ok (DataMasker.mk (DataMasker.salt self)
                    (DataMasker.Hybrid
                       (HybridNER.mk
                          (Some (RegexNER.mk
                                   (Dict.setitem name p (RegexNER.patterns r))))
                          (HybridNER.llm_ner h) (HybridNER.merge_strategy h)))
                    (DataMasker.last_entities self))
          | Raise ReError => Raise MaskingError
          | Raise e => Raise e
          end
      | None => Raise MaskingError
      end
  | DataMasker.LLM _ => Raise MaskingError
  end.

End Setup.

(** ** pipeline.py *)

Module RAGGuard.

Definition marker : str := lit "...[截断]".

(** The chunk as [prepare_chunks] masks it. *)
Definition cut (max_chunk_length : Z) (chunk : str) : str :=
  if max_chunk_length <? len chunk
  then slice_to chunk max_chunk_length ++ marker
  else chunk.

(** The loop of [prepare_chunks] on
    [(masked_chunks, combined_mapping)] and the masker. *)
Fixpoint prepare_loop (lib : Dyn.PyLib) (max_chunk_length : Z)
         (masker : DataMasker.t) (acc : list str * DataMasker.Mapping)
         (chunks : list str)
  : result (list str * DataMasker.Mapping) * DataMasker.t :=
  match chunks with
  | [] => (Ok acc, masker)
  | chunk :: chunks' =>
      match DataMasker.mask lib masker (cut max_chunk_length chunk) with
      | (Ok (masked_chunk, chunk_mapping, _), masker') =>
          prepare_loop lib max_chunk_length masker'
            (fst acc ++ [masked_chunk], Dict.update (snd acc) chunk_mapping)
            chunks'
      | (Raise e, masker') => (Raise e, masker')
      end
  end.

(** [prepare_chunks]: the result and the masker afterwards. *)
Definition prepare_chunks (lib : Dyn.PyLib) (masker : DataMasker.t)
           (chunks : list str) (max_chunk_length : option Z)
  : result (list str * DataMasker.Mapping) * DataMasker.t :=
  let max_chunk_length :=
    match max_chunk_length with
    | Some n => n
    | None => 10000
    end in
  prepare_loop lib max_chunk_length masker ([], []) chunks.

(** [len(parts) == 3 and parts[1] in partial_unmask] for the parts of
    one token. *)
Definition keeps (partial_unmask : list str) (token : str) : bool :=
  let parts := Str.split 58%N (Str.strip (lit "<>") token) in
  match parts with
  | [_; kind; _] => existsb (str_eqb kind) partial_unmask
  | _ => false
  end.

(** The loop that fills [filtered_mapping]. *)
Definition filtered (partial_unmask : list str) (mapping : DataMasker.Mapping)
  : DataMasker.Mapping :=
  fold_left
    (fun filtered_mapping kv =>
       if keeps partial_unmask (fst kv)
       then Dict.setitem (fst kv) (snd kv) filtered_mapping
       else filtered_mapping)
    mapping [].

(** [postprocess]: [if partial_unmask] is false for [None] and for the
    empty list. *)
Definition postprocess (external_answer : str) (mapping : DataMasker.Mapping)
           (need_unmask : bool) (partial_unmask : option (list str))
  : result str :=
  if negb need_unmask then Ok external_answer
  else
    match partial_unmask with
    | Some (kind :: kinds) =>
        DataMasker.unmask external_answer (filtered (kind :: kinds) mapping)
    | _ => DataMasker.unmask external_answer mapping
    end.

End RAGGuard.

(** ** utils.py *)

Module Utils.

(** [validate_chunks] *)
Fixpoint validate_chunks (chunks : list str) (max_length : Z) : list str :=
  match chunks with
  | [] => []
  | chunk :: chunks' =>
      let chunk := Str.strip_space chunk in
      match chunk with
      | [] => validate_chunks chunks' max_length
      | _ :: _ =>
          (if max_length <? len chunk
           then slice_to chunk max_length ++ RAGGuard.marker
           else chunk) :: validate_chunks chunks' max_length
      end
  end.

(** The slices [items[i:i + batch_size]] for [i] in
    [range(0, len(items), batch_size)], [batch_size] being positive. *)
Fixpoint batches {A} (fuel : nat) (n : nat) (items : list A) : list (list A) :=
  match fuel, items with
  | S fuel', _ :: _ => firstn n items :: batches fuel' n (skipn n items)
  | _, _ => []
  end.

(** [batch_process], run to its end: [range] rejects a step of zero and
    is empty for a negative one. *)
Definition batch_process {A} (items : list A) (batch_size : Z)
  : result (list (list A)) :=
  if batch_size =? 0 then Raise ValueError
  else if batch_size <? 0 then Ok []
  else Ok (batches (length items) (Z.to_nat batch_size) items).

End Utils.

(** ** Further predicates used in the statements *)

Module Span.

(** The span of the entity is not empty. *)
Definition proper (e : Entity) : Prop := start e < end_ e.

(** [a] ends where [b] starts, or before. *)
Definition precedes (a b : Entity) : Prop := end_ a <= start b.

End Span.

Module Hashing.

(** The label is a string, and the string hashed for the entity can be
    encoded. *)
Definition hashable (salt : str) (e : Entity) : bool :=
  match label e with
  | PyStr l => forallb Utf8.encodable_char (salt ++ l ++ text e)
  | _ => false
  end.

End Hashing.

Module Recogniser.

(** The pattern recogniser that a recogniser holds, if any: the one
    [add_pattern] writes to. *)
Definition regex_of (n : DataMasker.recogniser) : option RegexNER.t :=
  match n with
  | DataMasker.Regex r => Some r
  | DataMasker.Hybrid h => HybridNER.regex_ner h
  | DataMasker.LLM _ => None
  end.

(** The compiled pattern, when [re.compile] returns one. *)
Definition compiled (compile : Setup.Compiler) (pattern : str)
  : option Re.Pattern :=
  match compile pattern with
  | Ok p => Some p
  | Raise _ => None
  end.

(** The entities that one compiled pattern contributes under a label. *)
Definition matches (name : str) (p : Re.Pattern) (source : str) : list Entity :=
  map (fun m : Z * Z =>
         mkEntity (slice source (fst m) (snd m)) (PyStr name)
                  (fst m) (snd m) (FFin 1))
      (p source).

End Recogniser.

(** ** Further example configurations *)

Module MoreExamples.
Import Examples.

(** A reply about the text ["Bob Ann"]: two correct candidates, the
    second with its confidence in words. *)
Definition worded_candidate : str :=
  lit "{" ++ quoted "text" ++ lit ": " ++ quoted "Ann" ++ lit ", "
  ++ quoted "label" ++ lit ": " ++ quoted "PERSON" ++ lit ", "
  ++ quoted "start" ++ lit ": 4, " ++ quoted "end" ++ lit ": 7, "
  ++ quoted "confidence" ++ lit ": " ++ quoted "high" ++ lit "}".

Definition worded_block : str :=
  lit "{" ++ quoted "entities" ++ lit ": ["
  ++ json_candidate "Bob" (quoted "PERSON") "0" "3" "0.9" ++ lit ", "
  ++ worded_candidate ++ lit "]}".

Definition worded_item : list (str * pyval) :=
  [(lit "text", PyStr (lit "Ann")); (lit "label", PyStr (lit "PERSON"));
   (lit "start", PyInt 4); (lit "end", PyInt 7);
   (lit "confidence", PyStr (lit "high"))].

Definition worded_entities : list (str * pyval) :=
  [(lit "entities",
    PyList [candidate "Bob" (PyStr (lit "PERSON")) 0 3 (9 # 10);
            PyDict worded_item])].

Definition worded_lib : Dyn.PyLib := decoder worded_block (PyDict worded_entities).

Definition worded_ner : LLMNER.t :=
  LLMNER.mk (fun _ => Ok worded_block) [lit "PERSON"] (FFin (7 # 10)) 2000.

(** A stand-in for [re.compile] that accepts every pattern: it knows
    the pattern [[0-9]+], and its other patterns match nothing. *)
Definition accepting_compiler : Setup.Compiler :=
  fun pattern =>
    Ok (if str_eqb pattern (lit "[0-9]+") then Re.digits_pattern
        else fun _ => []).

(** A stand-in that knows [[0-9]+], raises [OverflowError] for
    [a{4294967295}] as [re.compile] does, and rejects every other
    pattern as malformed. *)
Definition digits_compiler : Setup.Compiler :=
  fun pattern =>
    if str_eqb pattern (lit "[0-9]+") then Ok Re.digits_pattern
    else if str_eqb pattern (lit "a{4294967295}") then Raise OverflowError
    else Raise ReError.





End MoreExamples.
(** * Properties *)

(** ** Equality tests *)

Module EqFacts.

Lemma char_eqb_eq (a b : char) : char_eqb a b = true <-> a = b.
Proof. apply N.eqb_eq. Qed.

Lemma char_eqb_refl (a : char) : char_eqb a a = true.
Proof. apply N.eqb_refl. Qed.

Lemma str_eqb_eq (a b : str) : str_eqb a b = true <-> a = b.
Proof.
  revert b. induction a as [|x a IH]; destruct b as [|y b]; simpl;
    try (split; [discriminate|congruence]); [tauto|].
  rewrite andb_true_iff, char_eqb_eq, IH.
  split; [intros [-> ->]; reflexivity|intros H; injection H; auto].
Qed.

Lemma str_eqb_refl (a : str) : str_eqb a a = true.
Proof. now apply str_eqb_eq. Qed.

Lemma str_eqb_neq (a b : str) : str_eqb a b = false <-> a <> b.
Proof.
  rewrite <- str_eqb_eq. destruct (str_eqb a b); split; congruence.
Qed.

End EqFacts.

(** ** Sorting *)

Section SortingFacts.
Variable A : Type.
Variable key : A -> Z.

Lemma insert_asc_perm (x : A) (l : list A) :
    Permutation (x :: l) (insert_asc key x l).
  Proof.
    induction l as [|y l IH]; simpl; [reflexivity|].
    destruct (key y <? key x); [|reflexivity].
    rewrite perm_swap. now apply perm_skip.
  Qed.

Lemma sorted_perm (l : list A) : Permutation l (sorted key l).
  Proof.
    induction l as [|x l IH]; simpl; [constructor|].
    rewrite <- insert_asc_perm. now apply perm_skip.
  Qed.

Lemma insert_asc_sorted (x : A) (l : list A) :
    StronglySorted (fun a b => key a <= key b) l ->
    StronglySorted (fun a b => key a <= key b) (insert_asc key x l).
  Proof.
    induction 1 as [|y l Hs IH Hy]; simpl.
    - repeat constructor.
    - destruct (key y <? key x) eqn:E.
      + constructor; [exact IH|].
        rewrite <- insert_asc_perm. constructor; [lia|exact Hy].
      + constructor; [now constructor|].
        constructor; [lia|].
        eapply Forall_impl; [|exact Hy]. simpl. intros; lia.
  Qed.

Lemma sorted_sorted (l : list A) :
    StronglySorted (fun a b => key a <= key b) (sorted key l).
  Proof.
    induction l; simpl; [constructor|now apply insert_asc_sorted].
  Qed.

Lemma insert_desc_perm (x : A) (l : list A) :
    Permutation (x :: l) (insert_desc key x l).
  Proof.
    induction l as [|y l IH]; simpl; [reflexivity|].
    destruct (key x <? key y); [|reflexivity].
    rewrite perm_swap. now apply perm_skip.
  Qed.

Lemma sorted_reverse_perm (l : list A) :
    Permutation l (sorted_reverse key l).
  Proof.
    induction l as [|x l IH]; simpl; [constructor|].
    rewrite <- insert_desc_perm. now apply perm_skip.
  Qed.

Lemma insert_desc_sorted (x : A) (l : list A) :
    StronglySorted (fun a b => key b <= key a) l ->
    StronglySorted (fun a b => key b <= key a) (insert_desc key x l).
  Proof.
    induction 1 as [|y l Hs IH Hy]; simpl.
    - repeat constructor.
    - destruct (key x <? key y) eqn:E.
      + constructor; [exact IH|].
        rewrite <- insert_desc_perm. constructor; [lia|exact Hy].
      + constructor; [now constructor|].
        constructor; [lia|].
        eapply Forall_impl; [|exact Hy]. simpl. intros; lia.
  Qed.

Lemma sorted_reverse_sorted (l : list A) :
    StronglySorted (fun a b => key b <= key a) (sorted_reverse key l).
  Proof.
    induction l; simpl; [constructor|now apply insert_desc_sorted].
  Qed.

  (** A symmetric relation that holds between all pairs of a list holds
      between all pairs of any rearrangement built by insertion. *)
Variable R : A -> A -> Prop.
Hypothesis R_sym : forall a b, R a b -> R b a.

Lemma pairs_insert (ins : A -> list A -> list A) :
    (forall x l, Permutation (x :: l) (ins x l)) ->
    (forall x y l, ins x (y :: l) = y :: ins x l \/ ins x (y :: l) = x :: y :: l) ->
    forall x l, Forall (R x) l -> ForallOrdPairs R l -> ForallOrdPairs R (ins x l).
  Proof.
    intros Hperm Hcase x l. revert x.
    induction l as [|y l IH]; intros x Hx Hl.
    - specialize (Hperm x []). apply Permutation_length_1_inv in Hperm.
      rewrite Hperm. now constructor.
    - inversion Hx; subst. inversion Hl; subst.
      destruct (Hcase x y l) as [E|E]; rewrite E.
      + constructor; [|now apply IH].
        rewrite <- Hperm. constructor; [now apply R_sym|assumption].
      + now constructor.
  Qed.

Lemma pairs_sorted (l : list A) :
    ForallOrdPairs R l -> ForallOrdPairs R (sorted key l).
  Proof.
    induction 1 as [|x l Hx Hl IH]; simpl; [constructor|].
    apply (pairs_insert (insert_asc key)).
    - apply insert_asc_perm.
    - intros a b m. simpl. destruct (key b <? key a); auto.
    - now rewrite <- sorted_perm.
    - exact IH.
  Qed.

Lemma pairs_sorted_reverse (l : list A) :
    ForallOrdPairs R l -> ForallOrdPairs R (sorted_reverse key l).
  Proof.
    induction 1 as [|x l Hx Hl IH]; simpl; [constructor|].
    apply (pairs_insert (insert_desc key)).
    - apply insert_desc_perm.
    - intros a b m. simpl. destruct (key a <? key b); auto.
    - now rewrite <- sorted_reverse_perm.
    - exact IH.
  Qed.

Lemma pairs_app (l1 l2 : list A) :
    ForallOrdPairs R (l1 ++ l2) <->
    ForallOrdPairs R l1 /\ ForallOrdPairs R l2 /\
    Forall (fun x => Forall (R x) l2) l1.
  Proof.
    induction l1 as [|x l1 IH]; simpl.
    - split; [intros H; repeat split; [constructor|exact H|constructor]
             |intros (_ & H & _); exact H].
    - split.
      + intros H. inversion H as [|? ? Hx Hl]; subst.
        apply IH in Hl. destruct Hl as (H1 & H2 & H3).
        apply Forall_app in Hx. destruct Hx as [Hx1 Hx2].
        repeat split; [now constructor|exact H2|now constructor].
      + intros (H1 & H2 & H3).
        inversion H1; subst. inversion H3; subst.
        constructor; [apply Forall_app; now split|].
        apply IH. now repeat split.
  Qed.
End SortingFacts.

(** ** The Hybrid merge *)

Module MergeFacts.
Import HybridNER Shape.

Lemma is_overlap_spec (a b : Entity) :
  _is_overlap a b = MergeSpec.overlap a b.
Proof.
  unfold _is_overlap, MergeSpec.overlap.
  destruct (end_ a <=? start b) eqn:E1, (end_ b <=? start a) eqn:E2,
           (start a <? end_ b) eqn:E3, (start b <? end_ a) eqn:E4;
    simpl; try reflexivity; lia.
Qed.

Lemma is_overlap_sym (a b : Entity) : _is_overlap a b = _is_overlap b a.
Proof. unfold _is_overlap. now rewrite orb_comm. Qed.

Lemma disjoint_sym (a b : Entity) : disjoint a b -> disjoint b a.
Proof. unfold disjoint. now rewrite is_overlap_sym. Qed.

Lemma disjoint_no_intersection (a b : Entity) :
  disjoint a b -> ~ spans_intersect a b.
Proof.
  unfold disjoint, _is_overlap. intros H (i & Ha & Hb).
  apply negb_false_iff, orb_true_iff in H. lia.
Qed.

(** A candidate that starts no earlier than two disjoint entities
    overlaps at most one of them. *)
Lemma overlaps_at_most_one (e x y : Entity) :
  start x <= start e -> start y <= start e ->
  disjoint x y -> _is_overlap e x = true -> disjoint e y.
Proof.
  unfold disjoint, _is_overlap. intros Hx Hy Hxy Hex.
  apply negb_false_iff, orb_true_iff in Hxy.
  apply negb_true_iff, orb_false_iff in Hex.
  apply negb_false_iff, orb_true_iff. lia.
Qed.

Lemma first_overlap_none (e : Entity) (k : nat) (merged : list Entity) :
  first_overlap e k merged = None <-> Forall (disjoint e) merged.
Proof.
  revert k. induction merged as [|x merged IH]; intros k; simpl.
  - split; [constructor|reflexivity].
  - destruct (_is_overlap e x) eqn:E.
    + split; [discriminate|]. intros H. inversion H; subst.
      unfold disjoint in *. congruence.
    + rewrite IH. split; [now constructor|]. intros H. now inversion H.
Qed.

Lemma first_overlap_some (e : Entity) (k i : nat) (ex : Entity)
      (merged : list Entity) :
  first_overlap e k merged = Some (i, ex) ->
  exists l1 l2, merged = l1 ++ ex :: l2 /\ i = (k + length l1)%nat /\
                Forall (disjoint e) l1 /\ _is_overlap e ex = true.
Proof.
  revert k. induction merged as [|x merged IH]; intros k; simpl; [discriminate|].
  destruct (_is_overlap e x) eqn:E.
  - intros H. injection H as <- <-. exists [], merged.
    repeat split; [simpl; lia|constructor|exact E].
  - intros H. destruct (IH _ H) as (l1 & l2 & -> & -> & Hl1 & Hex).
    exists (x :: l1), l2. repeat split; [simpl; lia|now constructor|exact Hex].
Qed.

Lemma setitem_app (l1 l2 : list Entity) (x e : Entity) :
  setitem (l1 ++ x :: l2) (length l1) e = l1 ++ e :: l2.
Proof. induction l1; simpl; [reflexivity|now f_equal]. Qed.

(** One iteration keeps the accepted list pairwise disjoint, and made of
    entities that start no later than the next candidates. *)
Lemma merge_step_invariant (merged : list Entity) (e : Entity) :
  ForallOrdPairs disjoint merged ->
  Forall (fun x => start x <= start e) merged ->
  ForallOrdPairs disjoint (merge_step merged e) /\
  Forall (fun x => start x <= start e) (merge_step merged e).
Proof.
  intros Hd Hs. unfold merge_step.
  destruct (first_overlap e 0 merged) as [[i ex]|] eqn:F.
  - destruct (float_gt (confidence e) (confidence ex)); [|now split].
    destruct (first_overlap_some _ _ _ F) as (l1 & l2 & -> & -> & Hl1 & Hex).
    simpl. rewrite setitem_app.
    apply pairs_app in Hd. destruct Hd as (H1 & H2 & H3).
    inversion H2 as [|? ? Hex2 Hl2]; subst.
    apply Forall_app in Hs. destruct Hs as [Hs1 Hs2].
    inversion Hs2 as [|? ? Hsx Hsl2]; subst.
    split.
    + apply pairs_app. repeat split; [exact H1| |].
      * constructor; [|exact Hl2].
        rewrite Forall_forall in Hex2, Hsl2 |- *. intros y Hy.
        apply overlaps_at_most_one with (x := ex); auto.
      * rewrite Forall_forall in H3, Hl1 |- *. intros y Hy.
        specialize (H3 y Hy). inversion H3; subst.
        constructor; [|assumption].
        apply disjoint_sym, Hl1, Hy.
    + apply Forall_app. split; [exact Hs1|].
      constructor; [lia|exact Hsl2].
  - apply first_overlap_none in F. split.
    + apply pairs_app. repeat split; [exact Hd|repeat constructor|].
      rewrite Forall_forall in *. intros y Hy.
      constructor; [|constructor]. apply disjoint_sym, F, Hy.
    + apply Forall_app. split; [exact Hs|]. constructor; [lia|constructor].
Qed.

Lemma merge_loop_disjoint (l merged : list Entity) :
  StronglySorted (fun a b => start a <= start b) l ->
  ForallOrdPairs disjoint merged ->
  Forall (fun x => Forall (fun y => start x <= start y) l) merged ->
  ForallOrdPairs disjoint (fold_left merge_step l merged).
Proof.
  revert merged. induction l as [|e l IH]; intros merged Hs Hd Hm; simpl.
  - exact Hd.
  - inversion Hs as [|? ? Hsl He]; subst.
    destruct (merge_step_invariant e Hd) as [Hd' Hs'].
    + eapply Forall_impl; [|exact Hm]. simpl. intros x Hx. now inversion Hx.
    + apply IH; [exact Hsl|exact Hd'|].
      rewrite Forall_forall in *. intros x Hx.
      specialize (Hs' x Hx). apply Forall_forall. intros y Hy.
      specialize (He y Hy). simpl in He. lia.
Qed.

(** The loop of the source and the scan of the specification agree. *)
Lemma first_overlap_ge (e : Entity) (k i : nat) (ex : Entity)
      (merged : list Entity) :
  first_overlap e k merged = Some (i, ex) -> (k <= i)%nat.
Proof.
  intros H. destruct (first_overlap_some _ _ _ H) as (? & ? & _ & -> & _). lia.
Qed.

Lemma resolve_first_overlap (e : Entity) (k : nat) (merged : list Entity) :
  MergeSpec.resolve merged e =
  match first_overlap e k merged with
  | Some (i, ex) =>
      Some (if float_gt (confidence e) (confidence ex)
            then setitem merged (i - k) e else merged)
  | None => None
  end.
Proof.
  revert k. induction merged as [|x merged IH]; intros k; simpl; [reflexivity|].
  rewrite <- is_overlap_spec, (is_overlap_sym x e).
  destruct (_is_overlap e x) eqn:E.
  - rewrite Nat.sub_diag. unfold float_gt.
    now destruct (float_lt (confidence x) (confidence e)).
  - rewrite (IH (S k)).
    destruct (first_overlap e (S k) merged) as [[i ex]|] eqn:F; [|reflexivity].
    apply first_overlap_ge in F. simpl.
    replace (i - k)%nat with (S (i - S k)) by lia.
    now destruct (float_gt (confidence e) (confidence ex)).
Qed.

Lemma merge_step_scan (merged : list Entity) (e : Entity) :
  merge_step merged e = MergeSpec.scan merged e.
Proof.
  unfold merge_step, MergeSpec.scan. rewrite (resolve_first_overlap e 0).
  destruct (first_overlap e 0 merged) as [[i ex]|]; [|reflexivity].
  now rewrite Nat.sub_0_r.
Qed.

Lemma fold_merge_step_scan (l merged : list Entity) :
  fold_left merge_step l merged = fold_left MergeSpec.scan l merged.
Proof.
  revert merged. induction l as [|e l IH]; intros merged; simpl; [reflexivity|].
  now rewrite merge_step_scan, IH.
Qed.

Lemma merge_loop_disjoint_input (l merged : list Entity) :
  ForallOrdPairs disjoint (merged ++ l) ->
  fold_left merge_step l merged = merged ++ l.
Proof.
  revert merged. induction l as [|e l IH]; intros merged H; simpl.
  - now rewrite app_nil_r.
  - assert (F : first_overlap e 0 merged = None).
    { apply first_overlap_none. apply pairs_app in H.
      destruct H as (_ & _ & H). rewrite Forall_forall in *.
      intros x Hx. specialize (H x Hx). inversion H; subst.
      now apply disjoint_sym. }
    unfold merge_step at 2. rewrite F.
    rewrite IH; rewrite <- app_assoc; [reflexivity|exact H].
Qed.

End MergeFacts.

(** C2. For every input list, the entities returned by the Hybrid
    Extractor's merge step are pairwise non-overlapping: no two of them
    overlap in the sense of [_is_overlap], and so no two of their
    [[start, end)] spans share an index.  Chains of three or more mutually
    overlapping candidates are included: the input is arbitrary. *)
Theorem merge_entities_non_overlapping (entities : list Entity) :
  ForallOrdPairs
    (fun a b => HybridNER._is_overlap a b = false /\
                ~ Shape.spans_intersect a b)
    (HybridNER._merge_entities entities).
Proof.
  assert (H : ForallOrdPairs Shape.disjoint
                (HybridNER._merge_entities entities)).
  { unfold HybridNER._merge_entities.
    destruct entities as [|e entities]; [constructor|].
    apply MergeFacts.merge_loop_disjoint;
      [apply sorted_sorted|constructor|constructor]. }
  induction H as [|a l Ha Hl IH]; constructor; [|exact IH].
  eapply Forall_impl; [|exact Ha]. simpl. intros b Hb.
  split; [exact Hb|now apply MergeFacts.disjoint_no_intersection].
Qed.

(** C3. The merge of the source equals the reference algorithm of the
    specification (sort ascending by start; for each candidate replace
    the first overlapping accepted entity when the candidate's confidence
    is strictly greater, drop the candidate when it is not, append it
    when nothing overlaps), and the overlap tests coincide.  For
    A = [0,10) with confidence 1.0 and B = [5,15) with confidence 0.5 the
    result is A alone, in whichever order the two are given. *)
Theorem merge_entities_refines_spec :
  (forall entities,
     HybridNER._merge_entities entities = MergeSpec.merge entities) /\
  (forall a b, HybridNER._is_overlap a b = MergeSpec.overlap a b) /\
  (forall ta la tb lb,
     let A := mkEntity ta la 0 10 (FFin 1) in
     let B := mkEntity tb lb 5 15 (FFin (1 # 2)) in
     HybridNER._merge_entities [A; B] = [A] /\
     HybridNER._merge_entities [B; A] = [A]).
Proof.
  split; [|split].
  - intros entities. unfold HybridNER._merge_entities, MergeSpec.merge.
    destruct entities as [|e entities]; [reflexivity|].
    apply MergeFacts.fold_merge_step_scan.
  - apply MergeFacts.is_overlap_spec.
  - intros. split; reflexivity.
Qed.

(** C10. On an input that is already pairwise non-overlapping the merge
    drops and replaces nothing: it returns the input sorted ascending by
    start (a stable sort, hence a rearrangement of the input in
    non-decreasing order of start). *)
Theorem merge_entities_disjoint_input (entities : list Entity) :
  ForallOrdPairs (fun a b => MergeSpec.overlap a b = false) entities ->
  HybridNER._merge_entities entities = sorted start entities /\
  Permutation entities (HybridNER._merge_entities entities) /\
  StronglySorted (fun a b => start a <= start b)
                 (HybridNER._merge_entities entities).
Proof.
  intros H.
  assert (E : HybridNER._merge_entities entities = sorted start entities).
  { unfold HybridNER._merge_entities.
    destruct entities as [|e entities]; [reflexivity|].
    rewrite MergeFacts.merge_loop_disjoint_input; [reflexivity|].
    change (ForallOrdPairs Shape.disjoint (sorted start (e :: entities))).
    apply pairs_sorted; [exact MergeFacts.disjoint_sym|].
    clear -H. induction H as [|a l Ha Hl IH]; constructor; [|exact IH].
    eapply Forall_impl; [|exact Ha]. simpl. intros b Hb.
    unfold Shape.disjoint. now rewrite MergeFacts.is_overlap_spec. }
  rewrite E. split; [reflexivity|]. split; [apply sorted_perm|apply sorted_sorted].
Qed.

Lemma merge_entities_disjoint_input_witness :
  let A := mkEntity (lit "ab") (PyStr (lit "X")) 0 2 (FFin 1) in
  let B := mkEntity (lit "cd") (PyStr (lit "Y")) 2 4 (FFin (1 # 2)) in
  HybridNER._merge_entities [B; A] = [A; B].
Proof.
  intros A B.
  assert (H : ForallOrdPairs (fun a b => MergeSpec.overlap a b = false) [B; A]).
  { repeat constructor. }
  exact (proj1 (merge_entities_disjoint_input H)).
Defined.

(** ** Token generation *)

Module TokenFacts.
Import DataMasker Shape.

Lemma be_bytes_length (n : nat) (x : N) : length (Sha1.be_bytes n x) = n.
Proof. induction n; simpl; [reflexivity|now f_equal]. Qed.

Lemma digest_length (msg : list N) : length (Sha1.digest msg) = 20%nat.
Proof.
  unfold Sha1.digest.
  destruct (Sha1.blocks _ _ _) as [[[[h0 h1] h2] h3] h4].
  now rewrite !length_app, !be_bytes_length.
Qed.

Lemma alphabet_lower (i : nat) :
  (i < 32)%nat ->
  let c := nth i Base32.alphabet 0%N in
  is_lower_alnum (lower_char c) = true /\ char_eqb c 61%N = false.
Proof.
  intros H. do 32 (destruct i as [|i]; [split; reflexivity|]). lia.
Qed.

Lemma digit_lower (c shift : N) :
  is_lower_alnum (lower_char (Base32.digit c shift)) = true /\
  char_eqb (Base32.digit c shift) 61%N = false.
Proof.
  unfold Base32.digit. apply alphabet_lower.
  change 31%N with (N.ones 5). rewrite N.land_ones.
  assert (N.shiftr c shift mod 2 ^ 5 < 2 ^ 5)%N by (apply N.mod_lt; discriminate).
  change (2 ^ 5)%N with 32%N in *. lia.
Qed.

Lemma quantum_lower (b0 b1 b2 b3 b4 : N) :
  forallb is_lower_alnum (lower (Base32.quantum b0 b1 b2 b3 b4)) = true /\
  existsb (fun c => char_eqb c 61%N) (Base32.quantum b0 b1 b2 b3 b4) = false /\
  length (Base32.quantum b0 b1 b2 b3 b4) = 8%nat.
Proof.
  unfold Base32.quantum. cbv zeta.
  set (c := (N.shiftl b0 32 + N.shiftl b1 24 + N.shiftl b2 16
             + N.shiftl b3 8 + b4)%N).
  split; [|split].
  - unfold lower. cbn [map forallb].
    now rewrite !(proj1 (digit_lower _ _)).
  - cbn [existsb]. now rewrite !(proj2 (digit_lower _ _)).
  - reflexivity.
Qed.

Lemma rstrip_cons (c x : char) (s : str) :
  rstrip c (x :: s) =
  match rstrip c s with
  | [] => if char_eqb x c then [] else [x]
  | r => x :: r
  end.
Proof. reflexivity. Qed.

Lemma rstrip_keep (c : char) (q r : str) :
  existsb (fun x => char_eqb x c) q = false -> q <> [] ->
  rstrip c (q ++ r) = q ++ rstrip c r.
Proof.
  induction q as [|x q IH]; intros Hq Hne; [congruence|].
  cbn [existsb] in Hq. apply orb_false_iff in Hq. destruct Hq as [Hx Hq].
  rewrite <- app_comm_cons, rstrip_cons.
  destruct q as [|y q].
  - cbn [app]. destruct (rstrip c r); [now rewrite Hx|reflexivity].
  - rewrite IH by (assumption || discriminate). reflexivity.
Qed.

(** The eight characters taken from a Base32 text of at least one full
    quantum. *)
Lemma hash8_of_digest (d : list N) :
  (5 <= length d)%nat ->
  let h := firstn 8 (lower (rstrip 61%N (Base32.b32encode d))) in
  length h = 8%nat /\ forallb is_lower_alnum h = true.
Proof.
  intros H.
  destruct d as [|b0 [|b1 [|b2 [|b3 [|b4 rest]]]]]; simpl in H; try lia.
  change (Base32.b32encode (b0 :: b1 :: b2 :: b3 :: b4 :: rest))
    with (Base32.quantum b0 b1 b2 b3 b4 ++ Base32.b32encode rest).
  destruct (quantum_lower b0 b1 b2 b3 b4) as (Hl & He & Hn).
  intros h. subst h. rewrite rstrip_keep; [|exact He|].
  - unfold lower in *. rewrite map_app, firstn_app.
    rewrite length_map, Hn, Nat.sub_diag. simpl firstn at 2.
    rewrite app_nil_r, firstn_all2 by (rewrite length_map; lia).
    split; [now rewrite length_map|exact Hl].
  - intros E. rewrite E in Hn. discriminate.
Qed.

Lemma encode_char_some (c : char) :
  Utf8.encodable_char c = true <-> Utf8.encode_char c <> None.
Proof.
  unfold Utf8.encodable_char, Utf8.encode_char.
  destruct (N.ltb_spec c 0x80); [rewrite (proj2 (N.ltb_lt c 0xD800)) by lia;
                                 split; [discriminate|reflexivity]|].
  destruct (N.ltb_spec c 0x800); [rewrite (proj2 (N.ltb_lt c 0xD800)) by lia;
                                  split; [discriminate|reflexivity]|].
  destruct (N.ltb_spec c 0x10000).
  - destruct (N.leb_spec 0xD800 c), (N.leb_spec c 0xDFFF),
             (N.ltb_spec c 0xD800), (N.ltb_spec 0xDFFF c),
             (N.ltb_spec c 0x110000); cbn [orb andb];
      split; intros; try discriminate; try congruence; try reflexivity; lia.
  - destruct (N.ltb_spec c 0xD800), (N.ltb_spec 0xDFFF c),
             (N.ltb_spec c 0x110000); cbn [orb andb];
      split; intros; try discriminate; try congruence; try reflexivity; lia.
Qed.

Lemma encode_some (s : str) :
  forallb Utf8.encodable_char s = true <-> Utf8.encode s <> None.
Proof.
  induction s as [|c s IH]; simpl.
  - split; [discriminate|reflexivity].
  - rewrite andb_true_iff, IH, encode_char_some.
    destruct (Utf8.encode_char c), (Utf8.encode s);
      split; intros; try discriminate; try tauto; try (split; discriminate).
Qed.

Lemma token_of_str (salt k value : str) :
  _token salt (PyStr k) value =
  match Utf8.encode (salt ++ k ++ value) with
  | Some bytes =>
      Ok (lit "<RG:" ++ k ++ lit ":"
          ++ firstn 8 (lower (rstrip 61%N (Base32.b32encode (Sha1.digest bytes))))
          ++ lit ">")
  | None => Raise MaskingError
  end.
Proof.
  unfold _token, _short_hash, hash_input. cbn [bind].
  destruct (Utf8.encode (salt ++ k ++ value)); reflexivity.
Qed.

Lemma token_produced (salt l value : str) :
  forallb Utf8.encodable_char (salt ++ l ++ value) = true ->
  exists hash8,
    _token salt (PyStr l) value =
      Ok (lit "<RG:" ++ l ++ lit ":" ++ hash8 ++ lit ">") /\
    length hash8 = 8%nat /\
    forallb is_lower_alnum hash8 = true.
Proof.
  rewrite token_of_str. intros H. apply encode_some in H.
  destruct (Utf8.encode (salt ++ l ++ value)) as [bytes|]; [|congruence].
  eexists. split; [reflexivity|].
  apply hash8_of_digest. rewrite digest_length. lia.
Qed.

Lemma token_shape (salt l value tok : str) :
  _token salt (PyStr l) value = Ok tok ->
  exists hash8,
    tok = lit "<RG:" ++ l ++ lit ":" ++ hash8 ++ lit ">" /\
    length hash8 = 8%nat /\
    forallb is_lower_alnum hash8 = true.
Proof.
  rewrite token_of_str. intros H.
  destruct (Utf8.encode (salt ++ l ++ value)) as [bytes|]; [|discriminate].
  injection H as <-. eexists. split; [reflexivity|].
  apply hash8_of_digest. rewrite digest_length. lia.
Qed.

End TokenFacts.

(** C5. The token of a label and a value is
    ["<RG:" + label + ":" + hash8 + ">"] with [hash8] made of exactly eight
    lowercase alphanumeric characters.  A token is produced for every
    (salt, label, value) that UTF-8 can encode, every token produced has
    this shape, and entities with the same label and text get the same
    token. *)
Theorem token_shape_deterministic (salt label_ value : str) :
  (forallb Utf8.encodable_char (salt ++ label_ ++ value) = true ->
   exists hash8,
     DataMasker._token salt (PyStr label_) value =
       Ok (lit "<RG:" ++ label_ ++ lit ":" ++ hash8 ++ lit ">") /\
     length hash8 = 8%nat /\
     forallb Shape.is_lower_alnum hash8 = true) /\
  (forall tok,
     DataMasker._token salt (PyStr label_) value = Ok tok ->
     exists hash8,
       tok = lit "<RG:" ++ label_ ++ lit ":" ++ hash8 ++ lit ">" /\
       length hash8 = 8%nat /\
       forallb Shape.is_lower_alnum hash8 = true) /\
  (forall e1 e2 : Entity,
     label e1 = label e2 -> text e1 = text e2 ->
     DataMasker._token salt (label e1) (text e1) =
     DataMasker._token salt (label e2) (text e2)).
Proof.
  split; [|split].
  - apply TokenFacts.token_produced.
  - intros tok. apply TokenFacts.token_shape.
  - intros e1 e2 -> ->. reflexivity.
Qed.

Lemma token_shape_deterministic_witness :
  exists hash8,
    DataMasker._token (lit "s0000000") (PyStr (lit "EMAIL")) (lit "a@b.com") =
      Ok (lit "<RG:" ++ lit "EMAIL" ++ lit ":" ++ hash8 ++ lit ">") /\
    length hash8 = 8%nat /\
    forallb Shape.is_lower_alnum hash8 = true.
Proof.
  apply (proj1 (token_shape_deterministic (lit "s0000000") (lit "EMAIL")
                                          (lit "a@b.com"))).
  vm_compute. reflexivity.
Defined.

(** ** The delegated extractor *)

Module LLMFacts.
Import Dyn LLMNER Shape EqFacts.

Lemma in_range_index (vs ve : pyval) (t : str) (s e : Z) :
  in_range vs ve t = Ok true ->
  as_index vs = Ok s -> as_index ve = Ok e ->
  0 <= s < e /\ e <= len t.
Proof.
  unfold in_range, le, lt, as_index.
  destruct vs as [| bs | zs | | | |]; try discriminate;
    destruct ve as [| be | ze | | | |]; try discriminate;
    cbn [as_num bind num_le num_lt];
    intros H Hs He; injection Hs as <-; injection He as <-;
    repeat match type of H with
           | context [if negb ?c then _ else _] =>
               let E := fresh "E" in destruct c eqn:E; cbn [negb] in H;
               [|discriminate]
           end;
    injection H as H; lia.
Qed.

Lemma parse_item_verified (lib : PyLib) (t : str) (item : pyval) (e : Entity) :
  parse_item lib t item = Ok (Some e) -> verified t e.
Proof.
  unfold parse_item. destruct item; try discriminate. cbn [get bind].
  set (vs := match lookup (lit "start") kv with Some v => v | None => PyInt 0 end).
  set (ve := match lookup (lit "end") kv with Some v => v | None => PyInt 0 end).
  set (vt := match lookup (lit "text") kv with Some v => v | None => PyStr [] end).
  destruct (in_range vs ve t) as [[|]|] eqn:R; cbn [bind]; try discriminate.
  destruct (as_index vs) as [s|] eqn:Is; cbn [bind]; [|discriminate].
  destruct (as_index ve) as [e'|] eqn:Ie; cbn [bind]; [|discriminate].
  destruct vt; try discriminate.
  destruct (str_eqb (slice t s e') s0) eqn:Q; [|discriminate].
  destruct (to_float lib _); cbn [bind]; [|discriminate].
  intros H. injection H as <-. apply str_eqb_eq in Q.
  destruct (in_range_index _ _ _ R Is Ie) as [R1 R2].
  repeat split; cbn [start end_ text]; try lia. now symmetry.
Qed.

Lemma parse_items_verified (lib : PyLib) (t : str) (items : list pyval)
      (es : list Entity) :
  parse_items lib t items = Ok es -> Forall (verified t) es.
Proof.
  revert es. induction items as [|item items IH]; intros es; cbn [parse_items].
  - intros H. injection H as <-. constructor.
  - destruct (parse_item lib t item) as [r|] eqn:P; cbn [bind]; [|discriminate].
    destruct (parse_items lib t items) as [es'|]; cbn [bind]; [|discriminate].
    intros H. injection H as <-. specialize (IH _ eq_refl).
    destruct r as [e|]; [|exact IH].
    constructor; [exact (parse_item_verified _ _ _ P)|exact IH].
Qed.

Lemma parse_response_verified (lib : PyLib) (response t : str)
      (es : list Entity) :
  _parse_llm_response lib response t = Ok es -> Forall (verified t) es.
Proof.
  unfold _parse_llm_response.
  destruct (parse_body lib response t) as [es'|ex] eqn:B.
  - intros H. injection H as <-. unfold parse_body in B.
    destruct (json_loads lib (json_str response)); [|discriminate].
    destruct (get p (lit "entities") (PyList [])); cbn [bind] in B; [|discriminate].
    destruct (iter a); cbn [bind] in B; [|discriminate].
    exact (parse_items_verified _ _ _ B).
  - destruct ex; try discriminate;
      intros H; injection H as <-; constructor.
Qed.

(** A reply whose block does not decode takes the fallback. *)
Lemma parse_response_undecodable (lib : PyLib) (response t : str) :
  json_loads lib (json_str response) = None ->
  _parse_llm_response lib response t = Ok [].
Proof.
  intros H. unfold _parse_llm_response, parse_body. now rewrite H.
Qed.

End LLMFacts.


(** C9. When the string handed to the decoder (the embedded block, or
    the whole reply when there is none) does not decode,
    [LLMNER.extract_entities] returns the empty sequence and does not
    raise. *)
Theorem unparseable_reply_yields_empty (lib : Dyn.PyLib) (self : LLMNER.t)
        (text0 reply : str) :
  LLMNER.llm_caller self
    (LLMNER._build_prompt self (LLMNER.truncated self text0)) = Ok reply ->
  Dyn.json_loads lib (LLMNER.json_str reply) = None ->
  LLMNER.extract_entities lib self text0 = Ok [].
Proof.
  intros Hc Hj. unfold LLMNER.extract_entities. rewrite Hc. cbn [bind].
  now rewrite (LLMFacts.parse_response_undecodable _ _ _ Hj).
Qed.

(** ** Literal substitution *)

Module SubFacts.
Import Re Shape EqFacts.

Lemma starts_with_app_self (k y : str) : starts_with k (k ++ y) = true.
Proof. induction k; simpl; [reflexivity|]. now rewrite char_eqb_refl. Qed.

Lemma starts_with_length (k s : str) :
  starts_with k s = true -> (length k <= length s)%nat.
Proof.
  revert s. induction k as [|x k IH]; intros [|y s]; simpl;
    try lia; try discriminate.
  intros H. apply andb_true_iff in H. destruct H as [_ H].
  apply IH in H. lia.
Qed.

Lemma starts_with_prefix (k s : str) :
  starts_with k s = true -> exists r, s = k ++ r.
Proof.
  revert s. induction k as [|x k IH]; intros s; simpl.
  - intros _. now exists s.
  - destruct s as [|y s]; [discriminate|]. intros H.
    apply andb_true_iff in H. destruct H as [E H].
    apply char_eqb_eq in E. subst y.
    destruct (IH _ H) as [r ->]. now exists r.
Qed.

Lemma starts_with_app (k s y : str) :
  starts_with k s = true -> starts_with k (s ++ y) = true.
Proof.
  intros H. destruct (starts_with_prefix _ _ H) as [r ->].
  rewrite <- app_assoc. apply starts_with_app_self.
Qed.

(** A string whose tail lacks [c] cannot run over a boundary that is
    followed by [c]. *)
Lemma starts_with_boundary (c : char) (k b y : str) :
  existsb (char_eqb c) k = false ->
  starts_with k (b ++ c :: y) = starts_with k b.
Proof.
  revert b. induction k as [|x k IH]; intros b H; [now destruct b|].
  cbn [existsb] in H. apply orb_false_iff in H. destruct H as [Hx Hk].
  destruct b as [|d b]; cbn [app starts_with].
  - unfold char_eqb in *. rewrite N.eqb_sym, Hx. reflexivity.
  - now rewrite IH.
Qed.

Lemma sub_from_skip (k r a y : str) :
  sub_from k r (length a) (a ++ y) = sub_from k r 0 y.
Proof. induction a; simpl; [now destruct y|assumption]. Qed.

Lemma sub_from_match (k r y : str) :
  k <> [] -> sub_from k r 0 (k ++ y) = r ++ sub_from k r 0 y.
Proof.
  destruct k as [|c k]; [congruence|]. intros _.
  change ((c :: k) ++ y) with (c :: (k ++ y)).
  cbn [sub_from]. change (c :: k ++ y) with ((c :: k) ++ y).
  rewrite starts_with_app_self.
  replace (length (c :: k) - 1)%nat with (length k) by (simpl; lia).
  now rewrite sub_from_skip.
Qed.

(** Where no occurrence starts, the scan copies. *)
Lemma sub_from_copy (k r x y : str) :
  (forall a b, x = a ++ b -> b <> [] -> starts_with k (b ++ y) = false) ->
  sub_from k r 0 (x ++ y) = x ++ sub_from k r 0 y.
Proof.
  induction x as [|c x IH]; intros H; [reflexivity|].
  change ((c :: x) ++ y) with (c :: (x ++ y)). cbn [sub_from].
  change (c :: x ++ y) with ((c :: x) ++ y).
  rewrite (H [] (c :: x) eq_refl) by discriminate.
  cbn [app]. f_equal. apply IH. intros a b -> Hb.
  apply (H (c :: a) b); [reflexivity|exact Hb].
Qed.

Lemma no_angle_app (a b : str) :
  no_angle (a ++ b) = no_angle a && no_angle b.
Proof. apply forallb_app. Qed.

Lemma is_token_bracketed (s : str) : is_token s -> bracketed s.
Proof.
  intros (X & Y & -> & HX & HY).
  exists (lit "RG:" ++ X ++ lit ":" ++ Y). split.
  - change (lit "<RG:") with (60%N :: lit "RG:"). cbn [app].
    now rewrite <- !app_assoc.
  - rewrite !no_angle_app, HX, HY. reflexivity.
Qed.

Lemma no_angle_cons (c : char) (s : str) :
  no_angle (c :: s) = true ->
  c <> 60%N /\ c <> 62%N /\ no_angle s = true.
Proof.
  unfold no_angle. cbn [forallb]. intros H.
  apply andb_true_iff in H. destruct H as [Hc Hs].
  apply negb_true_iff, orb_false_iff in Hc. destruct Hc as [H1 H2].
  unfold char_eqb in *. apply N.eqb_neq in H1, H2. auto.
Qed.

Lemma no_angle_lt (s : str) :
  no_angle s = true -> existsb (char_eqb 60%N) s = false.
Proof.
  induction s as [|c s IH]; [reflexivity|]. intros H.
  apply no_angle_cons in H. destruct H as (H1 & _ & Hs).
  cbn [existsb]. rewrite (IH Hs), orb_false_r.
  unfold char_eqb. apply N.eqb_neq. congruence.
Qed.

Lemma bracketed_nonempty (s : str) : bracketed s -> s <> [].
Proof. intros (b & -> & _). discriminate. Qed.

Lemma bracketed_tail (s : str) :
  bracketed s ->
  exists t, s = 60%N :: t /\ existsb (char_eqb 60%N) t = false.
Proof.
  intros (b & -> & Hb). exists (b ++ [62%N]). split; [reflexivity|].
  rewrite existsb_app. apply no_angle_lt in Hb. rewrite Hb. reflexivity.
Qed.

(** A bracketed string that starts where another one starts is that
    other one. *)
Lemma body_prefix_eq (a b y : str) :
  no_angle a = true -> no_angle b = true ->
  starts_with (a ++ [62%N]) (b ++ 62%N :: y) = true -> a = b.
Proof.
  revert b. induction a as [|x a IH]; intros b Ha Hb H.
  - destruct b as [|z b]; [reflexivity|].
    apply no_angle_cons in Hb. destruct Hb as (_ & Hz & _).
    cbn [app starts_with] in H. apply andb_true_iff in H. destruct H as [H _].
    apply char_eqb_eq in H. congruence.
  - apply no_angle_cons in Ha. destruct Ha as (_ & Hx & Ha).
    destruct b as [|z b]; cbn [app starts_with] in H;
      apply andb_true_iff in H; destruct H as [E H];
      apply char_eqb_eq in E.
    + congruence.
    + apply no_angle_cons in Hb. destruct Hb as (_ & _ & Hb).
      subst z. f_equal. now apply IH.
Qed.

Lemma bracketed_prefix_eq (k u y : str) :
  bracketed k -> bracketed u ->
  starts_with k (u ++ y) = true -> k = u.
Proof.
  intros (a & -> & Ha) (b & -> & Hb) H.
  cbn [app starts_with] in H. apply andb_true_iff in H. destruct H as [_ H].
  rewrite <- app_assoc in H. cbn [app] in H.
  now rewrite (body_prefix_eq _ _ _ Ha Hb H).
Qed.

(** Inside a bracketed string no bracketed string starts, except at its
    first character. *)
Lemma bracketed_inner (k u y a b : str) :
  bracketed k -> bracketed u -> u = a ++ b -> a <> [] -> b <> [] ->
  starts_with k (b ++ y) = false.
Proof.
  intros (t & -> & _) (body & -> & Hb) E Ha Hne.
  destruct a as [|c a]; [congruence|]. injection E as _ E.
  destruct b as [|d b]; [congruence|]. cbn [app starts_with].
  assert (In d (body ++ [62%N])) by (rewrite E; apply in_or_app; right; now left).
  destruct (char_eqb 60%N d) eqn:Q; [|reflexivity].
  apply char_eqb_eq in Q. subst d.
  apply in_app_or in H. destruct H as [H|[H|[]]]; [|discriminate].
  apply no_angle_lt in Hb.
  assert (existsb (char_eqb 60%N) body = true)
    by (apply existsb_exists; exists 60%N; split; [exact H|reflexivity]).
  congruence.
Qed.

(** The scan passes over a bracketed string that is not the pattern. *)
Lemma sub_from_other (k r u y : str) :
  bracketed k -> bracketed u -> k <> u ->
  sub_from k r 0 (u ++ y) = u ++ sub_from k r 0 y.
Proof.
  intros Hk Hu Hne. apply sub_from_copy. intros a b E Hb.
  destruct a as [|c a].
  - simpl in E. subst b.
    destruct (starts_with k (u ++ y)) eqn:S; [|reflexivity].
    now apply bracketed_prefix_eq in S.
  - eapply bracketed_inner; eauto. discriminate.
Qed.

(** The scan of a text around a bracketed string that is not the
    pattern is the scan of the two sides. *)
Lemma sub_from_around (k r u post : str) :
  bracketed k -> bracketed u -> k <> u ->
  forall pre skip, (skip <= length pre)%nat ->
  sub_from k r skip (pre ++ u ++ post) =
  sub_from k r skip pre ++ u ++ sub_from k r 0 post.
Proof.
  intros Hk Hu Hne.
  destruct (bracketed_tail Hk) as (t & Ek & Ht).
  destruct Hu as (body & Eu & Hbody).
  induction pre as [|c pre IH]; intros skip Hs.
  - assert (skip = 0%nat) by (simpl in Hs; lia). subst skip.
    cbn [app sub_from]. apply sub_from_other; auto. now exists body.
  - cbn [app sub_from length] in *. destruct skip as [|j].
    + assert (S : starts_with k (c :: pre ++ u ++ post) = starts_with k (c :: pre)).
      { rewrite Ek. cbn [starts_with]. f_equal.
        rewrite Eu. cbn [app]. now apply starts_with_boundary. }
      rewrite S. destruct (starts_with k (c :: pre)) eqn:Q.
      * rewrite <- app_assoc. f_equal. apply IH.
        apply starts_with_length in Q. simpl in Q. lia.
      * cbn [app]. f_equal. apply IH. lia.
    + apply IH. lia.
Qed.

End SubFacts.

(** ** Dictionaries *)

Module DictFacts.
Import Dyn EqFacts.

Lemma lookup_none (V : Type) (k : str) (kv : list (str * V)) :
  lookup k kv = None <-> ~ In k (map fst kv).
Proof.
  induction kv as [|[k' v] kv IH]; cbn [lookup map fst In]; [tauto|].
  destruct (str_eqb k' k) eqn:E.
  - apply str_eqb_eq in E. split; [discriminate|tauto].
  - apply str_eqb_neq in E. rewrite IH. tauto.
Qed.

Lemma lookup_app (V : Type) (k : str) (a b : list (str * V)) :
  lookup k (a ++ b) =
  match lookup k a with Some v => Some v | None => lookup k b end.
Proof.
  induction a as [|[k' v] a IH]; cbn [lookup app]; [reflexivity|].
  now destruct (str_eqb k' k).
Qed.

End DictFacts.

(** ** Unmasking *)

Module UnmaskFacts.
Import Re Shape DataMasker SubFacts.

Lemma unmask_ok (s : str) (mapping : Mapping) (r : str) :
  unmask s mapping = Ok r <->
  unmask_loop mapping s (sorted_reverse len (map fst mapping)) = Ok r.
Proof.
  unfold unmask.
  destruct (unmask_loop mapping s _); cbn [reraise_as];
    split; congruence.
Qed.

Lemma sub_escaped_ok (tk v s r : str) :
  tk <> [] -> sub_escaped tk v s = Ok r ->
  exists x, expand_template v tk = Ok x /\ r = sub_from tk x 0 s.
Proof.
  unfold sub_escaped. intros Hne.
  destruct (expand_template v tk) as [x|]; cbn [bind]; [|discriminate].
  destruct tk; [congruence|]. intros H. injection H as <-. now exists x.
Qed.

(** The loop on a text around a bracketed string that no processed key
    equals. *)
Lemma unmask_loop_around (mapping : Mapping) (u : str) (toks : list str) :
  bracketed u ->
  Forall (fun tk => bracketed tk /\ tk <> u) toks ->
  forall pre post r,
    unmask_loop mapping (pre ++ u ++ post) toks = Ok r ->
    exists pre' post',
      r = pre' ++ u ++ post' /\
      unmask_loop mapping pre toks = Ok pre' /\
      unmask_loop mapping post toks = Ok post'.
Proof.
  intros Hu. induction 1 as [|tk toks [Htk Hne] _ IH]; intros pre post r.
  - cbn [unmask_loop]. intros H. injection H as <-. now exists pre, post.
  - cbn [unmask_loop].
    destruct (getitem mapping tk) as [v|]; cbn [bind]; [|discriminate].
    destruct (sub_escaped tk v (pre ++ u ++ post)) as [s|] eqn:S;
      cbn [bind]; [|discriminate].
    apply sub_escaped_ok in S; [|now apply bracketed_nonempty].
    destruct S as (x & Hx & ->).
    rewrite sub_from_around by (auto; lia).
    intros H. destruct (IH _ _ _ H) as (pre' & post' & -> & H1 & H2).
    exists pre', post'. split; [reflexivity|].
    unfold sub_escaped. rewrite Hx. cbn [bind].
    destruct tk; [now apply bracketed_nonempty in Htk|]. auto.
Qed.

End UnmaskFacts.

(** C7, as amended.  When every key of the mapping has the token shape
    [<RG:X:Y>] with [X] and [Y] free of angle brackets, a substring of
    that same shape that is not a key is left where it is: unmasking the
    text is unmasking what precedes the substring and what follows it. *)
Theorem unmask_keeps_unknown_token
        (mapping : DataMasker.Mapping) (pre u post r : str) :
  Forall (fun kv => Shape.is_token (fst kv)) mapping ->
  Shape.is_token u ->
  Dyn.lookup u mapping = None ->
  DataMasker.unmask (pre ++ u ++ post) mapping = Ok r ->
  exists pre' post',
    r = pre' ++ u ++ post' /\
    DataMasker.unmask pre mapping = Ok pre' /\
    DataMasker.unmask post mapping = Ok post'.
Proof.
  intros Hkeys Hu Hl H. apply UnmaskFacts.unmask_ok in H.
  apply UnmaskFacts.unmask_loop_around in H.
  - destruct H as (pre' & post' & -> & H1 & H2).
    exists pre', post'. now rewrite !UnmaskFacts.unmask_ok.
  - now apply SubFacts.is_token_bracketed.
  - apply Forall_forall. intros tk Htk.
    rewrite <- (sorted_reverse_perm len (map fst mapping)) in Htk.
    split.
    + apply in_map_iff in Htk. destruct Htk as (kv & <- & Hkv).
      rewrite Forall_forall in Hkeys.
      apply SubFacts.is_token_bracketed, Hkeys, Hkv.
    + apply DictFacts.lookup_none in Hl. congruence.
Qed.

(** ** The mapping built by [mask] *)

Module MappingFacts.
Import Dyn Shape DataMasker DictFacts EqFacts.

Lemma mask_step_ok (salt : str) (s : str) (mp : Mapping) (e : Entity)
      (s' : str) (mp' : Mapping) :
  mask_step salt (s, mp) e = Ok (s', mp') ->
  exists tk,
    _token salt (label e) (text e) = Ok tk /\
    s' = slice_to s (start e) ++ tk ++ slice_from s (end_ e) /\
    mp' = (if negb (contains mp tk) then mp ++ [(tk, text e)] else mp).
Proof.
  unfold mask_step.
  destruct (_token salt (label e) (text e)) as [tk|]; cbn [bind]; [|discriminate].
  intros H. injection H as <- <-. now exists tk.
Qed.

Lemma mask_loop_cons (salt : str) (st : str * Mapping) (e : Entity)
      (es : list Entity) (st'' : str * Mapping) :
  mask_loop salt st (e :: es) = Ok st'' ->
  exists st', mask_step salt st e = Ok st' /\ mask_loop salt st' es = Ok st''.
Proof.
  cbn [mask_loop]. destruct (mask_step salt st e) as [st'|]; cbn [bind];
    [|discriminate].
  intros H. now exists st'.
Qed.

(** After the loop a token maps to what it mapped to before, or else to
    the text of the first entity of the loop that produces it. *)
Lemma mask_loop_lookup (salt : str) (es : list Entity) :
  forall s mp s' mp',
    mask_loop salt (s, mp) es = Ok (s', mp') ->
    forall tk,
      lookup tk mp' =
      match lookup tk mp with
      | Some v => Some v
      | None => option_map text (find (produces salt tk) es)
      end.
Proof.
  induction es as [|e es IH]; intros s mp s' mp' H tk.
  - cbn [mask_loop] in H. injection H as <- <-.
    now destruct (lookup tk mp).
  - apply mask_loop_cons in H. destruct H as ([s1 mp1] & Hstep & Hloop).
    apply mask_step_ok in Hstep. destruct Hstep as (t & Ht & _ & ->).
    rewrite (@IH _ _ _ _ Hloop tk). cbn [find]. unfold produces at 2.
    rewrite Ht. unfold contains.
    destruct (lookup t mp) as [v0|] eqn:L; cbn [negb].
    + destruct (lookup tk mp) as [v|] eqn:L'; [reflexivity|].
      destruct (str_eqb t tk) eqn:E; [|reflexivity].
      apply str_eqb_eq in E. congruence.
    + rewrite lookup_app. destruct (lookup tk mp); [reflexivity|].
      cbn [lookup]. now destruct (str_eqb t tk).
Qed.

Lemma mask_loop_nodup (salt : str) (es : list Entity) :
  forall s mp s' mp',
    mask_loop salt (s, mp) es = Ok (s', mp') ->
    NoDup (map fst mp) -> NoDup (map fst mp').
Proof.
  induction es as [|e es IH]; intros s mp s' mp' H Hn.
  - cbn [mask_loop] in H. now injection H as <- <-.
  - apply mask_loop_cons in H. destruct H as ([s1 mp1] & Hstep & Hloop).
    apply mask_step_ok in Hstep. destruct Hstep as (t & Ht & _ & ->).
    apply (@IH _ _ _ _ Hloop). unfold contains.
    destruct (lookup t mp) eqn:L; cbn [negb]; [exact Hn|].
    apply lookup_none in L. rewrite map_app. cbn [map fst].
    apply NoDup_app; [exact Hn|repeat constructor; intros []|].
    intros x Hx [<-|[]]. contradiction.
Qed.

Lemma mask_ok (lib : PyLib) (self : t) (source : str) (masked : str)
      (mapping : Mapping) (entities : list Entity) (self' : t) :
  mask lib self source = (Ok (masked, mapping, entities), self') ->
  exists extracted,
    extract_entities lib (ner self) source = Ok extracted /\
    entities = sorted_reverse start extracted /\
    mask_loop (salt self) (source, []) entities = Ok (masked, mapping) /\
    self' = mk (salt self) (ner self) entities.
Proof.
  unfold mask.
  destruct (extract_entities lib (ner self) source) as [extracted|] eqn:X;
    [|discriminate].
  cbn [salt].
  destruct (mask_loop (salt self) (source, []) (sorted_reverse start extracted))
    as [[m mp]|] eqn:L; [|discriminate].
  intros H. injection H as <- <- <- <-. exists extracted. auto.
Qed.

Lemma find_some_in (A : Type) (f : A -> bool) (l : list A) :
  find f l <> None <-> exists x, In x l /\ f x = true.
Proof.
  split.
  - destruct (find f l) as [x|] eqn:F; [|congruence].
    intros _. apply find_some in F. now exists x.
  - intros (x & Hx & Hf) F.
    now rewrite (find_none _ _ F x Hx) in Hf.
Qed.

Lemma produces_iff (salt tk : str) (e : Entity) :
  produces salt tk e = true <-> _token salt (label e) (text e) = Ok tk.
Proof.
  unfold produces. destruct (_token salt (label e) (text e)) as [t|].
  - rewrite str_eqb_eq. split; congruence.
  - split; discriminate.
Qed.

End MappingFacts.

(** C8. In the mapping returned by one [mask] call every token maps to
    the text of the first processed entity that produces it, the keys are
    exactly the tokens of the processed entities, and no key is repeated.
    So when two processed entities produce the same token the recorded
    value is the one of the entity processed first. *)
Theorem mapping_first_write_wins
        (lib : Dyn.PyLib) (self self' : DataMasker.t) (source masked : str)
        (mapping : DataMasker.Mapping) (entities : list Entity) :
  DataMasker.mask lib self source = (Ok (masked, mapping, entities), self') ->
  (forall tk,
     Dyn.lookup tk mapping =
     option_map text (find (Shape.produces (DataMasker.salt self) tk) entities)) /\
  (forall tk,
     In tk (map fst mapping) <->
     exists e, In e entities /\
               DataMasker._token (DataMasker.salt self) (label e) (text e) = Ok tk) /\
  NoDup (map fst mapping) /\
  (forall before e1 between e2 after tk,
     entities = before ++ e1 :: between ++ e2 :: after ->
     DataMasker._token (DataMasker.salt self) (label e1) (text e1) = Ok tk ->
     DataMasker._token (DataMasker.salt self) (label e2) (text e2) = Ok tk ->
     (forall e, In e before ->
        DataMasker._token (DataMasker.salt self) (label e) (text e) <> Ok tk) ->
     Dyn.lookup tk mapping = Some (text e1)).
Proof.
  intros H. apply MappingFacts.mask_ok in H.
  destruct H as (extracted & _ & _ & Hloop & _).
  assert (L : forall tk,
     Dyn.lookup tk mapping =
     option_map text (find (Shape.produces (DataMasker.salt self) tk) entities)).
  { intros tk. now rewrite (@MappingFacts.mask_loop_lookup _ _ _ _ _ _ Hloop tk). }
  split; [exact L|]. split; [|split].
  - intros tk.
    assert (E : In tk (map fst mapping) <-> Dyn.lookup tk mapping <> None).
    { rewrite DictFacts.lookup_none.
      destruct (in_dec (list_eq_dec N.eq_dec) tk (map fst mapping)); tauto. }
    rewrite E, L.
    assert (F : option_map text
                  (find (Shape.produces (DataMasker.salt self) tk) entities)
                <> None <->
                find (Shape.produces (DataMasker.salt self) tk) entities <> None).
    { destruct (find _ entities); cbn [option_map]; split; congruence. }
    rewrite F, MappingFacts.find_some_in.
    split; intros (e & He & Hp); exists e; split; auto;
      now apply MappingFacts.produces_iff.
  - apply (@MappingFacts.mask_loop_nodup _ _ _ _ _ _ Hloop). constructor.
  - intros before e1 between e2 after tk -> H1 H2 Hb. rewrite L.
    assert (F : find (Shape.produces (DataMasker.salt self) tk)
                     (before ++ e1 :: between ++ e2 :: after) = Some e1).
    { clear -H1 Hb. induction before as [|e before IH]; cbn [app find].
      - apply MappingFacts.produces_iff in H1. now rewrite H1.
      - destruct (Shape.produces (DataMasker.salt self) tk e) eqn:P.
        + apply MappingFacts.produces_iff in P.
          exfalso. apply (Hb e); [now left|exact P].
        + apply IH. intros x Hx. apply Hb. now right. }
    now rewrite F.
Qed.

(** ** Failure of a [mask] call *)

Module FailureFacts.
Import DataMasker.

Lemma hybrid_no_fallback (lib : Dyn.PyLib) (h : HybridNER.t) (l : LLMNER.t)
      (source : str) (e : exn) :
  HybridNER.llm_ner h = Some l ->
  LLMNER.extract_entities lib l source = Raise e ->
  HybridNER.extract_entities lib h source = Raise e.
Proof.
  intros Hl He. unfold HybridNER.extract_entities. now rewrite Hl, He.
Qed.

End FailureFacts.

(** C6, as amended.  [mask] either returns the masked text, the mapping
    and the entities, extraction and every substitution having
    succeeded, or raises [MaskingError] and returns nothing.  It raises
    when extraction raises, and then leaves the instance as it was; in
    particular a failure of the delegated extractor of a hybrid
    recogniser fails the call whatever the pattern extractor found.  It
    raises when a substitution raises, and then the last-entities slot
    holds the sorted entities of the failed call. *)
Theorem mask_failure_aborts (lib : Dyn.PyLib) (self : DataMasker.t)
        (source : str) :
  (forall e,
     DataMasker.extract_entities lib (DataMasker.ner self) source = Raise e ->
     DataMasker.mask lib self source = (Raise MaskingError, self)) /\
  (forall extracted e,
     DataMasker.extract_entities lib (DataMasker.ner self) source = Ok extracted ->
     DataMasker.mask_loop (DataMasker.salt self) (source, [])
       (sorted_reverse start extracted) = Raise e ->
     DataMasker.mask lib self source =
       (Raise MaskingError,
        DataMasker.mk (DataMasker.salt self) (DataMasker.ner self)
                      (sorted_reverse start extracted))) /\
  (forall h l e,
     DataMasker.ner self = DataMasker.Hybrid h ->
     HybridNER.llm_ner h = Some l ->
     LLMNER.extract_entities lib l source = Raise e ->
     DataMasker.mask lib self source = (Raise MaskingError, self)) /\
  (forall r self',
     DataMasker.mask lib self source = (r, self') ->
     r = Raise MaskingError \/
     exists masked mapping extracted,
       r = Ok (masked, mapping, sorted_reverse start extracted) /\
       DataMasker.extract_entities lib (DataMasker.ner self) source
         = Ok extracted /\
       DataMasker.mask_loop (DataMasker.salt self) (source, [])
         (sorted_reverse start extracted) = Ok (masked, mapping)).
Proof.
  split; [|split; [|split]].
  - intros e H. unfold DataMasker.mask. now rewrite H.
  - intros extracted e H L. unfold DataMasker.mask. rewrite H.
    cbn [DataMasker.salt]. now rewrite L.
  - intros h l e Hn Hl He. unfold DataMasker.mask, DataMasker.extract_entities.
    rewrite Hn, (FailureFacts.hybrid_no_fallback _ _ _ Hl He). reflexivity.
  - intros r self'. unfold DataMasker.mask.
    destruct (DataMasker.extract_entities lib (DataMasker.ner self) source)
      as [extracted|] eqn:X; [|intros H; injection H as <- _; now left].
    cbn [DataMasker.salt].
    destruct (DataMasker.mask_loop (DataMasker.salt self) (source, [])
                (sorted_reverse start extracted)) as [[m mp]|] eqn:L;
      intros H; injection H as <- _; [right|now left].
    exists m, mp, extracted. auto.
Qed.

Lemma mask_failure_aborts_witness :
  DataMasker.mask Examples.lib_reject Examples.failing_hybrid
                  Examples.colliding_text
  = (Raise MaskingError, Examples.failing_hybrid).
Proof.
  apply (proj1 (proj2 (proj2 (mask_failure_aborts Examples.lib_reject
                 Examples.failing_hybrid Examples.colliding_text)))
         _ _ NERError eq_refl eq_refl).
  vm_compute. reflexivity.
Defined.

(** The slot for the last entities shows the entities of a call that
    failed during substitution: the reply labels a correct candidate
    with a number, the hash of that label raises, the call raises
    [MaskingError], and [get_last_entities] no longer returns what it
    returned before the call. *)
Lemma failed_mask_is_observable :
  fst (DataMasker.mask Examples.numbered_lib Examples.numbered_masker (lit "Bob"))
    = Raise MaskingError /\
  DataMasker.get_last_entities Examples.numbered_masker = [] /\
  DataMasker.get_last_entities
    (snd (DataMasker.mask Examples.numbered_lib Examples.numbered_masker
                          (lit "Bob")))
    = [mkEntity (lit "Bob") (PyInt 5) 0 3 (FFin (9 # 10))].
Proof. vm_compute. repeat split. Qed.

(** ** Round trip *)

Module LayoutFacts.
Import Shape Layout DataMasker.

Lemma slice_to_app (P Q : str) : slice_to (P ++ Q) (Z.of_nat (length P)) = P.
Proof.
  unfold slice_to, norm_index, len.
  destruct (Z.ltb_spec (Z.of_nat (length P)) 0); [lia|].
  rewrite length_app.
  replace (Z.to_nat (Z.min (Z.of_nat (length P))
                           (Z.of_nat (length P + length Q))))
    with (length P + 0)%nat by lia.
  rewrite firstn_app_2. cbn [firstn]. apply app_nil_r.
Qed.

Lemma slice_from_app (P Q : str) :
  slice_from (P ++ Q) (Z.of_nat (length P)) = Q.
Proof.
  unfold slice_from, norm_index, len.
  destruct (Z.ltb_spec (Z.of_nat (length P)) 0); [lia|].
  rewrite length_app.
  replace (Z.to_nat (Z.min (Z.of_nat (length P))
                           (Z.of_nat (length P + length Q))))
    with (length P) by lia.
  rewrite skipn_app, skipn_all, Nat.sub_diag. reflexivity.
Qed.

(** What [well_formed] says, in natural numbers. *)
Lemma well_formed_nat (source : str) (e : Entity) :
  well_formed source e = true ->
  let s := Z.to_nat (start e) in
  let n := Z.to_nat (end_ e) in
  start e = Z.of_nat s /\ end_ e = Z.of_nat n /\
  (s < n <= length source)%nat /\
  text e = firstn (n - s) (skipn s source).
Proof.
  unfold well_formed, len. intros H.
  apply andb_true_iff in H. destruct H as [H Ht].
  apply andb_true_iff in H. destruct H as [H H3].
  apply andb_true_iff in H. destruct H as [H1 H2].
  apply Z.leb_le in H1, H3. apply Z.ltb_lt in H2.
  apply EqFacts.str_eqb_eq in Ht.
  cbv zeta. repeat split; try lia.
  rewrite Ht. unfold slice, norm_index, len.
  destruct (Z.ltb_spec (start e) 0); [lia|].
  destruct (Z.ltb_spec (end_ e) 0); [lia|].
  now rewrite !Z.min_l by lia.
Qed.

Lemma flat_app (f : Entity -> str) (ps qs : list piece) :
  flat f (ps ++ qs) = flat f ps ++ flat f qs.
Proof.
  induction ps as [|[g e] ps IH]; cbn [app flat]; [reflexivity|].
  now rewrite IH, !app_assoc.
Qed.

Lemma flat_ext (f f' : Entity -> str) (ps : list piece) :
  (forall e, In e (map snd ps) -> f e = f' e) -> flat f ps = flat f' ps.
Proof.
  induction ps as [|[g e] ps IH]; cbn [flat map snd In]; [reflexivity|].
  intros H. rewrite (H e) by now left. rewrite IH; [reflexivity|].
  intros x Hx. apply H. now right.
Qed.

Lemma positioned_app (off : nat) (ps qs : list piece) :
  positioned off (ps ++ qs) <->
  positioned off ps /\ positioned (off + length (flat text ps)) qs.
Proof.
  revert off. induction ps as [|[g e] ps IH]; intros off; cbn [app positioned flat].
  - cbn [length]. rewrite Nat.add_0_r. tauto.
  - rewrite IH, !length_app, !Nat.add_assoc. tauto.
Qed.

(** A text is the pieces of its entities followed by the rest. *)
Lemma layout_exists (source : str) (A : list Entity) :
  forall pos,
    ForallOrdPairs (fun a b => end_ a <= start b) A ->
    Forall (fun e => well_formed source e = true) A ->
    Forall (fun e => Z.of_nat pos <= start e) A ->
    (pos <= length source)%nat ->
    skipn pos source =
      flat text (pieces source pos A) ++ skipn (last_pos pos A) source /\
    positioned pos (pieces source pos A) /\
    map snd (pieces source pos A) = A.
Proof.
  induction A as [|e A IH]; intros pos Hc Hw Hp Hl.
  - cbn [pieces flat last_pos positioned map app]. auto.
  - inversion Hc as [|? ? Hce HcA]; subst.
    inversion Hw as [|? ? Hwe HwA]; subst.
    inversion Hp as [|? ? Hpe HpA]; subst.
    destruct (well_formed_nat _ _ Hwe) as (Es & Ee & Hb & Ht).
    set (s := Z.to_nat (start e)) in *. set (n := Z.to_nat (end_ e)) in *.
    destruct (IH n HcA HwA) as (I1 & I2 & I3).
    { eapply Forall_impl; [|exact Hce]. cbv beta. intros; lia. }
    { lia. }
    cbn [pieces flat last_pos positioned map snd]. fold s n.
    assert (Lg : length (firstn (s - pos) (skipn pos source)) = (s - pos)%nat).
    { rewrite length_firstn, length_skipn. lia. }
    assert (Lt : length (text e) = (n - s)%nat).
    { rewrite Ht, length_firstn, length_skipn. lia. }
    split; [|split].
    + rewrite <- !app_assoc, <- I1.
      rewrite <- (firstn_skipn (s - pos) (skipn pos source)) at 1.
      f_equal. rewrite skipn_skipn.
      replace (s - pos + pos)%nat with s by lia.
      rewrite <- (firstn_skipn (n - s) (skipn s source)) at 1.
      rewrite <- Ht. f_equal. rewrite skipn_skipn. f_equal. lia.
    + rewrite Lg, Lt.
      replace (pos + (s - pos))%nat with s by lia.
      replace (s + (n - s))%nat with n by lia. auto.
    + now rewrite I3.
Qed.

(** The substitution loop, run on the entities from the last to the
    first, turns each text into its token. *)
Lemma mask_loop_flat (salt : str) (ps : list piece) :
  forall R mp,
    positioned 0 ps ->
    (forall e, In e (map snd ps) ->
               _token salt (label e) (text e) = Ok (token_of salt e)) ->
    exists mp',
      mask_loop salt (flat text ps ++ R, mp) (rev (map snd ps))
      = Ok (flat (token_of salt) ps ++ R, mp').
Proof.
  induction ps as [|[g e] ps IH] using rev_ind; intros R mp Hp Ht.
  - cbn [map rev mask_loop flat app]. now exists mp.
  - rewrite map_app, rev_app_distr. cbn [map snd rev app mask_loop].
    apply positioned_app in Hp. destruct Hp as [Hp1 Hp2].
    cbn [positioned] in Hp2. destruct Hp2 as (Es & Ee & _).
    unfold mask_step. rewrite (Ht e).
    2:{ rewrite map_app. apply in_or_app. right. now left. }
    cbn [bind].
    rewrite !flat_app. cbn [flat]. rewrite !app_nil_r.
    replace ((flat text ps ++ g ++ text e) ++ R)
      with ((flat text ps ++ g) ++ text e ++ R) by now rewrite <- !app_assoc.
    assert (E1 : start e = Z.of_nat (length (flat text ps ++ g))).
    { rewrite Es, length_app. reflexivity. }
    assert (E2 : end_ e = Z.of_nat (length ((flat text ps ++ g) ++ text e))).
    { rewrite Ee, !length_app. reflexivity. }
    assert (F : slice_from ((flat text ps ++ g) ++ text e ++ R) (end_ e) = R).
    { rewrite E2, (app_assoc (flat text ps ++ g) (text e) R).
      apply slice_from_app. }
    rewrite F, E1, slice_to_app.
    set (mp1 := if negb _ then _ else _).
    destruct (IH (g ++ token_of salt e ++ R) mp1 Hp1) as [mp' Hl].
    { intros x Hx. apply Ht. rewrite map_app. apply in_or_app. now left. }
    exists mp'. rewrite <- !app_assoc in *. exact Hl.
Qed.

End LayoutFacts.

Module RestoreFacts.
Import Re Shape Layout DataMasker SubFacts LayoutFacts.

Lemma occurs_false (k s : str) :
  occurs k s = false -> forall a b, s = a ++ b -> starts_with k b = false.
Proof.
  intros H a. revert s H. induction a as [|x a IH]; intros s H b ->.
  - cbn [app] in H. destruct b; cbn [occurs] in H;
      apply orb_false_iff in H; tauto.
  - cbn [app occurs] in H. apply orb_false_iff in H. destruct H as [_ H].
    now apply (@IH _ H).
Qed.

Lemma occurs_nowhere (k s : str) : occurs k s = false -> nowhere k s.
Proof.
  intros H a b c ->.
  destruct (starts_with k b) eqn:E; [|reflexivity].
  apply (starts_with_app _ _ c) in E.
  now rewrite (@occurs_false _ _ H a (b ++ c) eq_refl) in E.
Qed.

Lemma sub_from_nil (k r : str) (n : nat) : sub_from k r n [] = [].
Proof. reflexivity. Qed.

(** The scan copies a run in which the pattern starts nowhere, when the
    run ends the text or is followed by an opening angle bracket. *)
Lemma sub_from_plain_run (k r x y : str) :
  bracketed k ->
  (forall a b, x = a ++ b -> starts_with k b = false) ->
  y = [] \/ (exists y', y = 60%N :: y') ->
  sub_from k r 0 (x ++ y) = x ++ sub_from k r 0 y.
Proof.
  intros Hk Hx Hy. apply sub_from_copy. intros a b E Hb.
  destruct Hy as [->|[y' ->]].
  - rewrite app_nil_r. now apply (Hx a).
  - destruct (bracketed_tail Hk) as (kt & -> & Hkt).
    destruct b as [|d b]; [congruence|].
    specialize (Hx a (d :: b) E). cbn [app starts_with] in *.
    now rewrite starts_with_boundary.
Qed.

Lemma bracketed_head (t : str) : bracketed t -> exists t', t = 60%N :: t'.
Proof. intros (b & -> & _). now exists (b ++ [62%N]). Qed.

Section Step.
Variables (salt : str) (S : list str) (k v source : str).
Hypothesis Hk : bracketed k.
Hypothesis Habsent : nowhere k source.

  (** Replacing one token restores the entities that carry it and
      changes nothing else. *)
Lemma unmask_step (ps : list piece) :
    forall pre p tl,
      source = pre ++ p ++ flat text ps ++ tl ->
      (forall e, In e (map snd ps) ->
         bracketed (token_of salt e) /\ (token_of salt e = k -> text e = v)) ->
      sub_from k v 0 (p ++ flat (restored salt S) ps ++ tl)
      = p ++ flat (restored salt (k :: S)) ps ++ tl.
  Proof.
    induction ps as [|[g e] ps IH]; intros pre p tl Hs He.
    - cbn [flat app]. rewrite <- (app_nil_r (p ++ tl)) at 1.
      rewrite <- app_assoc, (app_assoc p tl []).
      rewrite sub_from_plain_run; [now rewrite sub_from_nil, app_nil_r|exact Hk| |now left].
      intros a b E. apply (Habsent (pre ++ a) b []).
      rewrite app_nil_r, Hs. cbn [flat app]. now rewrite E, <- !app_assoc.
    - cbn [flat]. destruct (He e) as [Hb Hv]; [now left|].
      assert (He' : forall x, In x (map snd ps) ->
                bracketed (token_of salt x) /\
                (token_of salt x = k -> text x = v)).
      { intros x Hx. apply He. now right. }
      unfold restored at 1 3. cbn [existsb].
      destruct (existsb (str_eqb (token_of salt e)) S) eqn:M.
      + rewrite orb_true_r.
        replace (p ++ (g ++ text e ++ flat (restored salt S) ps) ++ tl)
          with ((p ++ g ++ text e) ++ flat (restored salt S) ps ++ tl)
          by now rewrite <- !app_assoc.
        rewrite (IH pre (p ++ g ++ text e) tl).
        * now rewrite <- !app_assoc.
        * rewrite Hs. cbn [flat]. now rewrite <- !app_assoc.
        * exact He'.
      + rewrite orb_false_r.
        replace (p ++ (g ++ token_of salt e ++ flat (restored salt S) ps) ++ tl)
          with ((p ++ g) ++ token_of salt e
                ++ ([] ++ flat (restored salt S) ps ++ tl))
          by now rewrite <- !app_assoc.
        rewrite sub_from_plain_run; [|exact Hk| |].
        2:{ intros a b E. apply (Habsent (pre ++ a) b (text e ++ flat text ps ++ tl)).
            rewrite Hs. cbn [flat]. rewrite <- !app_assoc.
            f_equal. rewrite (app_assoc p g), E. now rewrite <- !app_assoc. }
        2:{ right. destruct (bracketed_head Hb) as [t' ->]. now eexists. }
        assert (I : sub_from k v 0 ([] ++ flat (restored salt S) ps ++ tl)
                    = [] ++ flat (restored salt (k :: S)) ps ++ tl).
        { apply (IH (pre ++ p ++ g ++ text e) [] tl); [|exact He'].
          rewrite Hs. cbn [flat app]. now rewrite <- !app_assoc. }
        destruct (str_eqb (token_of salt e) k) eqn:Q.
        * apply EqFacts.str_eqb_eq in Q. rewrite Q.
          rewrite sub_from_match by now apply bracketed_nonempty.
          rewrite I, (Hv Q). cbn [app]. now rewrite <- !app_assoc.
        * apply EqFacts.str_eqb_neq in Q.
          rewrite sub_from_other by (auto; congruence).
          rewrite I. cbn [app]. now rewrite <- !app_assoc.
  Qed.
End Step.

Lemma unmask_loop_restores (salt : str) (mapping : Mapping) (source : str)
      (ps : list piece) (tl : str) :
  source = flat text ps ++ tl ->
  (forall e, In e (map snd ps) -> bracketed (token_of salt e)) ->
  forall ks S,
    NoDup ks ->
    (forall k, In k ks ->
       existsb (str_eqb k) S = false /\ key_ok salt mapping source ps k) ->
    unmask_loop mapping (flat (restored salt S) ps ++ tl) ks
    = Ok (flat (restored salt (rev ks ++ S)) ps ++ tl).
Proof.
  intros Hs Hb. induction ks as [|k ks IH]; intros S Hn Hk.
  - reflexivity.
  - apply NoDup_cons_iff in Hn. destruct Hn as [Hnk Hn'].
    destruct (Hk k) as (HkS & v & Hl & Hv & Hbk & Ha & Hkv); [now left|].
    cbn [unmask_loop]. unfold getitem. rewrite Hl. cbn [bind].
    unfold sub_escaped, expand_template. rewrite Hv. cbn [bind].
    destruct k as [|c k']; [now apply bracketed_nonempty in Hbk|].
    pose proof (@unmask_step salt S (c :: k') v source Hbk Ha ps [] [] tl) as Q.
    cbn [app] in Q. rewrite Q; [|exact Hs|].
    2:{ intros e He. split; [now apply Hb|now apply Hkv]. }
    rewrite IH; [|exact Hn'|].
    + cbn [rev]. now rewrite <- app_assoc.
    + intros k2 H2. destruct (Hk k2) as [H3 H4]; [now right|].
      split; [|exact H4]. cbn [existsb]. rewrite H3, orb_false_r.
      apply EqFacts.str_eqb_neq. intros ->. contradiction.
Qed.

End RestoreFacts.

Module RoundTripFacts.
Import Re Shape Layout DataMasker SubFacts LayoutFacts RestoreFacts.

Lemma pairs_rev (A : Type) (R : A -> A -> Prop) (l : list A) :
  ForallOrdPairs R l -> ForallOrdPairs (fun a b => R b a) (rev l).
Proof.
  induction 1 as [|x l Hx Hl IH]; cbn [rev]; [constructor|].
  apply pairs_app. split; [exact IH|]. split; [repeat constructor|].
  apply Forall_forall. intros y Hy. constructor; [|constructor].
  rewrite Forall_forall in Hx. apply Hx. now apply in_rev.
Qed.

(** Entities sorted by descending start, pairwise disjoint and not
    empty, lie one wholly before the other. *)
Lemma descending_chain (D : list Entity) :
  StronglySorted (fun a b => start b <= start a) D ->
  ForallOrdPairs disjoint D ->
  Forall (fun e => start e < end_ e) D ->
  ForallOrdPairs (fun a b => end_ b <= start a) D.
Proof.
  induction 1 as [|a D Hs IH Ha]; intros Hd Hw; [constructor|].
  inversion Hd as [|? ? Hda HdD]; subst.
  inversion Hw as [|? ? Hwa HwD]; subst.
  constructor; [|now apply IH].
  rewrite Forall_forall in *. intros b Hb.
  specialize (Ha b Hb). specialize (Hda b Hb). specialize (HwD b Hb).
  unfold disjoint, HybridNER._is_overlap in Hda.
  apply negb_false_iff, orb_true_iff in Hda. lia.
Qed.

Lemma lower_alnum_no_angle (h : str) :
  forallb is_lower_alnum h = true -> no_angle h = true.
Proof.
  unfold no_angle. intros H. apply forallb_forall. intros c Hc.
  rewrite forallb_forall in H. specialize (H c Hc).
  unfold is_lower_alnum, char_eqb in *.
  destruct (N.eqb_spec c 60); [subst; discriminate|].
  destruct (N.eqb_spec c 62); [subst; discriminate|]. reflexivity.
Qed.

(** The token of a plain entity. *)
Lemma plain_token (salt : str) (e : Entity) :
  plain salt e = true ->
  _token salt (label e) (text e) = Ok (token_of salt e) /\
  is_token (token_of salt e) /\
  has_backslash (text e) = false.
Proof.
  unfold plain, token_of. destruct (label e) as [| | | | l | |]; try discriminate.
  intros H. apply andb_true_iff in H. destruct H as [H Hb].
  apply andb_true_iff in H. destruct H as [Hl He].
  apply negb_true_iff in Hb.
  destruct (TokenFacts.token_produced salt l (text e) He)
    as (h & -> & Hh8 & Hh).
  repeat split; [|exact Hb].
  exists l, h. repeat split; [exact Hl|now apply lower_alnum_no_angle].
Qed.

Lemma sorted_reverse_in (l : list Entity) (e : Entity) :
  In e (sorted_reverse start l) <-> In e l.
Proof.
  split; apply Permutation_in;
    [symmetry|]; apply sorted_reverse_perm.
Qed.

End RoundTripFacts.

(** C1, as amended.  Let the extractor return, for a text, entities that
    are pairwise non-overlapping and satisfy the entity invariant
    ([0 <= start < end <= len(text)], text field equal to
    [text[start:end]]), whose labels are strings without angle
    brackets, whose values hold no backslash, and such that the strings
    hashed can be encoded, no two different values share a token, and no
    token occurs in the text.  Then [mask] returns, and [unmask] applied
    to the masked text and the mapping it returned yields the original
    text. *)
Theorem mask_unmask_round_trip (lib : Dyn.PyLib) (self : DataMasker.t)
        (source : str) (entities : list Entity) :
  DataMasker.extract_entities lib (DataMasker.ner self) source = Ok entities ->
  ForallOrdPairs (fun a b => HybridNER._is_overlap a b = false) entities ->
  forallb (Shape.well_formed source) entities = true ->
  forallb (Shape.plain (DataMasker.salt self)) entities = true ->
  Shape.collision_free (DataMasker.salt self) entities = true ->
  Shape.tokens_absent (DataMasker.salt self) source entities = true ->
  exists masked mapping self',
    DataMasker.mask lib self source =
      (Ok (masked, mapping, sorted_reverse start entities), self') /\
    DataMasker.unmask masked mapping = Ok source.
Proof.
  intros Hext Hdis Hwf Hplain Hcol Habs.
  set (salt := DataMasker.salt self) in *.
  set (D := sorted_reverse start entities).
  assert (HinD : forall e, In e D -> In e entities)
    by (intros e; apply RoundTripFacts.sorted_reverse_in).
  rewrite forallb_forall in Hwf, Hplain.
  assert (Htok : forall e, In e D ->
            DataMasker._token salt (label e) (text e) = Ok (Shape.token_of salt e) /\
            Shape.bracketed (Shape.token_of salt e) /\
            Re.has_backslash (text e) = false).
  { intros e He. destruct (RoundTripFacts.plain_token salt e) as (H1 & H2 & H3);
      [apply Hplain, HinD, He|].
    repeat split; auto. now apply SubFacts.is_token_bracketed. }
  assert (Hsame : forall a b, In a D -> In b D ->
            Shape.token_of salt a = Shape.token_of salt b -> text a = text b).
  { intros a b Ha Hb E. unfold Shape.collision_free in Hcol.
    rewrite forallb_forall in Hcol. specialize (Hcol a (HinD a Ha)).
    rewrite forallb_forall in Hcol. specialize (Hcol b (HinD b Hb)).
    rewrite E, EqFacts.str_eqb_refl in Hcol. cbn [implb] in Hcol.
    now apply EqFacts.str_eqb_eq. }
  assert (Hnow : forall e, In e D -> Shape.nowhere (Shape.token_of salt e) source).
  { intros e He. apply RestoreFacts.occurs_nowhere.
    unfold Shape.tokens_absent in Habs. rewrite forallb_forall in Habs.
    apply negb_true_iff, Habs, HinD, He. }
  (* the layout of the text *)
  assert (Hchain : ForallOrdPairs (fun a b => end_ a <= start b) (rev D)).
  { apply (RoundTripFacts.pairs_rev (R := fun a b => end_ b <= start a)).
    apply RoundTripFacts.descending_chain.
    - apply sorted_reverse_sorted.
    - apply pairs_sorted_reverse; [exact MergeFacts.disjoint_sym|exact Hdis].
    - apply Forall_forall. intros e He.
      destruct (LayoutFacts.well_formed_nat _ _ (Hwf e (HinD e He)))
        as (E1 & E2 & Hb & _). lia. }
  destruct (@LayoutFacts.layout_exists source (rev D) 0%nat Hchain)
    as (Hsrc & Hpos & Hsnd).
  { apply Forall_forall. intros e He. apply in_rev in He.
    apply Hwf, HinD, He. }
  { apply Forall_forall. intros e He. apply in_rev in He.
    destruct (LayoutFacts.well_formed_nat _ _ (Hwf e (HinD e He)))
      as (E1 & _). lia. }
  { lia. }
  cbn [skipn] in Hsrc.
  set (ps := Layout.pieces source 0 (rev D)) in *.
  set (tl := skipn (Layout.last_pos 0 (rev D)) source) in *.
  assert (HinP : forall e, In e (map snd ps) <-> In e D).
  { intros e. rewrite Hsnd. symmetry. apply in_rev. }
  (* masking *)
  destruct (@LayoutFacts.mask_loop_flat salt ps tl [] Hpos) as [mapping Hloop].
  { intros e He. apply Htok, HinP, He. }
  rewrite Hsnd, rev_involutive, <- Hsrc in Hloop.
  exists (Layout.flat (Shape.token_of salt) ps ++ tl), mapping,
         (DataMasker.mk salt (DataMasker.ner self) D).
  split.
  { unfold DataMasker.mask. rewrite Hext. cbn [DataMasker.salt].
    match goal with
    | |- match ?x with _ => _ end = _ =>
        replace x with (Ok (Layout.flat (Shape.token_of salt) ps ++ tl, mapping))
          by (symmetry; exact Hloop)
    end.
    reflexivity. }
  (* unmasking *)
  pose proof (@MappingFacts.mask_loop_lookup _ _ _ _ _ _ Hloop) as Hlook.
  cbn [Dyn.lookup] in Hlook.
  assert (Hnd : NoDup (map fst mapping)).
  { apply (@MappingFacts.mask_loop_nodup _ _ _ _ _ _ Hloop). constructor. }
  set (ks := sorted_reverse len (map fst mapping)).
  assert (Hks : forall k, In k ks <-> In k (map fst mapping)).
  { intros k. split; apply Permutation_in;
      [symmetry|]; apply sorted_reverse_perm. }
  assert (Hkey : forall k, In k ks ->
            exists e0, In e0 D /\ Shape.token_of salt e0 = k /\
                       Dyn.lookup k mapping = Some (text e0)).
  { intros k Hk. apply Hks in Hk.
    destruct (Dyn.lookup k mapping) as [v|] eqn:L.
    2:{ apply DictFacts.lookup_none in L. contradiction. }
    rewrite Hlook in L.
    destruct (find (Shape.produces salt k) D) as [e0|] eqn:F; [|discriminate].
    apply find_some in F. destruct F as [F1 F2].
    apply MappingFacts.produces_iff in F2.
    exists e0. cbn [option_map] in L. injection L as <-.
    repeat split; auto.
    destruct (Htok e0 F1) as (H1 & _). congruence. }
  apply UnmaskFacts.unmask_ok. fold ks.
  change (Layout.flat (Shape.token_of salt) ps)
    with (Layout.flat (Layout.restored salt []) ps).
  rewrite (@RestoreFacts.unmask_loop_restores salt mapping source ps tl Hsrc).
  - f_equal. etransitivity; [|symmetry; exact Hsrc].
    f_equal. apply LayoutFacts.flat_ext.
    intros e He. apply HinP in He. unfold Layout.restored.
    assert (M : existsb (str_eqb (Shape.token_of salt e)) (rev ks ++ []) = true).
    { apply existsb_exists. exists (Shape.token_of salt e).
      split; [|apply EqFacts.str_eqb_refl].
      rewrite app_nil_r. apply -> in_rev. apply Hks.
      destruct (in_dec (list_eq_dec N.eq_dec) (Shape.token_of salt e)
                       (map fst mapping)) as [I|I]; [exact I|].
      apply DictFacts.lookup_none in I. rewrite Hlook in I.
      destruct (find (Shape.produces salt (Shape.token_of salt e)) D) eqn:F;
        [discriminate|].
      pose proof (find_none _ _ F e He) as Q.
      destruct (Htok e He) as (H1 & _).
      apply MappingFacts.produces_iff in H1. congruence. }
    now rewrite M.
  - intros e He. apply Htok, HinP, He.
  - apply (Permutation_NoDup (sorted_reverse_perm len (map fst mapping))), Hnd.
  - intros k Hk. split; [reflexivity|].
    destruct (Hkey k Hk) as (e0 & H0 & Hk0 & Hl0).
    exists (text e0). destruct (Htok e0 H0) as (_ & Hb & Hbs).
    repeat split; auto.
    + now rewrite <- Hk0.
    + rewrite <- Hk0. now apply Hnow.
    + intros e He E. apply HinP in He. apply Hsame; auto. congruence.
Qed.

(** ** Instances and counterexamples *)


Lemma unparseable_reply_yields_empty_witness :
  LLMNER.extract_entities Examples.lib_reject Examples.prose_ner
                          Examples.people_text = Ok [].
Proof.
  apply (unparseable_reply_yields_empty Examples.lib_reject Examples.prose_ner
           Examples.people_text (reply := lit "I found no entities."));
    reflexivity.
Defined.

Lemma mapping_first_write_wins_witness :
  let e1 := mkEntity (lit "1001986883") (PyStr (lit "ACCT")) 11 21 (FFin 1) in
  let e2 := mkEntity (lit "1000987594") (PyStr (lit "ACCT")) 0 10 (FFin 1) in
  let tk := lit "<RG:ACCT:xmiv2rqd>" in
  DataMasker.mask Examples.lib_reject Examples.account_masker
                  Examples.colliding_text
  = (Ok (tk ++ lit " " ++ tk, [(tk, text e1)], [e1; e2]),
     DataMasker.mk (lit "s0000000")
                   (DataMasker.Regex Examples.account_ner) [e1; e2]) /\
  Dyn.lookup tk [(tk, text e1)] = Some (text e1).
Proof.
  intros e1 e2 tk.
  assert (H : DataMasker.mask Examples.lib_reject Examples.account_masker
                Examples.colliding_text
              = (Ok (tk ++ lit " " ++ tk, [(tk, text e1)], [e1; e2]),
                 DataMasker.mk (lit "s0000000")
                   (DataMasker.Regex Examples.account_ner) [e1; e2]))
    by (vm_compute; reflexivity).
  split; [exact H|].
  apply (proj2 (proj2 (proj2 (mapping_first_write_wins _ _ _ H)))
           [] e1 [] e2 [] tk eq_refl).
  - vm_compute. reflexivity.
  - vm_compute. reflexivity.
  - intros e [].
Defined.

Lemma unmask_keeps_unknown_token_witness :
  let known := lit "<RG:EMAIL:yls6vutv>" in
  let unknown := lit "<RG:PHONE:abcdefgh>" in
  exists pre' post',
    lit "Mail <RG:PHONE:abcdefgh> or a@b.com" = pre' ++ unknown ++ post' /\
    DataMasker.unmask (lit "Mail ") [(known, lit "a@b.com")] = Ok pre' /\
    DataMasker.unmask (lit " or " ++ known) [(known, lit "a@b.com")] = Ok post'.
Proof.
  intros known unknown.
  apply (@unmask_keeps_unknown_token
           [(known, lit "a@b.com")]
           (lit "Mail ") unknown (lit " or " ++ known)
           (lit "Mail <RG:PHONE:abcdefgh> or a@b.com")).
  - constructor; [|constructor].
    exists (lit "EMAIL"), (lit "yls6vutv"). repeat split.
  - exists (lit "PHONE"), (lit "abcdefgh"). repeat split.
  - reflexivity.
  - vm_compute. reflexivity.
Defined.

Lemma mask_unmask_round_trip_witness :
  let source := lit "Pay 12345 to 67890 now" in
  exists masked mapping self',
    DataMasker.mask Examples.lib_reject Examples.account_masker source =
      (Ok (masked, mapping,
           sorted_reverse start
             [mkEntity (lit "12345") (PyStr (lit "ACCT")) 4 9 (FFin 1);
              mkEntity (lit "67890") (PyStr (lit "ACCT")) 13 18 (FFin 1)]),
       self') /\
    DataMasker.unmask masked mapping = Ok source.
Proof.
  intros source.
  apply (mask_unmask_round_trip Examples.lib_reject Examples.account_masker
           source).
  - vm_compute. reflexivity.
  - repeat constructor.
  - vm_compute. reflexivity.
  - vm_compute. reflexivity.
  - vm_compute. reflexivity.
  - vm_compute. reflexivity.
Defined.


(** The round trip fails on two account numbers whose tokens coincide:
    the entities are disjoint and well formed, and both spans come back
    as the number that was processed first. *)
Lemma round_trip_counterexample :
  let e1 := mkEntity (lit "1001986883") (PyStr (lit "ACCT")) 11 21 (FFin 1) in
  let e2 := mkEntity (lit "1000987594") (PyStr (lit "ACCT")) 0 10 (FFin 1) in
  let tk := lit "<RG:ACCT:xmiv2rqd>" in
  DataMasker.extract_entities Examples.lib_reject
    (DataMasker.ner Examples.account_masker) Examples.colliding_text
    = Ok [e2; e1] /\
  ForallOrdPairs (fun a b => HybridNER._is_overlap a b = false) [e2; e1] /\
  forallb (Shape.well_formed Examples.colliding_text) [e2; e1] = true /\
  fst (DataMasker.mask Examples.lib_reject Examples.account_masker
                       Examples.colliding_text)
    = Ok (tk ++ lit " " ++ tk, [(tk, text e1)], [e1; e2]) /\
  DataMasker.unmask (tk ++ lit " " ++ tk) [(tk, text e1)]
    = Ok (lit "1001986883 1001986883") /\
  DataMasker.unmask (tk ++ lit " " ++ tk) [(tk, text e1)]
    <> Ok Examples.colliding_text.
Proof.
  vm_compute. repeat split; try discriminate. repeat constructor.
Qed.

(** A substring of token shape that is not a key is changed when a key
    occurs inside it: here the key has the exact shape of a token, and
    so has the text, whose label holds the key.  The same happens with a
    key that has no token shape at all. *)
Lemma unknown_token_counterexample :
  let key := lit "<RG:B:cccccccc>" in
  let token := lit "<RG:A<RG:B:cccccccc>:dddddddd>" in
  token = lit "<RG:" ++ lit "A<RG:B:cccccccc>" ++ lit ":" ++ lit "dddddddd"
          ++ lit ">" /\
  Dyn.lookup token [(key, lit "v")] = None /\
  DataMasker.unmask token [(key, lit "v")] = Ok (lit "<RG:Av:dddddddd>") /\
  Dyn.lookup (lit "<RG:A:bbbbbbbb>") [(lit "RG", lit "x")] = None /\
  DataMasker.unmask (lit "<RG:A:bbbbbbbb>") [(lit "RG", lit "x")]
    = Ok (lit "<x:A:bbbbbbbb>").
Proof. vm_compute. repeat split. Qed.

(** [re.sub] reads the restored value as a replacement template: a value
    with a backslash is not put back as it was. *)
Remark unmask_expands_escapes :
  let masker :=
    DataMasker.mk (lit "s0000000")
      (DataMasker.Regex
         (RegexNER.mk [(lit "PATH", Re.literal_pattern (lit "C:\new"))])) [] in
  let source := lit "open C:\new please" in
  exists masked mapping entities,
    fst (DataMasker.mask Examples.lib_reject masker source)
      = Ok (masked, mapping, entities) /\
    DataMasker.unmask masked mapping
      = Ok (lit "open C:" ++ [10%N] ++ lit "ew please").
Proof. vm_compute. do 3 eexists. split; reflexivity. Qed.

(** The scenario of the specification: one address, two salts. *)
Example scenario_email :
  let source := lit "Contact a@b.com now" in
  let tk := lit "<RG:EMAIL:yls6vutv>" in
  (exists entities,
     fst (DataMasker.mask Examples.lib_reject Examples.email_masker source)
     = Ok (lit "Contact <RG:EMAIL:yls6vutv> now", [(tk, lit "a@b.com")],
           entities)) /\
  DataMasker.unmask (lit "Contact <RG:EMAIL:yls6vutv> now")
                    [(tk, lit "a@b.com")] = Ok source /\
  DataMasker._token (lit "s1111111") (PyStr (lit "EMAIL")) (lit "a@b.com")
  <> Ok tk.
Proof.
  vm_compute. split; [eexists; reflexivity|]. split; [reflexivity|discriminate].
Qed.

(** * Further properties *)

(** ** The merge: what it keeps *)

Module MergeMore.
Import HybridNER Shape Span MergeFacts.

Lemma float_lt_asym (a b : pyfloat) :
  float_lt a b = true -> float_lt b a = false.
Proof.
  destruct a as [|[|]|p], b as [|[|]|q]; simpl; try congruence.
  rewrite <- (Qcompare_antisym p q).
  destruct (Qcompare p q); simpl; congruence.
Qed.

(** One step keeps every accepted entity and the candidate, but for at
    most one of them. *)
Lemma merge_step_perm (merged : list Entity) (e : Entity) :
  exists dropped, Permutation (merge_step merged e ++ dropped) (e :: merged).
Proof.
  unfold merge_step.
  destruct (first_overlap e 0 merged) as [[i ex]|] eqn:E.
  - apply first_overlap_some in E.
    destruct E as (l1 & l2 & -> & -> & _ & _). simpl.
    rewrite setitem_app.
    destruct (float_gt (confidence e) (confidence ex)).
    + exists [ex].
      transitivity (ex :: l1 ++ e :: l2);
        [apply Permutation_sym, Permutation_cons_append|].
      transitivity (ex :: e :: l1 ++ l2);
        [apply perm_skip, Permutation_sym, Permutation_middle|].
      transitivity (e :: ex :: l1 ++ l2); [apply perm_swap|].
      apply perm_skip, Permutation_middle.
    + exists [e]. apply Permutation_sym, Permutation_cons_append.
  - exists []. rewrite app_nil_r.
    apply Permutation_sym, Permutation_cons_append.
Qed.

Lemma merge_loop_perm (l : list Entity) :
  forall merged,
    exists dropped,
      Permutation (fold_left merge_step l merged ++ dropped) (merged ++ l).
Proof.
  induction l as [|x l IH]; intros merged; simpl.
  - exists []. reflexivity.
  - destruct (IH (merge_step merged x)) as [d' Hd'].
    destruct (merge_step_perm merged x) as [d0 Hd0].
    exists (d' ++ d0).
    rewrite app_assoc, Hd'.
    rewrite <- app_assoc, (Permutation_app_comm l d0), app_assoc, Hd0.
    simpl. apply Permutation_middle.
Qed.

Lemma merge_step_in (merged : list Entity) (e x : Entity) :
  In x (merge_step merged e) -> x = e \/ In x merged.
Proof.
  intros H. destruct (merge_step_perm merged e) as [d Hd].
  assert (Hin : In x (e :: merged)).
  { eapply Permutation_in; [exact Hd|]. apply in_or_app. now left. }
  destruct Hin; auto.
Qed.

Lemma merge_loop_in (l merged : list Entity) (x : Entity) :
  In x (fold_left merge_step l merged) -> In x (merged ++ l).
Proof.
  intros H. destruct (merge_loop_perm l merged) as [d Hd].
  eapply Permutation_in; [exact Hd|]. apply in_or_app. now left.
Qed.

Lemma merge_entities_perm (entities : list Entity) :
  exists dropped, Permutation (_merge_entities entities ++ dropped) entities.
Proof.
  destruct entities as [|e l]; [exists []; reflexivity|].
  unfold _merge_entities.
  destruct (merge_loop_perm (sorted start (e :: l)) []) as [d Hd].
  exists d. rewrite Hd, app_nil_l. symmetry. apply sorted_perm.
Qed.

Lemma merge_entities_in (entities : list Entity) (x : Entity) :
  In x (_merge_entities entities) -> In x entities.
Proof.
  intros H. destruct (merge_entities_perm entities) as [d Hd].
  eapply Permutation_in; [exact Hd|]. apply in_or_app. now left.
Qed.

Lemma merge_step_nonempty (merged : list Entity) (e : Entity) :
  merge_step merged e <> [].
Proof.
  unfold merge_step.
  destruct (first_overlap e 0 merged) as [[i ex]|] eqn:E.
  - apply first_overlap_some in E.
    destruct E as (l1 & l2 & -> & -> & _ & _). simpl.
    rewrite setitem_app.
    destruct (float_gt (confidence e) (confidence ex));
      intros H; now destruct l1.
  - intros H. now destruct merged.
Qed.

Lemma merge_loop_nonempty (l : list Entity) :
  forall merged, merged <> [] -> fold_left merge_step l merged <> [].
Proof.
  induction l as [|x l IH]; intros merged H; simpl; [exact H|].
  apply IH, merge_step_nonempty.
Qed.

(** An entity stays once it is accepted, as long as every later
    candidate that overlaps it has a strictly lower confidence. *)
Lemma merge_loop_keeps (e : Entity) (l : list Entity) :
  forall merged,
    In e merged ->
    (forall c, In c l -> _is_overlap c e = true ->
               float_lt (confidence c) (confidence e) = true) ->
    In e (fold_left merge_step l merged).
Proof.
  induction l as [|c l IH]; intros merged Hin Hl; simpl; [exact Hin|].
  apply IH; [|intros; apply Hl; [now right|assumption]].
  unfold merge_step.
  destruct (first_overlap c 0 merged) as [[i ex]|] eqn:E;
    [|apply in_or_app; now left].
  apply first_overlap_some in E.
  destruct E as (l1 & l2 & -> & -> & _ & Hov). simpl.
  destruct (float_gt (confidence c) (confidence ex)) eqn:G; [|exact Hin].
  rewrite setitem_app.
  apply in_app_or in Hin. apply in_or_app.
  destruct Hin as [Hin|[Hin|Hin]]; [now left| |right; now right].
  subst ex. exfalso.
  assert (Hlt : float_lt (confidence c) (confidence e) = true)
    by (apply Hl; [now left|exact Hov]).
  apply float_lt_asym in Hlt. unfold float_gt in G. congruence.
Qed.

Lemma merge_step_accepts (merged : list Entity) (e : Entity) :
  (forall ex, In ex merged -> _is_overlap e ex = true ->
              float_gt (confidence e) (confidence ex) = true) ->
  In e (merge_step merged e).
Proof.
  intros Hbest. unfold merge_step.
  destruct (first_overlap e 0 merged) as [[i ex]|] eqn:E;
    [|apply in_or_app; right; now left].
  apply first_overlap_some in E.
  destruct E as (l1 & l2 & -> & -> & _ & Hov). simpl.
  rewrite (Hbest ex), setitem_app; auto.
  - apply in_or_app. right. now left.
  - apply in_or_app. right. now left.
Qed.

Lemma merge_entities_keeps (before after : list Entity) (e : Entity) :
  (forall x, In x (before ++ after) -> _is_overlap x e = true ->
             float_lt (confidence x) (confidence e) = true) ->
  In e (_merge_entities (before ++ e :: after)).
Proof.
  intros Hbest.
  set (input := before ++ e :: after).
  assert (Hne : input <> []) by (subst input; now destruct before).
  assert (Hperm : Permutation input (sorted start input))
    by apply sorted_perm.
  assert (Hin : In e (sorted start input)).
  { eapply Permutation_in; [exact Hperm|].
    subst input. apply in_or_app. right. now left. }
  apply in_split in Hin. destruct Hin as (s1 & s2 & Hs).
  assert (Hrest : Permutation (before ++ after) (s1 ++ s2)).
  { subst input. rewrite Hs in Hperm.
    eapply Permutation_app_inv. exact Hperm. }
  assert (Hbest' : forall x, In x (s1 ++ s2) -> _is_overlap x e = true ->
                             float_lt (confidence x) (confidence e) = true).
  { intros x Hx. apply Hbest. eapply Permutation_in; [|exact Hx].
    now symmetry. }
  unfold _merge_entities. fold input.
  destruct input as [|i0 input']; [congruence|].
  rewrite Hs, fold_left_app. simpl.
  apply merge_loop_keeps.
  - apply merge_step_accepts. intros ex Hex Hov.
    unfold float_gt. apply Hbest'.
    + apply in_or_app. left. now apply (@merge_loop_in s1 [] ex).
    + now rewrite is_overlap_sym.
  - intros c Hc. apply Hbest'. apply in_or_app. now right.
Qed.

(** *** Spans that are not empty *)

Lemma is_overlap_false (a b : Entity) :
  _is_overlap a b = false <-> end_ a <= start b \/ end_ b <= start a.
Proof.
  unfold _is_overlap.
  rewrite negb_false_iff, orb_true_iff, !Z.leb_le. tauto.
Qed.

Lemma disjoint_before (x e : Entity) :
  proper e -> start x <= start e -> disjoint e x -> precedes x e.
Proof.
  unfold proper, precedes, disjoint. rewrite is_overlap_false. lia.
Qed.

Lemma chain_snoc (l : list Entity) (e : Entity) :
  ForallOrdPairs precedes l -> Forall (fun x => precedes x e) l ->
  ForallOrdPairs precedes (l ++ [e]).
Proof.
  intros Hl He. apply pairs_app. repeat split.
  - exact Hl.
  - repeat constructor.
  - eapply Forall_impl; [|exact He]. intros; now repeat constructor.
Qed.

Lemma merge_step_chain (merged : list Entity) (e : Entity) :
  proper e ->
  ForallOrdPairs precedes merged ->
  Forall (fun x => start x <= start e) merged ->
  ForallOrdPairs precedes (merge_step merged e).
Proof.
  intros He Hch Hle. unfold merge_step.
  destruct (first_overlap e 0 merged) as [[i ex]|] eqn:E.
  - apply first_overlap_some in E.
    destruct E as (l1 & l2 & -> & -> & Hd & Hov). simpl.
    destruct (float_gt (confidence e) (confidence ex)); [|exact Hch].
    rewrite setitem_app.
    assert (l2 = []) as ->.
    { destruct l2 as [|y l2]; [reflexivity|exfalso].
      apply pairs_app in Hch. destruct Hch as (_ & Hch & _).
      inversion Hch as [|? ? Hy _]; subst.
      inversion Hy as [|? ? Hy1 _]; subst.
      apply Forall_app in Hle. destruct Hle as [_ Hle].
      inversion Hle as [|? ? _ Hle']; subst.
      inversion Hle' as [|? ? Hyle _]; subst.
      unfold precedes in Hy1. unfold _is_overlap in Hov.
      rewrite negb_true_iff, orb_false_iff, !Z.leb_gt in Hov. lia. }
    apply chain_snoc.
    + apply pairs_app in Hch. tauto.
    + apply Forall_app in Hle. destruct Hle as [Hle _].
      rewrite Forall_forall in Hd, Hle. apply Forall_forall.
      intros x Hx. apply disjoint_before; auto.
  - apply first_overlap_none in E.
    apply chain_snoc; [exact Hch|].
    rewrite Forall_forall in E, Hle. apply Forall_forall.
    intros x Hx. apply disjoint_before; auto.
Qed.

Lemma merge_loop_chain (l : list Entity) :
  forall merged,
    Forall proper l ->
    StronglySorted (fun a b => start a <= start b) l ->
    ForallOrdPairs precedes merged ->
    Forall (fun x => Forall (fun y => start x <= start y) l) merged ->
    ForallOrdPairs precedes (fold_left merge_step l merged).
Proof.
  induction l as [|e l IH]; intros merged Hp Hs Hch Hle; simpl; [exact Hch|].
  inversion Hp as [|? ? He Hp']; subst.
  inversion Hs as [|? ? Hs' Hel]; subst.
  assert (Hle1 : Forall (fun x => start x <= start e) merged).
  { eapply Forall_impl; [|exact Hle]. intros x Hx. now inversion Hx. }
  apply IH; auto.
  - now apply merge_step_chain.
  - apply Forall_forall. intros x Hx.
    apply merge_step_in in Hx. destruct Hx as [->|Hx]; [exact Hel|].
    rewrite Forall_forall in Hle. specialize (Hle x Hx).
    now inversion Hle.
Qed.

Lemma merge_entities_chain (entities : list Entity) :
  Forall proper entities ->
  ForallOrdPairs precedes (_merge_entities entities).
Proof.
  intros Hp. destruct entities as [|e l]; [constructor|].
  unfold _merge_entities.
  apply merge_loop_chain.
  - apply Forall_forall. intros x Hx. rewrite Forall_forall in Hp.
    apply Hp. eapply Permutation_in; [|exact Hx].
    symmetry. apply sorted_perm.
  - apply sorted_sorted.
  - constructor.
  - constructor.
Qed.

Lemma pairs_impl (A : Type) (R S : A -> A -> Prop) (l : list A) :
  (forall a b, R a b -> S a b) -> ForallOrdPairs R l -> ForallOrdPairs S l.
Proof.
  intros H. induction 1 as [|x l Hx Hl IH]; constructor; auto.
  eapply Forall_impl; [|exact Hx]. auto.
Qed.

(** Sorting leaves a sorted list as it is. *)
Lemma sorted_fixpoint (A : Type) (key : A -> Z) (l : list A) :
  StronglySorted (fun a b => key a <= key b) l -> sorted key l = l.
Proof.
  induction 1 as [|x l Hs IH Hx]; [reflexivity|].
  simpl. rewrite IH. destruct l as [|y l]; [reflexivity|].
  simpl. inversion Hx as [|? ? Hxy _]; subst.
  destruct (key y <? key x) eqn:E; [|reflexivity].
  apply Z.ltb_lt in E. lia.
Qed.

Lemma chain_sorted (l : list Entity) :
  Forall proper l -> ForallOrdPairs precedes l ->
  StronglySorted (fun a b => start a < start b) l.
Proof.
  intros Hp Hch. induction Hch as [|x l Hx Hl IH]; [constructor|].
  inversion Hp as [|? ? Hpx Hp']; subst.
  constructor; [now apply IH|].
  eapply Forall_impl; [|exact Hx].
  unfold proper, precedes in *. intros; lia.
Qed.

Lemma merge_entities_fixpoint (l : list Entity) :
  Forall proper l -> ForallOrdPairs precedes l -> _merge_entities l = l.
Proof.
  intros Hp Hch. destruct l as [|e l]; [reflexivity|].
  unfold _merge_entities.
  rewrite sorted_fixpoint.
  - apply (@merge_loop_disjoint_input (e :: l) []). simpl.
    eapply pairs_impl; [|exact Hch].
    intros a b Hab. unfold disjoint. apply is_overlap_false. now left.
  - apply chain_sorted in Hch; [|exact Hp].
    clear Hp. induction Hch as [|x m Hs IH Hx]; constructor; auto.
    eapply Forall_impl; [|exact Hx]. intros a Ha. simpl in Ha. lia.
Qed.

End MergeMore.

(** X1.  The merge only selects: the entities it
    returns, together with the ones it dropped, are the entities it was
    given, each as often as it was given.  So every returned entity is an
    input entity, the result is no longer than the input, and it is empty
    only for the empty input. *)
Theorem merge_entities_selects (entities : list Entity) :
  (exists dropped,
      Permutation (HybridNER._merge_entities entities ++ dropped) entities) /\
  (forall e, In e (HybridNER._merge_entities entities) -> In e entities) /\
  (length (HybridNER._merge_entities entities) <= length entities)%nat /\
  (HybridNER._merge_entities entities = [] <-> entities = []).
Proof.
  split; [apply MergeMore.merge_entities_perm|].
  split; [intros e; apply MergeMore.merge_entities_in|].
  split.
  - destruct (MergeMore.merge_entities_perm entities) as [d Hd].
    apply Permutation_length in Hd. rewrite length_app in Hd. lia.
  - split; [|intros ->; reflexivity].
    destruct entities as [|e l]; [reflexivity|]. intros H. exfalso.
    unfold HybridNER._merge_entities in H.
    pose proof (@sorted_perm _ start (e :: l)) as Hp.
    destruct (sorted start (e :: l)) as [|x s] eqn:Es.
    + apply Permutation_sym, Permutation_nil in Hp. discriminate.
    + simpl in H. revert H. apply MergeMore.merge_loop_nonempty.
      apply MergeMore.merge_step_nonempty.
Qed.

(** X2.  An entity is returned by the merge
    whenever every other input entity that overlaps it has a strictly
    lower confidence; in particular an entity that overlaps no other one
    is always returned. *)
Theorem merge_keeps_locally_best (before after : list Entity) (e : Entity) :
  (forall x, In x (before ++ after) -> HybridNER._is_overlap x e = true ->
             float_lt (confidence x) (confidence e) = true) ->
  In e (HybridNER._merge_entities (before ++ e :: after)).
Proof. apply MergeMore.merge_entities_keeps. Qed.

Lemma merge_keeps_locally_best_witness :
  let A := mkEntity (lit "0123456789") (PyStr (lit "X")) 0 10 (FFin (9 # 10)) in
  let E := mkEntity (lit "56789abcde") (PyStr (lit "Y")) 5 15 (FFin 1) in
  let C := mkEntity (lit "fg") (PyStr (lit "Z")) 15 17 (FFin 2) in
  In E (HybridNER._merge_entities [A; E; C]).
Proof.
  intros A E C. apply (@merge_keeps_locally_best [A] [C] E).
  intros x [<-|[<-|[]]] H; [reflexivity|vm_compute in H; discriminate H].
Defined.

(** X3.  When no input entity has an empty or
    reversed span, the entities returned by the merge come in text order:
    each one ends where the next one starts or before, and the starts
    increase strictly. *)
Theorem merge_entities_ordered (entities : list Entity) :
  Forall Span.proper entities ->
  ForallOrdPairs Span.precedes (HybridNER._merge_entities entities) /\
  StronglySorted (fun a b => start a < start b)
                 (HybridNER._merge_entities entities).
Proof.
  intros Hp.
  assert (Hch := MergeMore.merge_entities_chain Hp).
  split; [exact Hch|].
  apply MergeMore.chain_sorted; [|exact Hch].
  apply Forall_forall. intros x Hx. rewrite Forall_forall in Hp.
  now apply Hp, MergeMore.merge_entities_in.
Qed.

Lemma merge_entities_ordered_witness :
  let A := mkEntity (lit "0123456789") (PyStr (lit "X")) 0 10 (FFin (9 # 10)) in
  let E := mkEntity (lit "56789abcde") (PyStr (lit "Y")) 5 15 (FFin 1) in
  let C := mkEntity (lit "fg") (PyStr (lit "Z")) 15 17 (FFin 2) in
  ForallOrdPairs Span.precedes (HybridNER._merge_entities [C; E; A]) /\
  StronglySorted (fun a b => start a < start b)
                 (HybridNER._merge_entities [C; E; A]).
Proof.
  intros A E C. apply (@merge_entities_ordered [C; E; A]).
  repeat constructor.
Defined.

(** X4.  When no input entity has an empty or
    reversed span, merging the result of a merge again changes
    nothing. *)
Theorem merge_entities_idempotent (entities : list Entity) :
  Forall Span.proper entities ->
  HybridNER._merge_entities (HybridNER._merge_entities entities)
  = HybridNER._merge_entities entities.
Proof.
  intros Hp. apply MergeMore.merge_entities_fixpoint.
  - apply Forall_forall. intros x Hx. rewrite Forall_forall in Hp.
    now apply Hp, MergeMore.merge_entities_in.
  - now apply MergeMore.merge_entities_chain.
Qed.

Lemma merge_entities_idempotent_witness :
  let A := mkEntity (lit "0123456789") (PyStr (lit "X")) 0 10 (FFin (9 # 10)) in
  let E := mkEntity (lit "56789abcde") (PyStr (lit "Y")) 5 15 (FFin 1) in
  let C := mkEntity (lit "fg") (PyStr (lit "Z")) 15 17 (FFin 2) in
  HybridNER._merge_entities (HybridNER._merge_entities [C; E; A])
  = HybridNER._merge_entities [C; E; A].
Proof.
  intros A E C. apply (@merge_entities_idempotent [C; E; A]).
  repeat constructor.
Defined.

(** ** The recognisers *)

Module ExtractMore.
Import Dyn LLMNER Shape EqFacts.

Lemma norm_index_inside (n i : Z) :
  0 <= i <= n -> norm_index n i = Z.to_nat i.
Proof.
  intros H. unfold norm_index.
  assert ((i <? 0) = false) as -> by (apply Z.ltb_ge; lia).
  f_equal. lia.
Qed.

(** A slice inside a prefix does not depend on what follows the
    prefix. *)
Lemma slice_prefix (p q : str) (s e : Z) :
  0 <= s -> s <= e -> e <= len p -> slice (p ++ q) s e = slice p s e.
Proof.
  intros Hs Hse He. unfold slice.
  assert (Hl : len (p ++ q) = len p + len q)
    by (unfold len; rewrite length_app; lia).
  assert (Hq : 0 <= len q) by (unfold len; lia).
  rewrite !norm_index_inside by lia.
  rewrite skipn_app, firstn_app, length_skipn.
  unfold len in He.
  replace (Z.to_nat s - length p)%nat with 0%nat by lia.
  replace (Z.to_nat e - Z.to_nat s - (length p - Z.to_nat s))%nat
    with 0%nat by lia.
  simpl. now rewrite app_nil_r.
Qed.

Lemma verified_prefix (p q q' : str) (e : Entity) :
  verified (p ++ q) e -> end_ e <= len p -> verified (p ++ q') e.
Proof.
  unfold verified. intros (Hse & He & Ht) Hp.
  assert (Hl : len (p ++ q') = len p + len q')
    by (unfold len; rewrite length_app; lia).
  assert (Hq : 0 <= len q') by (unfold len; lia).
  repeat split; try lia.
  rewrite Ht, !slice_prefix by lia. reflexivity.
Qed.

Lemma extract_ok (lib : PyLib) (self : t) (text0 : str) (es : list Entity) :
  extract_entities lib self text0 = Ok es ->
  exists response entities,
    llm_caller self (_build_prompt self (truncated self text0)) = Ok response /\
    _parse_llm_response lib response (truncated self text0) = Ok entities /\
    es = filter (fun entity =>
                   float_ge (confidence entity) (confidence_threshold self))
                entities.
Proof.
  unfold extract_entities.
  destruct (llm_caller self (_build_prompt self (truncated self text0)))
    as [response|] eqn:Ec; [|discriminate].
  cbn [bind].
  destruct (_parse_llm_response lib response (truncated self text0))
    as [entities|] eqn:Ep; [|discriminate].
  cbn [bind reraise_as]. intros H. injection H as <-.
  now exists response, entities.
Qed.

Lemma parse_items_raise (lib : PyLib) (t : str) (bad : pyval)
      (rest : list pyval) (ex : exn) (good : list pyval) :
  forall es,
    parse_items lib t good = Ok es ->
    parse_item lib t bad = Raise ex ->
    parse_items lib t (good ++ bad :: rest) = Raise ex.
Proof.
  induction good as [|g good IH]; intros es Hg Hb; simpl.
  - now rewrite Hb.
  - simpl in Hg.
    destruct (parse_item lib t g) as [r|]; [|discriminate]. cbn [bind] in *.
    destruct (parse_items lib t good) as [es'|]; [|discriminate].
    now rewrite (IH es' eq_refl Hb).
Qed.

Lemma in_range_ints (s e : Z) (t : str) :
  0 <= s < e /\ e <= len t -> in_range (PyInt s) (PyInt e) t = Ok true.
Proof.
  intros H. unfold in_range, le, lt. cbn [as_num bind num_le num_lt].
  assert ((0 <=? s) = true) as -> by (apply Z.leb_le; lia).
  assert ((s <? e) = true) as -> by (apply Z.ltb_lt; lia).
  assert ((e <=? len t) = true) as -> by (apply Z.leb_le; lia).
  reflexivity.
Qed.

Lemma parse_item_unreadable (lib : PyLib) (t : str)
      (item : list (str * pyval)) (s e : Z) (c : str) :
  lookup (lit "start") item = Some (PyInt s) ->
  lookup (lit "end") item = Some (PyInt e) ->
  lookup (lit "text") item = Some (PyStr (slice t s e)) ->
  0 <= s < e /\ e <= len t ->
  lookup (lit "confidence") item = Some (PyStr c) ->
  float_of_str lib c = None ->
  parse_item lib t (PyDict item) = Raise ValueError.
Proof.
  intros Hs He Ht Hr Hc Hf. unfold parse_item, get.
  rewrite Hs, He, Ht, Hc. cbn [bind].
  rewrite in_range_ints by exact Hr. cbn [bind as_index].
  rewrite str_eqb_refl. cbn [bind to_float]. now rewrite Hf.
Qed.

End ExtractMore.

(** X5.  Every entity returned by the hybrid
    recogniser was returned, for the same text, by its pattern recogniser
    or by its delegated one; the merge adds nothing of its own. *)
Theorem hybrid_entities_provenance (lib : Dyn.PyLib) (self : HybridNER.t)
        (source : str) (entities : list Entity) (e : Entity) :
  HybridNER.extract_entities lib self source = Ok entities ->
  In e entities ->
  (exists r, HybridNER.regex_ner self = Some r /\
             In e (RegexNER.extract_entities r source)) \/
  (exists l found, HybridNER.llm_ner self = Some l /\
                   LLMNER.extract_entities lib l source = Ok found /\
                   In e found).
Proof.
  unfold HybridNER.extract_entities. intros H Hin.
  destruct (HybridNER.llm_ner self) as [l|] eqn:El.
  - destruct (LLMNER.extract_entities lib l source) as [found|] eqn:Ef;
      [|discriminate].
    cbn [bind] in H. injection H as <-.
    apply MergeMore.merge_entities_in, in_app_or in Hin.
    destruct Hin as [Hin|Hin].
    + left. destruct (HybridNER.regex_ner self) as [r|]; [|destruct Hin].
      now exists r.
    + right. now exists l, found.
  - cbn [bind] in H. injection H as <-.
    apply MergeMore.merge_entities_in, in_app_or in Hin.
    destruct Hin as [Hin|[]].
    left. destruct (HybridNER.regex_ner self) as [r|]; [|destruct Hin].
    now exists r.
Qed.

Lemma hybrid_entities_provenance_witness :
  let h := HybridNER.mk (Some Examples.account_ner) None (lit "union") in
  let e := mkEntity (lit "42") (PyStr (lit "ACCT")) 3 5 (FFin 1) in
  (exists r, HybridNER.regex_ner h = Some r /\
             In e (RegexNER.extract_entities r (lit "no 42"))) \/
  (exists l found, HybridNER.llm_ner h = Some l /\
                   LLMNER.extract_entities Examples.lib_reject l (lit "no 42")
                   = Ok found /\
                   In e found).
Proof.
  intros h e.
  apply (@hybrid_entities_provenance Examples.lib_reject h (lit "no 42") [e] e).
  - vm_compute. reflexivity.
  - simpl. now left.
Defined.

(** X6.  When the matches of the patterns
    do not overlap each other and every entity of the delegated
    recogniser has a confidence below 1.0, the hybrid recogniser returns
    every pattern match: a delegated entity never displaces one. *)
Theorem hybrid_pattern_entities_win (lib : Dyn.PyLib) (self : HybridNER.t)
        (r : RegexNER.t) (source : str) (entities : list Entity) :
  HybridNER.regex_ner self = Some r ->
  ForallOrdPairs Shape.disjoint (RegexNER.extract_entities r source) ->
  (forall l found x, HybridNER.llm_ner self = Some l ->
                     LLMNER.extract_entities lib l source = Ok found ->
                     In x found -> float_lt (confidence x) (FFin 1) = true) ->
  HybridNER.extract_entities lib self source = Ok entities ->
  forall e, In e (RegexNER.extract_entities r source) -> In e entities.
Proof.
  intros Hr Hd Hllm H e He.
  unfold HybridNER.extract_entities in H. rewrite Hr in H.
  assert (Hc : confidence e = FFin 1).
  { unfold RegexNER.extract_entities in He.
    apply in_flat_map in He. destruct He as (lp & _ & He).
    apply in_map_iff in He. destruct He as (m & <- & _). reflexivity. }
  apply in_split in He. destruct He as (r1 & r2 & Er).
  assert (Hkeep : forall found,
             (forall x, In x found -> float_lt (confidence x) (FFin 1) = true) ->
             In e (HybridNER._merge_entities
                     (RegexNER.extract_entities r source ++ found))).
  { intros found Hf. rewrite Er, <- app_assoc. simpl.
    apply MergeMore.merge_entities_keeps.
    intros x Hx Hov. rewrite Hc.
    rewrite app_assoc in Hx. apply in_app_or in Hx.
    destruct Hx as [Hx|Hx]; [exfalso|now apply Hf].
    rewrite Er in Hd. apply pairs_app in Hd.
    destruct Hd as (_ & Hd2 & Hd3).
    apply in_app_or in Hx. destruct Hx as [Hx|Hx].
    - rewrite Forall_forall in Hd3. specialize (Hd3 x Hx).
      inversion Hd3 as [|? ? Hxe _]; subst.
      unfold Shape.disjoint in Hxe. congruence.
    - inversion Hd2 as [|? ? He2 _]; subst.
      rewrite Forall_forall in He2. specialize (He2 x Hx).
      unfold Shape.disjoint in He2.
      rewrite MergeFacts.is_overlap_sym in He2. congruence. }
  destruct (HybridNER.llm_ner self) as [l|] eqn:El.
  - destruct (LLMNER.extract_entities lib l source) as [found|] eqn:Ef;
      [|discriminate].
    cbn [bind] in H. injection H as <-.
    apply Hkeep. intros x Hx. now apply (Hllm l found).
  - cbn [bind] in H. injection H as <-.
    apply Hkeep. intros x [].
Qed.

Lemma hybrid_pattern_entities_win_witness :
  let bob := mkEntity (lit "Bob") (PyStr (lit "PERSON")) 0 3 (FFin (9 # 10)) in
  let acct := mkEntity (lit "42") (PyStr (lit "ACCT")) 12 14 (FFin 1) in
  In acct [bob; acct].
Proof.
  intros bob acct.
  apply (@hybrid_pattern_entities_win Examples.people_lib
           (HybridNER.mk (Some Examples.account_ner)
                         (Some Examples.people_ner) (lit "union"))
           Examples.account_ner (lit "Bob Ann now 42") [bob; acct]).
  - reflexivity.
  - vm_compute. repeat constructor.
  - intros l found x Hl Hf Hx.
    injection Hl as <-. vm_compute in Hf. injection Hf as <-.
    destruct Hx as [<-|[]]. reflexivity.
  - vm_compute. reflexivity.
  - vm_compute. now left.
Defined.

(** X7.  An entity returned by the
    delegated recogniser is checked against the text as cut to
    [max_text_length] and marked.  It is also a correct entity of the
    text as given (in range, with the text found at its span) when the
    text was not cut, or when the entity ends within the part that was
    kept. *)
Theorem llm_entities_within_original (lib : Dyn.PyLib) (self : LLMNER.t)
        (source : str) (entities : list Entity) (e : Entity) :
  0 <= LLMNER.max_text_length self ->
  LLMNER.extract_entities lib self source = Ok entities ->
  In e entities ->
  len source <= LLMNER.max_text_length self \/
  end_ e <= LLMNER.max_text_length self ->
  Shape.verified source e.
Proof.
  intros Hmax H Hin Hcase.
  apply ExtractMore.extract_ok in H.
  destruct H as (response & found & _ & Hp & ->).
  apply filter_In in Hin. destruct Hin as [Hin _].
  apply LLMFacts.parse_response_verified in Hp.
  rewrite Forall_forall in Hp. specialize (Hp e Hin).
  unfold LLMNER.truncated in Hp.
  destruct (LLMNER.max_text_length self <? len source) eqn:E; [|exact Hp].
  apply Z.ltb_lt in E.
  destruct Hcase as [Hcase|Hcase]; [lia|].
  unfold slice_to in Hp.
  rewrite ExtractMore.norm_index_inside in Hp by lia.
  set (n := Z.to_nat (LLMNER.max_text_length self)) in *.
  assert (Hn : len (firstn n source) = LLMNER.max_text_length self).
  { unfold len in *. rewrite length_firstn. lia. }
  rewrite <- (firstn_skipn n source).
  eapply ExtractMore.verified_prefix; [exact Hp|]. lia.
Qed.

Lemma llm_entities_within_original_witness :
  Shape.verified Examples.people_text
    (mkEntity (lit "Bob") (PyStr (lit "PERSON")) 0 3 (FFin (9 # 10))).
Proof.
  apply (@llm_entities_within_original Examples.people_lib Examples.people_ner
           Examples.people_text
           [mkEntity (lit "Bob") (PyStr (lit "PERSON")) 0 3 (FFin (9 # 10))]).
  - simpl. lia.
  - vm_compute. reflexivity.
  - simpl. now left.
  - left. vm_compute. discriminate.
Defined.

(** X8.  A candidate that passes
    the position and text checks but whose confidence is a string that
    [float] rejects makes the delegated recogniser return no entity at
    all, without an error: the candidates accepted before it are
    discarded with it, and the ones after it are not looked at. *)
Theorem llm_unreadable_confidence_discards_all
        (lib : Dyn.PyLib) (self : LLMNER.t) (source reply : str)
        (data bad : list (str * pyval)) (good rest : list pyval)
        (accepted : list Entity) (s e : Z) (c : str) :
  let t := LLMNER.truncated self source in
  LLMNER.llm_caller self (LLMNER._build_prompt self t) = Ok reply ->
  Dyn.json_loads lib (LLMNER.json_str reply) = Some (PyDict data) ->
  Dyn.lookup (lit "entities") data = Some (PyList (good ++ PyDict bad :: rest)) ->
  LLMNER.parse_items lib t good = Ok accepted ->
  Dyn.lookup (lit "start") bad = Some (PyInt s) ->
  Dyn.lookup (lit "end") bad = Some (PyInt e) ->
  Dyn.lookup (lit "text") bad = Some (PyStr (slice t s e)) ->
  0 <= s < e /\ e <= len t ->
  Dyn.lookup (lit "confidence") bad = Some (PyStr c) ->
  Dyn.float_of_str lib c = None ->
  LLMNER.extract_entities lib self source = Ok [].
Proof.
  intros t Hcall Hjson Hent Hgood Hs He Ht Hr Hc Hf.
  assert (Hbad := ExtractMore.parse_item_unreadable lib t bad Hs He Ht Hr Hc Hf).
  assert (Hitems := @ExtractMore.parse_items_raise lib t (PyDict bad) rest
                      ValueError good accepted Hgood Hbad).
  unfold LLMNER.extract_entities. fold t. rewrite Hcall. cbn [bind].
  unfold LLMNER._parse_llm_response, LLMNER.parse_body.
  rewrite Hjson. unfold Dyn.get. rewrite Hent. cbn [bind Dyn.iter].
  rewrite Hitems. reflexivity.
Qed.

Lemma llm_unreadable_confidence_discards_all_witness :
  LLMNER.extract_entities MoreExamples.worded_lib MoreExamples.worded_ner
                          (lit "Bob Ann") = Ok [].
Proof.
  apply (@llm_unreadable_confidence_discards_all
           MoreExamples.worded_lib MoreExamples.worded_ner (lit "Bob Ann")
           MoreExamples.worded_block MoreExamples.worded_entities
           MoreExamples.worded_item
           [Examples.candidate "Bob" (PyStr (lit "PERSON")) 0 3 (9 # 10)] []
           [mkEntity (lit "Bob") (PyStr (lit "PERSON")) 0 3 (FFin (9 # 10))]
           4 7 (lit "high"));
    try (vm_compute; reflexivity).
  vm_compute. repeat split; discriminate.
Defined.

(** ** Tokens and masking *)

Module MaskMore.
Import Re Shape Layout DataMasker Hashing EqFacts.

Lemma app_same_tail (A : Type) (a c b d : list A) :
  a ++ b = c ++ d -> length b = length d -> a = c /\ b = d.
Proof.
  revert c. induction a as [|x a IH]; intros [|y c] H L; simpl in *.
  - now split.
  - exfalso. apply (f_equal (@length A)) in H. simpl in H.
    rewrite length_app in H. lia.
  - exfalso. apply (f_equal (@length A)) in H. simpl in H.
    rewrite length_app in H. lia.
  - injection H as -> H. destruct (IH c H L) as [-> ->]. now split.
Qed.

Lemma token_kind (salt : str) (kind : pyval) (value tok : str) :
  _token salt kind value = Ok tok -> exists k, kind = PyStr k.
Proof.
  unfold _token, _short_hash, hash_input.
  destruct kind; try discriminate. intros _. eauto.
Qed.

Lemma hashable_token (salt : str) (e : Entity) :
  hashable salt e = true ->
  _token salt (label e) (text e) = Ok (token_of salt e).
Proof.
  unfold hashable, token_of. destruct (label e) as [| | | | l | |];
    try discriminate.
  intros H. destruct (TokenFacts.token_produced salt l (text e) H)
    as (h & -> & _). reflexivity.
Qed.

Lemma in_firstn (A : Type) (n : nat) (l : list A) (x : A) :
  In x (firstn n l) -> In x l.
Proof.
  revert l. induction n as [|n IH]; intros [|y l]; simpl; try tauto.
  intros [H|H]; auto.
Qed.

Lemma in_skipn (A : Type) (n : nat) (l : list A) (x : A) :
  In x (skipn n l) -> In x l.
Proof.
  revert l. induction n as [|n IH]; intros [|y l]; simpl; try tauto.
  intros H; auto.
Qed.

Lemma forallb_slice (f : char -> bool) (s : str) (i j : Z) :
  forallb f s = true -> forallb f (slice s i j) = true.
Proof.
  rewrite !forallb_forall. intros H x Hx. apply H.
  unfold slice in Hx. now apply in_firstn, in_skipn in Hx.
Qed.

Lemma forallb_app3 (f : char -> bool) (a b c : str) :
  forallb f a = true -> forallb f b = true -> forallb f c = true ->
  forallb f (a ++ b ++ c) = true.
Proof. intros Ha Hb Hc. now rewrite !forallb_app, Ha, Hb, Hc. Qed.

Lemma regex_entities_hashable (salt source : str) (r : RegexNER.t) :
  forallb Utf8.encodable_char salt = true ->
  forallb Utf8.encodable_char source = true ->
  Forall (fun lp => forallb Utf8.encodable_char (fst lp) = true)
         (RegexNER.patterns r) ->
  Forall (fun e => hashable salt e = true)
         (RegexNER.extract_entities r source).
Proof.
  intros Hsalt Hsrc Hlab. apply Forall_forall. intros e He.
  unfold RegexNER.extract_entities in He.
  apply in_flat_map in He. destruct He as (lp & Hlp & He).
  apply in_map_iff in He. destruct He as (m & <- & _).
  rewrite Forall_forall in Hlab. specialize (Hlab lp Hlp).
  unfold hashable. cbn [label text].
  apply forallb_app3; auto. now apply forallb_slice.
Qed.

Lemma mask_loop_total (salt : str) (es : list Entity) :
  Forall (fun e => hashable salt e = true) es ->
  forall st, exists st', mask_loop salt st es = Ok st'.
Proof.
  induction 1 as [|e es He Hes IH]; intros st; cbn [mask_loop]; [eauto|].
  destruct st as [s mp]. unfold mask_step.
  rewrite (hashable_token _ _ He). cbn [bind]. apply IH.
Qed.

Lemma mask_loop_length (salt : str) (es : list Entity) :
  forall s mp s' mp',
    mask_loop salt (s, mp) es = Ok (s', mp') ->
    (length mp <= length mp' <= length mp + length es)%nat.
Proof.
  induction es as [|e es IH]; intros s mp s' mp' H.
  - cbn [mask_loop] in H. injection H as <- <-. simpl. lia.
  - apply MappingFacts.mask_loop_cons in H. destruct H as ([s1 mp1] & H1 & H2).
    apply MappingFacts.mask_step_ok in H1. destruct H1 as (tk & _ & _ & ->).
    apply IH in H2. simpl length.
    destruct (negb (contains mp tk));
      [rewrite length_app in H2; simpl in H2|]; lia.
Qed.

Lemma lookup_in (V : Type) (k : str) (kv : list (str * V)) (v : V) :
  Dyn.lookup k kv = Some v -> In (k, v) kv.
Proof.
  induction kv as [|[k' v'] kv IH]; simpl; [discriminate|].
  destruct (str_eqb k' k) eqn:E.
  - apply str_eqb_eq in E. subst. intros H. injection H as <-. now left.
  - intros H. right. now apply IH.
Qed.

Lemma sub_from_absent (k r s : str) :
  occurs k s = false -> sub_from k r 0 s = s.
Proof.
  intros H. rewrite <- (app_nil_r s) at 1.
  rewrite SubFacts.sub_from_copy.
  - cbn [sub_from]. apply app_nil_r.
  - intros a b E _. rewrite app_nil_r.
    now apply (@RestoreFacts.occurs_false k s H a b).
Qed.

Lemma occurs_nonempty (k s : str) : occurs k s = false -> k <> [].
Proof. intros H ->. destruct s; discriminate. Qed.

Lemma unmask_loop_absent (mapping : Mapping) (source : str) (ks : list str) :
  (forall k, In k ks ->
             occurs k source = false /\
             exists v r, Dyn.lookup k mapping = Some v /\
                         expand_template v k = Ok r) ->
  unmask_loop mapping source ks = Ok source.
Proof.
  induction ks as [|k ks IH]; intros H; cbn [unmask_loop]; [reflexivity|].
  destruct (H k) as (Ho & v & r & Hv & Hr); [now left|].
  unfold getitem. rewrite Hv. cbn [bind].
  unfold sub_escaped. rewrite Hr. cbn [bind].
  pose proof (@occurs_nonempty k source Ho) as Hk.
  destruct k as [|c k]; [congruence|].
  rewrite sub_from_absent by exact Ho.
  apply IH. intros k' Hk'. apply H. now right.
Qed.

Lemma unmask_loop_bad (mapping : Mapping) (k v : str) (e : exn)
      (ks : list str) :
  Dyn.lookup k mapping = Some v ->
  expand_template v k = Raise e ->
  In k ks ->
  forall source, exists e', unmask_loop mapping source ks = Raise e'.
Proof.
  intros Hv Hbad. induction ks as [|tk ks IH]; intros Hin source;
    [destruct Hin|].
  cbn [unmask_loop].
  destruct (list_eq_dec N.eq_dec tk k) as [->|Hne].
  - unfold getitem. rewrite Hv. cbn [bind].
    unfold sub_escaped. rewrite Hbad. cbn [bind]. eauto.
  - destruct Hin as [Hin|Hin]; [congruence|].
    destruct (getitem mapping tk) as [v'|e1]; cbn [bind]; [|eauto].
    destruct (sub_escaped tk v' source) as [s'|e2]; cbn [bind]; [|eauto].
    now apply IH.
Qed.

End MaskMore.

(** X9.  A token is produced only for a label that is a
    string, and it is then 14 characters longer than the label: the six
    characters of its frame and the eight of the hash. *)
Theorem token_length (salt : str) (kind : pyval) (value tok : str) :
  DataMasker._token salt kind value = Ok tok ->
  exists k, kind = PyStr k /\ len tok = len k + 14.
Proof.
  intros H. destruct (MaskMore.token_kind _ _ _ H) as [k ->].
  exists k. split; [reflexivity|].
  apply TokenFacts.token_shape in H. destruct H as (h & -> & Hh & _).
  unfold len. rewrite !length_app, Hh.
  change (length (lit "<RG:")) with 4%nat.
  change (length (lit ":")) with 1%nat.
  change (length (lit ">")) with 1%nat. lia.
Qed.

Lemma token_length_witness :
  exists k, PyStr (lit "EMAIL") = PyStr k /\
            len (lit "<RG:EMAIL:yls6vutv>") = len k + 14.
Proof.
  apply (@token_length (lit "s0000000") (PyStr (lit "EMAIL")) (lit "a@b.com")
           (lit "<RG:EMAIL:yls6vutv>")).
  vm_compute. reflexivity.
Defined.

(** X10.  A token determines its label: two
    entities whose tokens coincide, whatever their values and whatever
    the salts, have the same label.  Tokens can only collide between
    values of one label. *)
Theorem token_determines_label (salt1 salt2 k1 k2 value1 value2 tok : str) :
  DataMasker._token salt1 (PyStr k1) value1 = Ok tok ->
  DataMasker._token salt2 (PyStr k2) value2 = Ok tok ->
  k1 = k2.
Proof.
  intros H1 H2.
  apply TokenFacts.token_shape in H1. destruct H1 as (h1 & E1 & L1 & _).
  apply TokenFacts.token_shape in H2. destruct H2 as (h2 & E2 & L2 & _).
  rewrite E1 in E2. apply app_inv_head in E2.
  apply MaskMore.app_same_tail in E2; [tauto|].
  rewrite !length_app, L1, L2. reflexivity.
Qed.

Lemma token_determines_label_witness :
  let tok := lit "<RG:ACCT:xmiv2rqd>" in
  DataMasker._token (lit "s0000000") (PyStr (lit "ACCT")) (lit "1000987594")
  = Ok tok /\
  DataMasker._token (lit "s0000000") (PyStr (lit "ACCT")) (lit "1001986883")
  = Ok tok /\
  lit "ACCT" = lit "ACCT".
Proof.
  intros tok.
  assert (H1 : DataMasker._token (lit "s0000000") (PyStr (lit "ACCT"))
                                 (lit "1000987594") = Ok tok)
    by (vm_compute; reflexivity).
  assert (H2 : DataMasker._token (lit "s0000000") (PyStr (lit "ACCT"))
                                 (lit "1001986883") = Ok tok)
    by (vm_compute; reflexivity).
  split; [exact H1|]. split; [exact H2|].
  exact (@token_determines_label _ _ _ _ _ _ _ H1 H2).
Defined.

(** X11.  A token is produced exactly when the label
    is a string and salt, label and value together can be encoded as
    UTF-8; in every other case the error raised is [MaskingError]. *)
Theorem token_defined_iff (salt : str) (kind : pyval) (value : str) :
  ((exists tok, DataMasker._token salt kind value = Ok tok) <->
   (exists k, kind = PyStr k /\
              forallb Utf8.encodable_char (salt ++ k ++ value) = true)) /\
  (forall e, DataMasker._token salt kind value = Raise e -> e = MaskingError).
Proof.
  split; [split|].
  - intros [tok H]. destruct (MaskMore.token_kind _ _ _ H) as [k ->].
    exists k. split; [reflexivity|].
    rewrite TokenFacts.token_of_str in H.
    apply TokenFacts.encode_some.
    destruct (Utf8.encode (salt ++ k ++ value)); [discriminate|discriminate].
  - intros (k & -> & H).
    destruct (TokenFacts.token_produced salt k value H) as (h & E & _). eauto.
  - intros e. destruct kind; try (cbn; intros H; injection H as <-; reflexivity).
    rewrite TokenFacts.token_of_str.
    destruct (Utf8.encode (salt ++ s ++ value)); [discriminate|].
    intros H; injection H as <-; reflexivity.
Qed.

(** X12.  When the extracted entities do not overlap,
    satisfy the entity invariant and can be hashed, [mask] returns, and
    the masked text is the original text with the span of every entity
    replaced by its token and everything between the spans left as it
    was: cutting the text at the spans, in text order, gives the same
    pieces for both, with the entity's token in place of its text. *)
Theorem mask_replaces_spans (lib : Dyn.PyLib) (self : DataMasker.t)
        (source : str) (entities : list Entity) :
  DataMasker.extract_entities lib (DataMasker.ner self) source = Ok entities ->
  ForallOrdPairs (fun a b => HybridNER._is_overlap a b = false) entities ->
  forallb (Shape.well_formed source) entities = true ->
  forallb (Hashing.hashable (DataMasker.salt self)) entities = true ->
  let ascending := rev (sorted_reverse start entities) in
  let ps := Layout.pieces source 0 ascending in
  let tl := skipn (Layout.last_pos 0 ascending) source in
  source = Layout.flat text ps ++ tl /\
  map snd ps = ascending /\
  exists mapping self',
    DataMasker.mask lib self source =
      (Ok (Layout.flat (Shape.token_of (DataMasker.salt self)) ps ++ tl,
           mapping, sorted_reverse start entities), self').
Proof.
  intros Hext Hdis Hwf Hhash.
  set (salt := DataMasker.salt self) in *.
  set (D := sorted_reverse start entities).
  assert (HinD : forall e, In e D -> In e entities)
    by (intros e; apply RoundTripFacts.sorted_reverse_in).
  rewrite forallb_forall in Hwf, Hhash.
  assert (Hchain : ForallOrdPairs (fun a b => end_ a <= start b) (rev D)).
  { apply (RoundTripFacts.pairs_rev (R := fun a b => end_ b <= start a)).
    apply RoundTripFacts.descending_chain.
    - apply sorted_reverse_sorted.
    - apply pairs_sorted_reverse; [exact MergeFacts.disjoint_sym|exact Hdis].
    - apply Forall_forall. intros e He.
      destruct (LayoutFacts.well_formed_nat _ _ (Hwf e (HinD e He)))
        as (E1 & E2 & Hb & _). lia. }
  destruct (@LayoutFacts.layout_exists source (rev D) 0%nat Hchain)
    as (Hsrc & Hpos & Hsnd).
  { apply Forall_forall. intros e He. apply in_rev in He.
    apply Hwf, HinD, He. }
  { apply Forall_forall. intros e He. apply in_rev in He.
    destruct (LayoutFacts.well_formed_nat _ _ (Hwf e (HinD e He)))
      as (E1 & _). lia. }
  { lia. }
  cbn [skipn] in Hsrc. cbv zeta.
  set (ps := Layout.pieces source 0 (rev D)) in *.
  set (tl := skipn (Layout.last_pos 0 (rev D)) source) in *.
  split; [exact Hsrc|]. split; [exact Hsnd|].
  destruct (@LayoutFacts.mask_loop_flat salt ps tl [] Hpos) as [mapping Hloop].
  { intros e He. rewrite Hsnd in He. apply in_rev in He.
    apply MaskMore.hashable_token, Hhash, HinD, He. }
  rewrite Hsnd, rev_involutive, <- Hsrc in Hloop.
  exists mapping, (DataMasker.mk salt (DataMasker.ner self) D).
  unfold DataMasker.mask. rewrite Hext. cbn [DataMasker.salt].
  match goal with
  | |- match ?x with _ => _ end = _ =>
      replace x with (Ok (Layout.flat (Shape.token_of salt) ps ++ tl, mapping))
        by (symmetry; exact Hloop)
  end.
  reflexivity.
Qed.

Lemma mask_replaces_spans_witness :
  let source := lit "Pay 12345 to 67890 now" in
  let entities :=
    [mkEntity (lit "12345") (PyStr (lit "ACCT")) 4 9 (FFin 1);
     mkEntity (lit "67890") (PyStr (lit "ACCT")) 13 18 (FFin 1)] in
  let ascending := rev (sorted_reverse start entities) in
  let ps := Layout.pieces source 0 ascending in
  let tl := skipn (Layout.last_pos 0 ascending) source in
  source = Layout.flat text ps ++ tl /\
  map snd ps = ascending /\
  exists mapping self',
    DataMasker.mask Examples.lib_reject Examples.account_masker source =
      (Ok (Layout.flat (Shape.token_of (lit "s0000000")) ps ++ tl,
           mapping, sorted_reverse start entities), self').
Proof.
  intros source entities.
  apply (@mask_replaces_spans Examples.lib_reject Examples.account_masker
           source entities).
  - vm_compute. reflexivity.
  - repeat constructor.
  - vm_compute. reflexivity.
  - vm_compute. reflexivity.
Defined.

(** X13.  With the pattern recogniser alone,
    [mask] returns for every text: provided the salt, the labels of the
    patterns and the text hold no character that UTF-8 cannot encode (a
    lone surrogate), no match of any pattern, however its span lies, can
    make it raise. *)
Theorem regex_mask_never_fails (lib : Dyn.PyLib) (self : DataMasker.t)
        (r : RegexNER.t) (source : str) :
  DataMasker.ner self = DataMasker.Regex r ->
  forallb Utf8.encodable_char (DataMasker.salt self) = true ->
  Forall (fun lp => forallb Utf8.encodable_char (fst lp) = true)
         (RegexNER.patterns r) ->
  forallb Utf8.encodable_char source = true ->
  exists masked mapping entities,
    DataMasker.mask lib self source =
      (Ok (masked, mapping, entities),
       DataMasker.mk (DataMasker.salt self) (DataMasker.ner self) entities).
Proof.
  intros Hner Hsalt Hlab Hsrc.
  unfold DataMasker.mask. rewrite Hner. cbn [DataMasker.extract_entities].
  cbn [DataMasker.salt].
  set (D := sorted_reverse start (RegexNER.extract_entities r source)).
  destruct (@MaskMore.mask_loop_total (DataMasker.salt self) D) with
    (st := (source, @nil (str * str))) as [[masked mapping] Hloop].
  - apply Forall_forall. intros e He. subst D.
    apply (proj1 (RoundTripFacts.sorted_reverse_in _ e)) in He.
    pose proof (@MaskMore.regex_entities_hashable (DataMasker.salt self)
                  source r Hsalt Hsrc Hlab) as H.
    rewrite Forall_forall in H. now apply H.
  - exists masked, mapping, D.
    match goal with
    | |- match ?x with _ => _ end = _ =>
        replace x with (Ok (masked, mapping)) by (symmetry; exact Hloop)
    end.
    reflexivity.
Qed.

Lemma regex_mask_never_fails_witness :
  exists masked mapping entities,
    DataMasker.mask Examples.lib_reject Examples.account_masker
                    Examples.colliding_text =
      (Ok (masked, mapping, entities),
       DataMasker.mk (lit "s0000000") (DataMasker.Regex Examples.account_ner)
                     entities).
Proof.
  apply (@regex_mask_never_fails Examples.lib_reject Examples.account_masker
           Examples.account_ner Examples.colliding_text).
  - reflexivity.
  - vm_compute. reflexivity.
  - repeat constructor.
  - vm_compute. reflexivity.
Defined.

(** X14.  When [mask] returns, the entities it
    returns are the extracted ones rearranged by descending start; the
    instance keeps its salt and recogniser, and [get_last_entities]
    returns that same list afterwards.  The mapping has no more entries
    than there are entities. *)
Theorem mask_entities_descending (lib : Dyn.PyLib) (self self' : DataMasker.t)
        (source masked : str) (mapping : DataMasker.Mapping)
        (entities : list Entity) :
  DataMasker.mask lib self source = (Ok (masked, mapping, entities), self') ->
  (exists extracted,
      DataMasker.extract_entities lib (DataMasker.ner self) source
      = Ok extracted /\
      Permutation extracted entities) /\
  StronglySorted (fun a b => start b <= start a) entities /\
  DataMasker.get_last_entities self' = entities /\
  DataMasker.salt self' = DataMasker.salt self /\
  DataMasker.ner self' = DataMasker.ner self /\
  (length mapping <= length entities)%nat.
Proof.
  intros H. apply MappingFacts.mask_ok in H.
  destruct H as (extracted & Hext & -> & Hloop & ->).
  split; [exists extracted; split; [exact Hext|apply sorted_reverse_perm]|].
  split; [apply sorted_reverse_sorted|].
  repeat split.
  apply MaskMore.mask_loop_length in Hloop. simpl in Hloop. lia.
Qed.

Lemma mask_entities_descending_witness :
  let e1 := mkEntity (lit "1001986883") (PyStr (lit "ACCT")) 11 21 (FFin 1) in
  let e2 := mkEntity (lit "1000987594") (PyStr (lit "ACCT")) 0 10 (FFin 1) in
  let tk := lit "<RG:ACCT:xmiv2rqd>" in
  let self' := DataMasker.mk (lit "s0000000")
                             (DataMasker.Regex Examples.account_ner) [e1; e2] in
  (exists extracted,
      DataMasker.extract_entities Examples.lib_reject
        (DataMasker.ner Examples.account_masker) Examples.colliding_text
      = Ok extracted /\
      Permutation extracted [e1; e2]) /\
  StronglySorted (fun a b => start b <= start a) [e1; e2] /\
  DataMasker.get_last_entities self' = [e1; e2] /\
  DataMasker.salt self' = DataMasker.salt Examples.account_masker /\
  DataMasker.ner self' = DataMasker.ner Examples.account_masker /\
  (length [(tk, text e1)] <= length [e1; e2])%nat.
Proof.
  intros e1 e2 tk self'.
  apply (@mask_entities_descending Examples.lib_reject Examples.account_masker
           self' Examples.colliding_text (tk ++ lit " " ++ tk)
           [(tk, text e1)] [e1; e2]).
  vm_compute. reflexivity.
Defined.

(** ** Unmasking *)

(** X15.  [unmask] returns the text unchanged
    when no key of the mapping occurs in it and every value is a
    replacement that [re.sub] accepts. *)
Theorem unmask_absent_keys_identity (source : str)
        (mapping : DataMasker.Mapping) :
  (forall k v, In (k, v) mapping ->
               Shape.occurs k source = false /\
               exists r, Re.expand_template v k = Ok r) ->
  DataMasker.unmask source mapping = Ok source.
Proof.
  intros H. apply UnmaskFacts.unmask_ok.
  apply MaskMore.unmask_loop_absent. intros k Hk.
  assert (Hin : In k (map fst mapping)).
  { eapply Permutation_in; [|exact Hk].
    symmetry. apply sorted_reverse_perm. }
  destruct (Dyn.lookup k mapping) as [v|] eqn:L.
  - apply MaskMore.lookup_in in L. destruct (H k v L) as (Ho & r & Hr).
    split; [exact Ho|]. now exists v, r.
  - apply DictFacts.lookup_none in L. contradiction.
Qed.

Lemma unmask_absent_keys_identity_witness :
  DataMasker.unmask (lit "Nothing to restore <here>")
                    [(lit "<RG:EMAIL:yls6vutv>", lit "a@b.com")]
  = Ok (lit "Nothing to restore <here>").
Proof.
  apply (@unmask_absent_keys_identity (lit "Nothing to restore <here>")
           [(lit "<RG:EMAIL:yls6vutv>", lit "a@b.com")]).
  intros k v [E|[]]. injection E as <- <-.
  split; [vm_compute; reflexivity|].
  exists (lit "a@b.com"). vm_compute. reflexivity.
Defined.

(** X16.  A single value that [re.sub] rejects
    as a replacement (a backslash followed by a letter that is no escape,
    for instance) makes [unmask] raise [UnmaskingError] for every text,
    whether or not the key of that value, or any key, occurs in it. *)
Theorem unmask_bad_template_fails (mapping : DataMasker.Mapping)
        (k v : str) (e : exn) :
  Dyn.lookup k mapping = Some v ->
  Re.expand_template v k = Raise e ->
  forall source, DataMasker.unmask source mapping = Raise UnmaskingError.
Proof.
  intros Hv Hbad source. unfold DataMasker.unmask.
  destruct (@MaskMore.unmask_loop_bad mapping k v e
              (sorted_reverse len (map fst mapping)) Hv Hbad) with
    (source := source) as [e' He'].
  - eapply Permutation_in; [apply sorted_reverse_perm|].
    apply MaskMore.lookup_in in Hv.
    apply in_map_iff. now exists (k, v).
  - now rewrite He'.
Qed.

Lemma unmask_bad_template_fails_witness :
  DataMasker.unmask (lit "no token here")
    [(lit "<RG:EMAIL:yls6vutv>", lit "a@b.com");
     (lit "<RG:PATH:aaaaaaaa>", lit "C:\Users")]
  = Raise UnmaskingError.
Proof.
  apply (@unmask_bad_template_fails
           [(lit "<RG:EMAIL:yls6vutv>", lit "a@b.com");
            (lit "<RG:PATH:aaaaaaaa>", lit "C:\Users")]
           (lit "<RG:PATH:aaaaaaaa>") (lit "C:\Users") ReError).
  - vm_compute. reflexivity.
  - vm_compute. reflexivity.
Defined.

(** ** Construction and patterns *)

Module SetupFacts.
Import Dyn Dict Setup DataMasker Recogniser EqFacts.

Lemma lookup_setitem_same (V : Type) (k : str) (v : V) (d : list (str * V)) :
  lookup k (setitem k v d) = Some v.
Proof.
  induction d as [|[k' v'] d IH]; simpl.
  - now rewrite str_eqb_refl.
  - destruct (str_eqb k' k) eqn:E; simpl.
    + now rewrite str_eqb_refl.
    + now rewrite E.
Qed.

Lemma lookup_setitem_other (V : Type) (k k0 : str) (v : V)
      (d : list (str * V)) :
  k0 <> k -> lookup k0 (setitem k v d) = lookup k0 d.
Proof.
  intros Hne. induction d as [|[k' v'] d IH]; simpl.
  - assert (str_eqb k k0 = false) as -> by (apply str_eqb_neq; congruence).
    reflexivity.
  - destruct (str_eqb k' k) eqn:E; simpl.
    + apply str_eqb_eq in E. subst k'.
      assert (str_eqb k k0 = false) as -> by (apply str_eqb_neq; congruence).
      reflexivity.
    + now rewrite IH.
Qed.

Lemma lookup_setitem (V : Type) (k k0 : str) (v : V) (d : list (str * V)) :
  lookup k0 (setitem k v d) = if str_eqb k k0 then Some v else lookup k0 d.
Proof.
  destruct (str_eqb k k0) eqn:E.
  - apply str_eqb_eq in E. subst. apply lookup_setitem_same.
  - apply lookup_setitem_other. apply str_eqb_neq in E. congruence.
Qed.

Lemma setitem_fresh (V : Type) (k : str) (v : V) (d : list (str * V)) :
  lookup k d = None -> setitem k v d = d ++ [(k, v)].
Proof.
  induction d as [|[k' v'] d IH]; simpl; [reflexivity|].
  destruct (str_eqb k' k); [discriminate|].
  intros H. now rewrite IH.
Qed.

Lemma setitem_keys (V : Type) (k k0 : str) (v : V) (d : list (str * V)) :
  In k0 (map fst (setitem k v d)) <-> k0 = k \/ In k0 (map fst d).
Proof.
  induction d as [|[k' v'] d IH]; simpl.
  - intuition.
  - destruct (str_eqb k' k) eqn:E; simpl.
    + apply str_eqb_eq in E. subst. intuition.
    + rewrite IH. intuition.
Qed.

Lemma setitem_nodup (V : Type) (k : str) (v : V) (d : list (str * V)) :
  NoDup (map fst d) -> NoDup (map fst (setitem k v d)).
Proof.
  induction d as [|[k' v'] d IH]; simpl; intros H.
  - repeat constructor. intros [].
  - inversion H as [|? ? Hn Hd]; subst.
    destruct (str_eqb k' k) eqn:E; simpl.
    + apply str_eqb_eq in E. subst. now constructor.
    + constructor; [|now apply IH].
      rewrite setitem_keys. intros [->|Hin]; [|contradiction].
      rewrite str_eqb_refl in E. discriminate.
Qed.

Lemma update_nodup (V : Type) (c d : list (str * V)) :
  NoDup (map fst d) -> NoDup (map fst (update d c)).
Proof.
  unfold update. revert d.
  induction c as [|[k v] c IH]; intros d H; simpl; [exact H|].
  apply IH. now apply setitem_nodup.
Qed.

(** The value of a key after [update]: its last binding in the other
    dictionary, or else the one it had. *)
Lemma lookup_update (V : Type) (k : str) (c d : list (str * V)) :
  lookup k (update d c) =
  match lookup k (rev c) with
  | Some v => Some v
  | None => lookup k d
  end.
Proof.
  unfold update. revert d.
  induction c as [|[k' v'] c IH]; intros d; simpl; [reflexivity|].
  rewrite IH, DictFacts.lookup_app.
  destruct (lookup k (rev c)); [reflexivity|].
  simpl. rewrite lookup_setitem.
  now destruct (str_eqb k' k).
Qed.

Lemma lookup_rev_nodup (V : Type) (k : str) (d : list (str * V)) :
  NoDup (map fst d) -> lookup k (rev d) = lookup k d.
Proof.
  induction d as [|[k' v'] d IH]; simpl; intros H; [reflexivity|].
  inversion H as [|? ? Hn Hd]; subst.
  rewrite DictFacts.lookup_app, (IH Hd). simpl.
  destruct (str_eqb k' k) eqn:E.
  - apply str_eqb_eq in E. subst.
    apply DictFacts.lookup_none in Hn. now rewrite Hn.
  - now destruct (lookup k d).
Qed.

Lemma compile_all_ok (compile : Compiler) (ps : list (str * str)) :
  forall acc,
    (exists out, compile_all compile acc ps = Ok out) <->
    Forall (fun lp => compiled compile (snd lp) <> None) ps.
Proof.
  induction ps as [|[l p] ps IH]; intros acc; simpl.
  - split; [constructor|eauto].
  - unfold compiled at 1. destruct (compile p) as [c|e] eqn:E.
    + rewrite IH. split.
      * intros H. constructor; [simpl; unfold compiled; rewrite E; congruence|exact H].
      * intros H. now inversion H.
    + split.
      * intros [out H]. destruct e; discriminate.
      * intros H. inversion H as [|? ? H1 _]; subst. simpl in H1.
        unfold compiled in H1. rewrite E in H1. congruence.
Qed.

(** The compiled pattern of a label: that of its last pattern in the
    list, or else the one already there. *)
Lemma compile_all_lookup (compile : Compiler) (k : str)
      (ps : list (str * str)) :
  forall acc out,
    compile_all compile acc ps = Ok out ->
    lookup k out =
    match lookup k (rev ps) with
    | Some p => compiled compile p
    | None => lookup k acc
    end.
Proof.
  induction ps as [|[l p] ps IH]; intros acc out; simpl.
  - intros H. now injection H as <-.
  - destruct (compile p) as [c|e] eqn:E; [|destruct e; discriminate].
    intros H. rewrite (IH _ _ H), DictFacts.lookup_app.
    destruct (lookup k (rev ps)); [reflexivity|].
    simpl. rewrite lookup_setitem.
    destruct (str_eqb l k) eqn:El; [|reflexivity].
    unfold compiled. now rewrite E.
Qed.

Lemma default_patterns_nodup : NoDup (map fst default_patterns).
Proof.
  vm_compute.
  repeat (constructor;
          [simpl; intros H;
           repeat (destruct H as [H|H]; [discriminate H|]); exact H|]).
  constructor.
Qed.

(** The compiled patterns of a masker built from custom patterns. *)
Lemma regex_init_lookup (compile : Compiler) (custom : list (str * str))
      (r : RegexNER.t) (k : str) :
  RegexNER_init compile (update default_patterns custom) = Ok r ->
  lookup k (RegexNER.patterns r) =
  match lookup k (rev custom) with
  | Some p => compiled compile p
  | None => match lookup k default_patterns with
            | Some p => compiled compile p
            | None => None
            end
  end.
Proof.
  unfold RegexNER_init.
  destruct (compile_all compile [] (update default_patterns custom))
    as [out|] eqn:E; [|discriminate].
  cbn [bind]. intros H. injection H as <-. cbn [RegexNER.patterns].
  rewrite (compile_all_lookup compile k _ _ E).
  rewrite lookup_rev_nodup
    by (apply update_nodup, default_patterns_nodup).
  rewrite lookup_update.
  destruct (lookup k (rev custom)); [reflexivity|].
  now destruct (lookup k default_patterns).
Qed.

Lemma strategies_differ :
  lit "regex_only" <> lit "llm_only" /\
  lit "regex_only" <> lit "hybrid" /\
  lit "llm_only" <> lit "hybrid".
Proof. repeat split; vm_compute; discriminate. Qed.

End SetupFacts.

(** X17.  Constructing a [DataMasker] succeeds exactly
    when the salt has at least eight characters and the strategy is
    [regex_only] or [hybrid] with every pattern (the defaults updated
    with the custom ones) accepted by [re.compile], or [llm_only] with a
    completion function; the hybrid strategy does not need one.  Every
    failure, an unknown strategy included, is a [MaskingError]. *)
Theorem init_succeeds_iff (compile : Setup.Compiler) (salt : str)
        (custom : option (list (str * str)))
        (caller : option (str -> result str))
        (types : option (list str)) (strategy : str) :
  let patterns :=
    match custom with
    | Some c => Dict.update Setup.default_patterns c
    | None => Setup.default_patterns
    end in
  let compiles :=
    Forall (fun lp => Recogniser.compiled compile (snd lp) <> None) patterns in
  ((exists masker,
       Setup.init compile salt custom caller types strategy = Ok masker) <->
   8 <= len salt /\
   ((strategy = lit "regex_only" /\ compiles) \/
    (strategy = lit "llm_only" /\ caller <> None) \/
    (strategy = lit "hybrid" /\ compiles))) /\
  (forall e, Setup.init compile salt custom caller types strategy = Raise e ->
             e = MaskingError).
Proof.
  intros patterns compiles.
  destruct SetupFacts.strategies_differ as (D1 & D2 & D3).
  unfold Setup.init, Setup._validate_salt. fold patterns.
  destruct (len salt <? 8) eqn:Es; cbn [bind].
  { apply Z.ltb_lt in Es. split.
    - split; [intros [m H]; discriminate|intros [H _]; lia].
    - intros e H. now injection H as <-. }
  apply Z.ltb_ge in Es.
  assert (Hc := SetupFacts.compile_all_ok compile patterns []).
  fold compiles in Hc.
  unfold Setup._init_ner, Setup.RegexNER_init.
  destruct (str_eqb strategy (lit "regex_only")) eqn:E1.
  { apply EqFacts.str_eqb_eq in E1. subst strategy.
    destruct (Setup.compile_all compile [] patterns) as [out|] eqn:Ec;
      cbn [bind reraise_as].
    - split; [|discriminate].
      split; [|eauto]. intros _. split; [exact Es|]. left.
      split; [reflexivity|]. apply Hc. eauto.
    - split; [|intros e' H; now injection H as <-].
      split; [intros [m H]; discriminate|].
      intros (_ & [[_ H]|[[H _]|[H _]]]); try congruence.
      apply Hc in H. destruct H as [out H]. discriminate. }
  apply EqFacts.str_eqb_neq in E1.
  destruct (str_eqb strategy (lit "llm_only")) eqn:E2.
  { apply EqFacts.str_eqb_eq in E2. subst strategy.
    destruct caller as [f|]; cbn [bind reraise_as].
    - split; [|discriminate].
      split; [|eauto]. intros _. split; [exact Es|].
      right. left. split; [reflexivity|discriminate].
    - split; [|intros e' H; now injection H as <-].
      split; [intros [m H]; discriminate|].
      intros (_ & [[H _]|[[_ H]|[H _]]]); congruence. }
  apply EqFacts.str_eqb_neq in E2.
  destruct (str_eqb strategy (lit "hybrid")) eqn:E3.
  { apply EqFacts.str_eqb_eq in E3. subst strategy.
    destruct (Setup.compile_all compile [] patterns) as [out|] eqn:Ec;
      cbn [bind reraise_as HybridNER.init].
    - split; [|discriminate].
      split; [|eauto]. intros _. split; [exact Es|]. right. right.
      split; [reflexivity|]. apply Hc. eauto.
    - split; [|intros e' H; now injection H as <-].
      split; [intros [m H]; discriminate|].
      intros (_ & [[H _]|[[H _]|[_ H]]]); try congruence.
      apply Hc in H. destruct H as [out H]. discriminate. }
  apply EqFacts.str_eqb_neq in E3. cbn [bind reraise_as].
  split; [|intros e' H; now injection H as <-].
  split; [intros [m H]; discriminate|].
  intros (_ & [[H _]|[[H _]|[H _]]]); congruence.
Qed.

Lemma init_succeeds_iff_witness :
  exists masker,
    Setup.init MoreExamples.accepting_compiler (lit "s0000000") None None None
               (lit "hybrid") = Ok masker.
Proof.
  apply (proj2 (proj1 (@init_succeeds_iff MoreExamples.accepting_compiler
                         (lit "s0000000") None None None (lit "hybrid")))).
  split; [vm_compute; discriminate|]. right. right.
  split; [reflexivity|].
  apply Forall_forall. intros lp _.
  unfold Recogniser.compiled, MoreExamples.accepting_compiler. discriminate.
Defined.

(** X18.  In a masker built with
    the strategy [regex_only] or [hybrid], the pattern of a label is the
    compiled custom pattern of that label when there is one, and else the
    compiled default pattern; a label with neither has no pattern.  The
    masker starts with its salt and no last entities. *)
Theorem init_custom_pattern_overrides_default
        (compile : Setup.Compiler) (salt : str) (custom : list (str * str))
        (caller : option (str -> result str)) (types : option (list str))
        (strategy : str) (masker : DataMasker.t) :
  strategy = lit "regex_only" \/ strategy = lit "hybrid" ->
  Setup.init compile salt (Some custom) caller types strategy = Ok masker ->
  DataMasker.salt masker = salt /\
  DataMasker.get_last_entities masker = [] /\
  exists r,
    Recogniser.regex_of (DataMasker.ner masker) = Some r /\
    forall label,
      Dyn.lookup label (RegexNER.patterns r) =
      match Dyn.lookup label (rev custom) with
      | Some p => Recogniser.compiled compile p
      | None => match Dyn.lookup label Setup.default_patterns with
                | Some p => Recogniser.compiled compile p
                | None => None
                end
      end.
Proof.
  intros Hs. unfold Setup.init.
  destruct (Setup._validate_salt salt); [|discriminate]. cbn [bind].
  unfold Setup._init_ner.
  destruct (Setup.RegexNER_init compile
              (Dict.update Setup.default_patterns custom)) as [r|] eqn:Er.
  2:{ destruct Hs as [-> | ->]; vm_compute str_eqb; cbn [bind reraise_as];
      discriminate. }
  destruct Hs as [-> | ->]; vm_compute str_eqb; cbn [bind reraise_as];
    intros H; injection H as <-;
    (split; [reflexivity|]; split; [reflexivity|]; exists r;
     split; [reflexivity|];
     intros label; now apply SetupFacts.regex_init_lookup).
Qed.

Lemma init_custom_pattern_overrides_default_witness :
  let custom := [(lit "ACCT", lit "[0-9]+"); (lit "URL", lit "[0-9]+")] in
  exists masker r,
    Setup.init MoreExamples.accepting_compiler (lit "s0000000") (Some custom)
               None None (lit "regex_only") = Ok masker /\
    Recogniser.regex_of (DataMasker.ner masker) = Some r /\
    Dyn.lookup (lit "URL") (RegexNER.patterns r) = Some Re.digits_pattern /\
    Dyn.lookup (lit "ACCT") (RegexNER.patterns r) = Some Re.digits_pattern /\
    Dyn.lookup (lit "IPV4") (RegexNER.patterns r) = Some (fun _ => []) /\
    Dyn.lookup (lit "NAME") (RegexNER.patterns r) = None.
Proof.
  intros custom.
  destruct (Setup.init MoreExamples.accepting_compiler (lit "s0000000")
              (Some custom) None None (lit "regex_only"))
    as [masker|] eqn:E; [|vm_compute in E; discriminate E].
  destruct (@init_custom_pattern_overrides_default
              MoreExamples.accepting_compiler (lit "s0000000") custom None None
              (lit "regex_only") masker (or_introl eq_refl) E)
    as (_ & _ & r & Hr & Hl).
  exists masker, r. split; [reflexivity|]. split; [exact Hr|].
  rewrite !Hl. vm_compute. repeat split.
Defined.

(** X19.  [add_pattern] succeeds exactly when
    [re.compile] returns a pattern and the recogniser is the pattern
    recogniser or a hybrid one holding a pattern recogniser.  It raises
    [MaskingError] when the recogniser holds no pattern recogniser, and
    when [re.compile] raises [re.error]; any other exception of
    [re.compile] leaves [add_pattern] as it is, not as a [MaskingError].
    When it succeeds, the label has the new compiled pattern, every
    other label keeps its pattern, and salt and last entities are as
    before. *)
Theorem add_pattern_effect (compile : Setup.Compiler) (self : DataMasker.t)
        (name pattern : str) :
  ((exists self', Setup.add_pattern compile self name pattern = Ok self') <->
   (exists p, compile pattern = Ok p) /\
   Recogniser.regex_of (DataMasker.ner self) <> None) /\
  (Recogniser.regex_of (DataMasker.ner self) = None ->
   Setup.add_pattern compile self name pattern = Raise MaskingError) /\
  (Recogniser.regex_of (DataMasker.ner self) <> None ->
   compile pattern = Raise ReError ->
   Setup.add_pattern compile self name pattern = Raise MaskingError) /\
  (forall e,
      Recogniser.regex_of (DataMasker.ner self) <> None ->
      compile pattern = Raise e -> e <> ReError ->
      Setup.add_pattern compile self name pattern = Raise e) /\
  (forall self',
      Setup.add_pattern compile self name pattern = Ok self' ->
      DataMasker.salt self' = DataMasker.salt self /\
      DataMasker.get_last_entities self' = DataMasker.get_last_entities self /\
      exists r r' p,
        compile pattern = Ok p /\
        Recogniser.regex_of (DataMasker.ner self) = Some r /\
        Recogniser.regex_of (DataMasker.ner self') = Some r' /\
        forall label,
          Dyn.lookup label (RegexNER.patterns r') =
          if str_eqb name label then Some p
          else Dyn.lookup label (RegexNER.patterns r)).
Proof.
  unfold Setup.add_pattern, Recogniser.regex_of.
  destruct (DataMasker.ner self) as [r|l|h] eqn:En.
  - destruct (compile pattern) as [p|e] eqn:Ec.
    + split; [split; [intros _; split; [eauto|discriminate]|eauto]|].
      split; [discriminate|]. split; [discriminate|].
      split; [discriminate|].
      intros self' H. injection H as <-. cbn.
      split; [reflexivity|]. split; [reflexivity|].
      exists r. eexists. exists p.
      split; [reflexivity|]. split; [reflexivity|]. split; [reflexivity|].
      intros label. cbn. apply SetupFacts.lookup_setitem.
    + split.
      { split; [intros [s H]; destruct e; discriminate
               |intros [[p H] _]; discriminate]. }
      split; [discriminate|].
      split; [intros _ H; injection H as ->; reflexivity|].
      split; [intros e' _ H Hne; injection H as ->;
              destruct e'; congruence|].
      intros self' H. destruct e; discriminate.
  - split; [split; [intros [s H]; discriminate|intros [_ H]; congruence]|].
    split; [reflexivity|]. split; [congruence|]. split; [congruence|].
    discriminate.
  - destruct (HybridNER.regex_ner h) as [r|] eqn:Er.
    + destruct (compile pattern) as [p|e] eqn:Ec.
      * split; [split; [intros _; split; [eauto|discriminate]|eauto]|].
        split; [discriminate|]. split; [discriminate|].
        split; [discriminate|].
        intros self' H. injection H as <-. cbn.
        split; [reflexivity|]. split; [reflexivity|].
        exists r. eexists. exists p.
        split; [reflexivity|]. split; [reflexivity|]. split; [reflexivity|].
        intros label. cbn. apply SetupFacts.lookup_setitem.
      * split.
        { split; [intros [s H]; destruct e; discriminate
                 |intros [[p H] _]; discriminate]. }
        split; [discriminate|].
        split; [intros _ H; injection H as ->; reflexivity|].
        split; [intros e' _ H Hne; injection H as ->;
                destruct e'; congruence|].
        intros self' H. destruct e; discriminate.
    + split; [split; [intros [s H]; discriminate|intros [_ H]; congruence]|].
      split; [reflexivity|]. split; [congruence|]. split; [congruence|].
      discriminate.
Qed.

Lemma add_pattern_effect_witness :
  (exists self',
      Setup.add_pattern MoreExamples.digits_compiler Examples.email_masker
                        (lit "NUM") (lit "[0-9]+") = Ok self') /\
  Setup.add_pattern MoreExamples.digits_compiler Examples.email_masker
                    (lit "BIG") (lit "a{4294967295}") = Raise OverflowError /\
  Setup.add_pattern MoreExamples.digits_compiler Examples.email_masker
                    (lit "BAD") (lit "a(") = Raise MaskingError.
Proof.
  split; [|split].
  - apply (proj2 (proj1 (@add_pattern_effect MoreExamples.digits_compiler
                           Examples.email_masker (lit "NUM") (lit "[0-9]+")))).
    split; [eexists; reflexivity|discriminate].
  - apply (proj1 (proj2 (proj2 (proj2
             (@add_pattern_effect MoreExamples.digits_compiler
                Examples.email_masker (lit "BIG") (lit "a{4294967295}")))))).
    + discriminate.
    + vm_compute. reflexivity.
    + discriminate.
  - apply (proj1 (proj2 (proj2
             (@add_pattern_effect MoreExamples.digits_compiler
                Examples.email_masker (lit "BAD") (lit "a("))))).
    + discriminate.
    + vm_compute. reflexivity.
Defined.

(** X20.  After a pattern has been added
    under a label that had none, the pattern recogniser finds what it
    found before, in the same order, followed by the matches of the new
    pattern under the new label. *)
Theorem add_pattern_extends_extraction
        (compile : Setup.Compiler) (self self' : DataMasker.t)
        (r : RegexNER.t) (name pattern : str) :
  DataMasker.ner self = DataMasker.Regex r ->
  Dyn.lookup name (RegexNER.patterns r) = None ->
  Setup.add_pattern compile self name pattern = Ok self' ->
  exists p,
    compile pattern = Ok p /\
    forall lib source,
      DataMasker.get_entities lib self' source =
      Ok (RegexNER.extract_entities r source
          ++ Recogniser.matches name p source).
Proof.
  intros Hn Hfresh. unfold Setup.add_pattern. rewrite Hn.
  destruct (compile pattern) as [p|e]; [|destruct e; discriminate].
  intros H. injection H as <-. exists p. split; [reflexivity|].
  intros lib source. unfold DataMasker.get_entities. cbn.
  rewrite (@SetupFacts.setitem_fresh _ name p _ Hfresh).
  unfold RegexNER.extract_entities. cbn [RegexNER.patterns].
  rewrite flat_map_app. cbn [flat_map]. now rewrite app_nil_r.
Qed.

Lemma add_pattern_extends_extraction_witness :
  exists p,
    MoreExamples.digits_compiler (lit "[0-9]+") = Ok p /\
    forall lib source,
      DataMasker.get_entities lib
        (DataMasker.mk (lit "s0000000")
           (DataMasker.Regex
              (RegexNER.mk [(lit "EMAIL", Re.literal_pattern (lit "a@b.com"));
                            (lit "NUM", Re.digits_pattern)]))
           []) source =
      Ok (RegexNER.extract_entities
            (RegexNER.mk [(lit "EMAIL", Re.literal_pattern (lit "a@b.com"))])
            source
          ++ Recogniser.matches (lit "NUM") p source).
Proof.
  apply (@add_pattern_extends_extraction MoreExamples.digits_compiler
           Examples.email_masker _
           (RegexNER.mk [(lit "EMAIL", Re.literal_pattern (lit "a@b.com"))])
           (lit "NUM") (lit "[0-9]+")).
  - reflexivity.
  - vm_compute. reflexivity.
  - vm_compute. reflexivity.
Defined.

(** ** The pipeline *)

Module PipelineFacts.
Import Dyn Dict DataMasker RAGGuard EqFacts SetupFacts.

(** What [mask] returns depends on the salt and the recogniser only, and
    it leaves both as they are. *)
Lemma mask_fst_indep (lib : PyLib) (m1 m2 : DataMasker.t) (source : str) :
  salt m1 = salt m2 -> ner m1 = ner m2 ->
  fst (mask lib m1 source) = fst (mask lib m2 source).
Proof.
  intros Hs Hn. unfold mask. rewrite Hs, Hn.
  destruct (extract_entities lib (ner m2) source) as [es|]; [|reflexivity].
  cbn [salt].
  destruct (mask_loop (salt m2) (source, []) (sorted_reverse start es))
    as [[s mp]|]; reflexivity.
Qed.

Lemma mask_snd_same (lib : PyLib) (m : DataMasker.t) (source : str) :
  salt (snd (mask lib m source)) = salt m /\
  ner (snd (mask lib m source)) = ner m.
Proof.
  unfold mask.
  destruct (extract_entities lib (ner m) source) as [es|]; [|now split].
  cbn [salt].
  destruct (mask_loop (salt m) (source, []) (sorted_reverse start es))
    as [[s mp]|]; now split.
Qed.

Lemma mask_error (lib : PyLib) (m : DataMasker.t) (source : str) (e : exn) :
  fst (mask lib m source) = Raise e -> e = MaskingError.
Proof.
  unfold mask.
  destruct (extract_entities lib (ner m) source) as [es|];
    [|cbn; congruence].
  cbn [salt].
  destruct (mask_loop (salt m) (source, []) (sorted_reverse start es))
    as [[s mp]|]; cbn; congruence.
Qed.

Lemma mask_mapping_nodup (lib : PyLib) (m : DataMasker.t) (source masked : str)
      (mp : Mapping) (es : list Entity) :
  fst (mask lib m source) = Ok (masked, mp, es) -> NoDup (map fst mp).
Proof.
  destruct (mask lib m source) as [r m'] eqn:E. cbn [fst]. intros ->.
  apply MappingFacts.mask_ok in E. destruct E as (ex & _ & _ & Hloop & _).
  apply (@MappingFacts.mask_loop_nodup _ _ _ _ _ _ Hloop). constructor.
Qed.

(** The chunk mappings merged into the combined mapping, in order. *)
Lemma prepare_loop_ok (lib : PyLib) (n : Z) (m0 : DataMasker.t)
      (chunks : list str) :
  forall m acc ms mp m',
    salt m = salt m0 -> ner m = ner m0 ->
    prepare_loop lib n m acc chunks = (Ok (ms, mp), m') ->
    (salt m' = salt m0 /\ ner m' = ner m0) /\
    exists results : list (str * Mapping),
      Forall2 (fun chunk r =>
                 exists es, fst (mask lib m0 (cut n chunk))
                            = Ok (fst r, snd r, es))
              chunks results /\
      ms = fst acc ++ map fst results /\
      mp = fold_left (fun a r => update a (snd r)) results (snd acc).
Proof.
  induction chunks as [|chunk chunks IH]; intros m acc ms mp m' Hs Hn H.
  - cbn [prepare_loop] in H. destruct acc as [a1 a2].
    injection H as <- <- <-.
    split; [now split|]. exists []. split; [constructor|].
    split; [cbn; now rewrite app_nil_r|reflexivity].
  - cbn [prepare_loop] in H.
    pose proof (mask_fst_indep lib m m0 (cut n chunk) Hs Hn) as Hf.
    destruct (mask_snd_same lib m (cut n chunk)) as [Hs1 Hn1].
    destruct (mask lib m (cut n chunk)) as [[[[mc mpc] esc]|e] m1];
      [|discriminate].
    cbn [fst snd] in *.
    apply IH in H; [|congruence|congruence].
    destruct H as (Hm' & results & HF & -> & ->).
    split; [exact Hm'|].
    exists ((mc, mpc) :: results). split; [|split].
    + constructor; [|exact HF]. exists esc. now rewrite <- Hf.
    + cbn [fst map]. now rewrite <- app_assoc.
    + reflexivity.
Qed.

Lemma prepare_loop_total (lib : PyLib) (n : Z) (m0 : DataMasker.t)
      (chunks : list str) :
  Forall (fun chunk => exists r, fst (mask lib m0 (cut n chunk)) = Ok r)
         chunks ->
  forall m acc,
    salt m = salt m0 -> ner m = ner m0 ->
    exists r m', prepare_loop lib n m acc chunks = (Ok r, m').
Proof.
  induction 1 as [|chunk chunks [r Hr] _ IH]; intros m acc Hs Hn.
  - cbn [prepare_loop]. eauto.
  - cbn [prepare_loop].
    pose proof (mask_fst_indep lib m m0 (cut n chunk) Hs Hn) as Hf.
    destruct (mask_snd_same lib m (cut n chunk)) as [Hs1 Hn1].
    destruct (mask lib m (cut n chunk)) as [[[[mc mpc] esc]|e] m1];
      cbn [fst snd] in *; [|congruence].
    apply IH; congruence.
Qed.

Lemma prepare_loop_fails (lib : PyLib) (n : Z) (m0 : DataMasker.t)
      (chunks : list str) :
  forall m acc e m',
    salt m = salt m0 -> ner m = ner m0 ->
    prepare_loop lib n m acc chunks = (Raise e, m') ->
    e = MaskingError /\
    exists chunk, In chunk chunks /\
                  fst (mask lib m0 (cut n chunk)) = Raise MaskingError.
Proof.
  induction chunks as [|chunk chunks IH]; intros m acc e m' Hs Hn H.
  - cbn [prepare_loop] in H. discriminate.
  - cbn [prepare_loop] in H.
    pose proof (mask_fst_indep lib m m0 (cut n chunk) Hs Hn) as Hf.
    destruct (mask_snd_same lib m (cut n chunk)) as [Hs1 Hn1].
    pose proof (@mask_error lib m (cut n chunk)) as He.
    destruct (mask lib m (cut n chunk)) as [[[[mc mpc] esc]|e1] m1];
      cbn [fst snd] in *.
    + apply IH in H; [|congruence|congruence].
      destruct H as (-> & c & Hc & Hm). split; [reflexivity|].
      exists c. split; [now right|exact Hm].
    + injection H as <- <-. rewrite (He e1 eq_refl) in *.
      split; [reflexivity|]. exists chunk. split; [now left|].
      now rewrite <- Hf.
Qed.

Lemma update_keys (V : Type) (k : str) (c d : list (str * V)) :
  In k (map fst (update d c)) <-> In k (map fst d) \/ In k (map fst c).
Proof.
  unfold update. revert d.
  induction c as [|[k' v'] c IH]; intros d; simpl; [tauto|].
  rewrite IH, setitem_keys. intuition.
Qed.

Lemma lookup_rev_none (V : Type) (k : str) (d : list (str * V)) :
  lookup k d = None -> lookup k (rev d) = None.
Proof.
  rewrite !DictFacts.lookup_none, map_rev. intros H Hin. apply H.
  now apply in_rev.
Qed.

Lemma merged_lookup_none (k : str) (results : list (str * Mapping)) :
  forall a,
    Forall (fun r => lookup k (snd r) = None) results ->
    lookup k (fold_left (fun a r => update a (snd r)) results a) = lookup k a.
Proof.
  induction results as [|r results IH]; intros a H; simpl; [reflexivity|].
  inversion H as [|? ? Hr Hrs]; subst.
  rewrite (IH _ Hrs), lookup_update, (lookup_rev_none _ _ Hr). reflexivity.
Qed.

Lemma merged_keys (k : str) (results : list (str * Mapping)) :
  forall a,
    In k (map fst (fold_left (fun a r => update a (snd r)) results a)) <->
    In k (map fst a) \/ exists r, In r results /\ In k (map fst (snd r)).
Proof.
  induction results as [|r results IH]; intros a; simpl.
  - split; [tauto|intros [H|(r & [] & _)]; exact H].
  - rewrite IH, update_keys. split.
    + intros [[H|H]|(r' & Hr' & H)]; eauto.
    + intros [H|(r' & [<-|Hr'] & H)]; eauto.
Qed.

End PipelineFacts.

(** X21.  When [prepare_chunks] returns, it
    returns one masked chunk for each chunk, in order, each being what
    [mask] returns for that chunk (cut to the maximal length and marked
    when longer); the keys of the combined mapping are exactly the keys
    of the mappings of the chunks; and the masker keeps its salt and
    recogniser. *)
Theorem prepare_chunks_masks_each (lib : Dyn.PyLib) (masker masker' : DataMasker.t)
        (chunks masked : list str) (max_chunk_length : option Z)
        (mapping : DataMasker.Mapping) :
  RAGGuard.prepare_chunks lib masker chunks max_chunk_length
  = (Ok (masked, mapping), masker') ->
  let n := match max_chunk_length with Some n => n | None => 10000 end in
  Forall2 (fun chunk m =>
             exists mp es,
               fst (DataMasker.mask lib masker (RAGGuard.cut n chunk))
               = Ok (m, mp, es))
          chunks masked /\
  (forall k,
      In k (map fst mapping) <->
      exists chunk m mp es,
        In chunk chunks /\
        fst (DataMasker.mask lib masker (RAGGuard.cut n chunk)) = Ok (m, mp, es) /\
        In k (map fst mp)) /\
  DataMasker.salt masker' = DataMasker.salt masker /\
  DataMasker.ner masker' = DataMasker.ner masker.
Proof.
  intros H n. unfold RAGGuard.prepare_chunks in H. fold n in H.
  apply (@PipelineFacts.prepare_loop_ok lib n masker) in H; auto.
  destruct H as ((Hs & Hn) & results & HF & -> & ->).
  cbn [fst snd app].
  split; [|split; [|now split]].
  - clear Hs Hn. induction HF as [|c r cs rs (es & Hr) _ IH]; cbn [map];
      constructor; eauto.
  - intros k. rewrite PipelineFacts.merged_keys. cbn [map In]. split.
    + intros [[]|(r & Hr & Hk)].
      clear Hs Hn. induction HF as [|c r' cs rs (es & Hr') _ IH];
        [destruct Hr|].
      destruct Hr as [<-|Hr].
      * exists c, (fst r'), (snd r'), es. split; [now left|]. now split.
      * destruct (IH Hr) as (c' & m & mp & es' & Hc' & Hm & Hk').
        exists c', m, mp, es'. split; [now right|]. now split.
    + intros (c & m & mp & es & Hc & Hm & Hk). right.
      clear Hs Hn. induction HF as [|c' r' cs rs (es' & Hr') _ IH];
        [destruct Hc|].
      destruct Hc as [->|Hc].
      * exists r'. split; [now left|].
        rewrite Hm in Hr'. injection Hr' as _ <- _. exact Hk.
      * destruct (IH Hc) as (r & Hr & Hkr). exists r. split; [now right|].
        exact Hkr.
Qed.

Lemma prepare_chunks_masks_each_witness :
  let tk := lit "<RG:ACCT:xmiv2rqd>" in
  let chunks := [lit "1000987594"; lit "no number"; lit "1001986883"] in
  Forall2 (fun chunk m =>
             exists mp es,
               fst (DataMasker.mask Examples.lib_reject Examples.account_masker
                                    (RAGGuard.cut 10000 chunk))
               = Ok (m, mp, es))
          chunks [tk; lit "no number"; tk] /\
  (forall k,
      In k (map fst [(tk, lit "1001986883")]) <->
      exists chunk m mp es,
        In chunk chunks /\
        fst (DataMasker.mask Examples.lib_reject Examples.account_masker
                             (RAGGuard.cut 10000 chunk)) = Ok (m, mp, es) /\
        In k (map fst mp)) /\
  DataMasker.salt
    (DataMasker.mk (lit "s0000000") (DataMasker.Regex Examples.account_ner)
       [mkEntity (lit "1001986883") (PyStr (lit "ACCT")) 0 10 (FFin 1)])
  = DataMasker.salt Examples.account_masker /\
  DataMasker.ner
    (DataMasker.mk (lit "s0000000") (DataMasker.Regex Examples.account_ner)
       [mkEntity (lit "1001986883") (PyStr (lit "ACCT")) 0 10 (FFin 1)])
  = DataMasker.ner Examples.account_masker.
Proof.
  intros tk chunks.
  apply (@prepare_chunks_masks_each Examples.lib_reject Examples.account_masker
           _ chunks [tk; lit "no number"; tk] None [(tk, lit "1001986883")]).
  vm_compute. reflexivity.
Defined.

(** X22.  [prepare_chunks] returns exactly
    when [mask] returns for every chunk; when [mask] raises for some
    chunk, [prepare_chunks] raises [MaskingError] and returns nothing,
    the chunks masked before included. *)
Theorem prepare_chunks_succeeds_iff (lib : Dyn.PyLib) (masker : DataMasker.t)
        (chunks : list str) (max_chunk_length : option Z) :
  let n := match max_chunk_length with Some n => n | None => 10000 end in
  ((exists r masker',
       RAGGuard.prepare_chunks lib masker chunks max_chunk_length
       = (Ok r, masker')) <->
   Forall (fun chunk =>
             exists r, fst (DataMasker.mask lib masker (RAGGuard.cut n chunk))
                       = Ok r)
          chunks) /\
  (forall e,
      fst (RAGGuard.prepare_chunks lib masker chunks max_chunk_length)
      = Raise e -> e = MaskingError).
Proof.
  intros n. unfold RAGGuard.prepare_chunks. fold n. split.
  - split.
    + intros ([ms mp] & m' & H).
      apply (@PipelineFacts.prepare_loop_ok lib n masker) in H; auto.
      destruct H as (_ & results & HF & _).
      induction HF as [|c r cs rs (es & Hr) _ IH]; constructor; eauto.
    + intros H. now apply (@PipelineFacts.prepare_loop_total lib n masker).
  - intros e H.
    destruct (RAGGuard.prepare_loop lib n masker ([], []) chunks)
      as [r m'] eqn:E.
    cbn [fst] in H. subst r.
    apply (@PipelineFacts.prepare_loop_fails lib n masker) in E; auto.
    tauto.
Qed.

Lemma prepare_chunks_succeeds_iff_witness :
  exists r masker',
    RAGGuard.prepare_chunks Examples.lib_reject Examples.account_masker
                            [lit "1000987594"; lit "no number"] None
    = (Ok r, masker').
Proof.
  apply (proj2 (proj1 (@prepare_chunks_succeeds_iff Examples.lib_reject
                         Examples.account_masker
                         [lit "1000987594"; lit "no number"] None))).
  repeat constructor; eexists; vm_compute; reflexivity.
Defined.

(** X23.  In the combined mapping a token
    stands for the value it has in the mapping of the last chunk that
    holds it: when two chunks give one token to different values, the
    value of the earlier chunk is lost. *)
Theorem prepare_chunks_last_chunk_wins
        (lib : Dyn.PyLib) (masker masker' : DataMasker.t)
        (before after masked : list str) (chunk : str)
        (max_chunk_length : option Z) (mapping mp : DataMasker.Mapping)
        (m : str) (es : list Entity) (k v : str) :
  let n := match max_chunk_length with Some n => n | None => 10000 end in
  RAGGuard.prepare_chunks lib masker (before ++ chunk :: after) max_chunk_length
  = (Ok (masked, mapping), masker') ->
  fst (DataMasker.mask lib masker (RAGGuard.cut n chunk)) = Ok (m, mp, es) ->
  Dyn.lookup k mp = Some v ->
  (forall c m' mp' es',
      In c after ->
      fst (DataMasker.mask lib masker (RAGGuard.cut n c)) = Ok (m', mp', es') ->
      Dyn.lookup k mp' = None) ->
  Dyn.lookup k mapping = Some v.
Proof.
  intros n H Hm Hk Hafter. unfold RAGGuard.prepare_chunks in H. fold n in H.
  apply (@PipelineFacts.prepare_loop_ok lib n masker) in H; auto.
  destruct H as (_ & results & HF & _ & ->). cbn [snd].
  apply Forall2_app_inv_l in HF.
  destruct HF as (rb & rr & Hb & Hr & ->).
  inversion Hr as [|? r ? ra (es' & Hr1) Ha]; subst.
  destruct r as [r1 r2]. cbn [fst snd] in Hr1.
  rewrite Hm in Hr1. injection Hr1 as _ <- _.
  rewrite fold_left_app. cbn [fold_left snd].
  rewrite PipelineFacts.merged_lookup_none.
  - rewrite SetupFacts.lookup_update.
    rewrite SetupFacts.lookup_rev_nodup, Hk; [reflexivity|].
    eapply PipelineFacts.mask_mapping_nodup; exact Hm.
  - clear Hr Hb. induction Ha as [|c r' cs rs (es1 & Hr') _ IH];
      constructor.
    + eapply Hafter; [now left|exact Hr'].
    + apply IH. intros c0 m0 mp0 es0 Hc0. apply Hafter. now right.
Qed.

Lemma prepare_chunks_last_chunk_wins_witness :
  let tk := lit "<RG:ACCT:xmiv2rqd>" in
  let last := mkEntity (lit "1001986883") (PyStr (lit "ACCT")) 0 10 (FFin 1) in
  let masker' := DataMasker.mk (lit "s0000000")
                               (DataMasker.Regex Examples.account_ner) [last] in
  RAGGuard.prepare_chunks Examples.lib_reject Examples.account_masker
                          [lit "1000987594"; lit "1001986883"] None
  = (Ok ([tk; tk], [(tk, lit "1001986883")]), masker') /\
  Dyn.lookup tk [(tk, lit "1001986883")] = Some (lit "1001986883").
Proof.
  intros tk last masker'.
  assert (H : RAGGuard.prepare_chunks Examples.lib_reject
                Examples.account_masker
                ([lit "1000987594"] ++ lit "1001986883" :: []) None
              = (Ok ([tk; tk], [(tk, lit "1001986883")]), masker'))
    by (vm_compute; reflexivity).
  split; [exact H|].
  apply (@prepare_chunks_last_chunk_wins Examples.lib_reject
           Examples.account_masker masker' [lit "1000987594"] [] [tk; tk]
           (lit "1001986883") None [(tk, lit "1001986883")]
           [(tk, lit "1001986883")] tk [last] tk (lit "1001986883") H).
  - vm_compute. reflexivity.
  - vm_compute. reflexivity.
  - intros c m' mp' es' [].
Defined.

(** *** The partial unmask *)

Module PartialFacts.
Import Dyn Dict DataMasker RAGGuard Str Shape EqFacts SetupFacts.

Lemma char_eqb_sym (a b : char) : char_eqb a b = char_eqb b a.
Proof. apply N.eqb_sym. Qed.

Lemma split_nonempty (sep : char) (s : str) : split sep s <> [].
Proof.
  induction s as [|c s IH]; simpl; [discriminate|].
  destruct (char_eqb c sep); [discriminate|].
  destruct (split sep s); [congruence|discriminate].
Qed.

Lemma split_nosep (sep : char) (a b : str) :
  existsb (char_eqb sep) a = false ->
  split sep (a ++ sep :: b) = a :: split sep b.
Proof.
  induction a as [|c a IH]; simpl.
  - now rewrite char_eqb_refl.
  - intros H. apply orb_false_iff in H. destruct H as [Hc Ha].
    rewrite char_eqb_sym, Hc, (IH Ha). reflexivity.
Qed.

Lemma split_whole (sep : char) (a : str) :
  existsb (char_eqb sep) a = false -> split sep a = [a].
Proof.
  induction a as [|c a IH]; simpl; [reflexivity|].
  intros H. apply orb_false_iff in H. destruct H as [Hc Ha].
  rewrite char_eqb_sym, Hc, (IH Ha). reflexivity.
Qed.

Lemma split_two (sep : char) (a b : str) :
  exists p q ps, split sep (a ++ sep :: b) = p :: q :: ps.
Proof.
  induction a as [|c a (p & q & ps & IH)]; simpl.
  - rewrite char_eqb_refl.
    destruct (split sep b) as [|q ps] eqn:E;
      [now apply split_nonempty in E|eauto].
  - rewrite IH. destruct (char_eqb c sep); eauto.
Qed.

Lemma existsb_first (A : Type) (f : A -> bool) (l : list A) :
  existsb f l = true ->
  exists l1 x l2, l = l1 ++ x :: l2 /\ f x = true /\ existsb f l1 = false.
Proof.
  induction l as [|y l IH]; simpl; [discriminate|].
  destruct (f y) eqn:E.
  - intros _. now exists [], y, l.
  - intros H. destruct (IH H) as (l1 & x & l2 & -> & Hx & Hl1).
    exists (y :: l1), x, l2. simpl. now rewrite E.
Qed.

Lemma lstrip_keep (chars : str) (c : char) (s : str) :
  mem c chars = false -> lstrip chars (c :: s) = c :: s.
Proof. intros H. simpl. now rewrite H. Qed.

(** Stripping the angle brackets of a framed string whose body neither
    starts nor ends with one. *)
Lemma strip_frame (b0 bl : char) (body : str) :
  mem b0 (lit "<>") = false -> mem bl (lit "<>") = false ->
  strip (lit "<>") (60%N :: b0 :: body ++ [bl; 62%N]) = b0 :: body ++ [bl].
Proof.
  intros H0 Hl. unfold strip.
  change (lstrip (lit "<>") (60%N :: b0 :: body ++ [bl; 62%N]))
    with (lstrip (lit "<>") (b0 :: body ++ [bl; 62%N])).
  rewrite lstrip_keep by exact H0.
  change (b0 :: body ++ [bl; 62%N]) with ((b0 :: body) ++ [bl; 62%N]).
  rewrite rev_app_distr.
  change (rev [bl; 62%N]) with [62%N; bl]. cbn [app].
  change (lstrip (lit "<>") (62%N :: bl :: rev (b0 :: body)))
    with (lstrip (lit "<>") (bl :: rev (b0 :: body))).
  rewrite lstrip_keep by exact Hl.
  change (bl :: rev (b0 :: body)) with ([bl] ++ rev (b0 :: body)).
  rewrite rev_app_distr, rev_involutive. reflexivity.
Qed.

Lemma lower_alnum_plain (c : char) :
  is_lower_alnum c = true ->
  mem c (lit "<>") = false /\ char_eqb 58%N c = false.
Proof.
  unfold is_lower_alnum, mem, char_eqb. intros H.
  change (lit "<>") with [60%N; 62%N]. cbn [existsb].
  destruct (N.eqb_spec c 60); [subst; discriminate|].
  destruct (N.eqb_spec c 62); [subst; discriminate|].
  destruct (N.eqb_spec 58 c); [subst; discriminate|]. now split.
Qed.

Lemma last_split (A : Type) (l : list A) :
  l <> [] -> exists l' x, l = l' ++ [x].
Proof.
  intros H. destruct (exists_last H) as (l' & x & ->). eauto.
Qed.

(** The test of the partial unmask on a token. *)
Lemma keeps_token (salt k v tok : str) (kinds : list str) :
  _token salt (PyStr k) v = Ok tok ->
  keeps kinds tok =
  negb (existsb (char_eqb 58%N) k) && existsb (str_eqb k) kinds.
Proof.
  intros H. apply TokenFacts.token_shape in H.
  destruct H as (h & -> & Hlen & Hh).
  assert (Hne : h <> []) by (intros ->; discriminate).
  destruct (last_split Hne) as (h' & hl & ->).
  rewrite forallb_app in Hh. apply andb_true_iff in Hh.
  destruct Hh as [Hh' Hhl]. cbn [forallb] in Hhl.
  rewrite andb_true_r in Hhl.
  destruct (lower_alnum_plain _ Hhl) as [Hhl1 Hhl2].
  assert (Hcolon : existsb (char_eqb 58%N) (h' ++ [hl]) = false).
  { rewrite existsb_app. cbn [existsb]. rewrite Hhl2, orb_false_r.
    apply not_true_is_false. intros E. apply existsb_exists in E.
    destruct E as (c & Hc & Ec). rewrite forallb_forall in Hh'.
    destruct (lower_alnum_plain _ (Hh' c Hc)) as [_ Hc2]. congruence. }
  unfold keeps.
  match goal with
  | |- context [strip _ ?t] =>
      assert (E : t = 60%N :: 82%N
                      :: ([71%N; 58%N] ++ k ++ [58%N] ++ h') ++ [hl; 62%N])
        by (change (lit "<RG:") with [60%N; 82%N; 71%N; 58%N];
            change (lit ":") with [58%N]; change (lit ">") with [62%N];
            cbn [app]; rewrite <- !app_assoc; reflexivity);
      rewrite E; clear E
  end.
  rewrite strip_frame by (exact Hhl1 || reflexivity).
  match goal with
  | |- context [split _ ?t] =>
      assert (E : t = [82%N; 71%N] ++ 58%N :: (k ++ 58%N :: (h' ++ [hl])))
        by (cbn [app]; rewrite <- !app_assoc; reflexivity);
      rewrite E; clear E
  end.
  rewrite split_nosep by reflexivity.
  destruct (existsb (char_eqb 58%N) k) eqn:Ek; cbn [negb andb].
  - apply existsb_first in Ek.
    destruct Ek as (k1 & x & k2 & -> & Hx & Hk1).
    apply EqFacts.char_eqb_eq in Hx. subst x.
    rewrite <- app_assoc. cbn [app].
    rewrite split_nosep by exact Hk1.
    destruct (split_two 58%N k2 (h' ++ [hl])) as (p & q & ps & E).
    match goal with
    | |- context [split ?s ?t] =>
        replace (split s t) with (p :: q :: ps) by (symmetry; exact E)
    end.
    reflexivity.
  - rewrite split_nosep by exact Ek.
    rewrite split_whole by exact Hcolon. reflexivity.
Qed.

Lemma filtered_keys (kinds : list str) (k : str) (mapping : Mapping) :
  In k (map fst (filtered kinds mapping)) <->
  In k (map fst mapping) /\ keeps kinds k = true.
Proof.
  unfold filtered.
  assert (G : forall acc,
             In k (map fst
                     (fold_left
                        (fun filtered_mapping kv =>
                           if keeps kinds (fst kv)
                           then setitem (fst kv) (snd kv) filtered_mapping
                           else filtered_mapping) mapping acc)) <->
             In k (map fst acc) \/
             (In k (map fst mapping) /\ keeps kinds k = true)).
  { induction mapping as [|[k' v'] mapping IH]; intros acc; cbn [fold_left].
    - simpl. tauto.
    - rewrite IH. cbn [fst snd map In].
      destruct (keeps kinds k') eqn:E.
      + rewrite setitem_keys. split.
        * intros [[->|H]|[H1 H2]]; auto.
        * intros [H|[[->|H1] H2]]; auto.
      + split.
        * intros [H|[H1 H2]]; auto.
        * intros [H|[[->|H1] H2]]; auto. congruence. }
  rewrite G. simpl. tauto.
Qed.

Lemma unmask_around (mapping : Mapping) (pre u post r : str) :
  Forall (fun kv => bracketed (fst kv)) mapping ->
  bracketed u ->
  lookup u mapping = None ->
  unmask (pre ++ u ++ post) mapping = Ok r ->
  exists pre' post',
    r = pre' ++ u ++ post' /\
    unmask pre mapping = Ok pre' /\
    unmask post mapping = Ok post'.
Proof.
  intros Hkeys Hu Hl H. apply UnmaskFacts.unmask_ok in H.
  apply UnmaskFacts.unmask_loop_around in H.
  - destruct H as (pre' & post' & -> & H1 & H2).
    exists pre', post'. now rewrite !UnmaskFacts.unmask_ok.
  - exact Hu.
  - apply Forall_forall. intros tk Htk.
    rewrite <- (sorted_reverse_perm len (map fst mapping)) in Htk.
    split.
    + apply in_map_iff in Htk. destruct Htk as (kv & <- & Hkv).
      rewrite Forall_forall in Hkeys. apply Hkeys, Hkv.
    + apply DictFacts.lookup_none in Hl. congruence.
Qed.

End PartialFacts.

(** X24.  The partial unmask keeps the
    entry of a token exactly when the label of the token holds no colon
    and is one of the listed kinds.  A token whose label holds a colon is
    never restored by a partial unmask, whatever is listed. *)
Theorem partial_unmask_selects_by_label (salt k v tok : str)
        (kinds : list str) :
  DataMasker._token salt (PyStr k) v = Ok tok ->
  RAGGuard.keeps kinds tok =
  negb (existsb (char_eqb 58%N) k) && existsb (str_eqb k) kinds.
Proof. apply PartialFacts.keeps_token. Qed.

Lemma partial_unmask_selects_by_label_witness :
  RAGGuard.keeps [lit "PHONE"; lit "EMAIL"] (lit "<RG:EMAIL:yls6vutv>") =
  negb (existsb (char_eqb 58%N) (lit "EMAIL"))
  && existsb (str_eqb (lit "EMAIL")) [lit "PHONE"; lit "EMAIL"].
Proof.
  apply (@partial_unmask_selects_by_label (lit "s0000000") (lit "EMAIL")
           (lit "a@b.com")).
  vm_compute. reflexivity.
Defined.

(** X25.  When the answer holds the
    token of a label that is not among the listed kinds, and the list is
    not empty, a partial unmask leaves that token where it is, and
    restores the text before it and the text after it as it would on
    their own.  The keys of the mapping are taken to be tokens with
    labels and hashes free of angle brackets, and so is the token. *)
Theorem partial_unmask_leaves_other_kinds
        (salt k v u pre post r : str) (mapping : DataMasker.Mapping)
        (kinds : list str) :
  Forall (fun kv => Shape.is_token (fst kv)) mapping ->
  DataMasker._token salt (PyStr k) v = Ok u ->
  Shape.no_angle k = true ->
  kinds <> [] ->
  existsb (str_eqb k) kinds = false ->
  RAGGuard.postprocess (pre ++ u ++ post) mapping true (Some kinds) = Ok r ->
  exists pre' post',
    r = pre' ++ u ++ post' /\
    RAGGuard.postprocess pre mapping true (Some kinds) = Ok pre' /\
    RAGGuard.postprocess post mapping true (Some kinds) = Ok post'.
Proof.
  intros Hkeys Hu Hk Hne Hkinds H.
  assert (Hbu : Shape.bracketed u).
  { apply SubFacts.is_token_bracketed.
    apply TokenFacts.token_shape in Hu. destruct Hu as (h & -> & _ & Hh).
    exists k, h. repeat split; [exact Hk|].
    now apply RoundTripFacts.lower_alnum_no_angle. }
  assert (Hb : Forall (fun kv : str * str => Shape.bracketed (fst kv)) mapping).
  { eapply Forall_impl; [|exact Hkeys].
    intros kv. apply SubFacts.is_token_bracketed. }
  unfold RAGGuard.postprocess in *. cbn [negb] in *.
  destruct kinds as [|kind kinds]; [congruence|].
  apply PartialFacts.unmask_around in H; auto.
  - apply Forall_forall. intros [k' v'] Hin. cbn [fst].
    assert (Hk' : In k' (map fst (RAGGuard.filtered (kind :: kinds) mapping)))
      by (apply in_map_iff; now exists (k', v')).
    apply PartialFacts.filtered_keys in Hk'. destruct Hk' as [Hk' _].
    apply in_map_iff in Hk'. destruct Hk' as (kv & <- & Hkv).
    rewrite Forall_forall in Hb. now apply Hb.
  - apply DictFacts.lookup_none. intros Hin.
    apply PartialFacts.filtered_keys in Hin. destruct Hin as [_ Hin].
    rewrite (@PartialFacts.keeps_token salt k v u (kind :: kinds) Hu) in Hin.
    rewrite Hkinds, andb_false_r in Hin. discriminate.
Qed.

Lemma partial_unmask_leaves_other_kinds_witness :
  let email := lit "<RG:EMAIL:yls6vutv>" in
  let acct := lit "<RG:ACCT:xmiv2rqd>" in
  let mapping := [(email, lit "a@b.com"); (acct, lit "1001986883")] in
  exists pre' post',
    lit "Mail <RG:EMAIL:yls6vutv> about 1001986883"
    = pre' ++ email ++ post' /\
    RAGGuard.postprocess (lit "Mail ") mapping true (Some [lit "ACCT"])
    = Ok pre' /\
    RAGGuard.postprocess (lit " about " ++ acct) mapping true (Some [lit "ACCT"])
    = Ok post'.
Proof.
  intros email acct mapping.
  apply (@partial_unmask_leaves_other_kinds (lit "s0000000") (lit "EMAIL")
           (lit "a@b.com") email (lit "Mail ") (lit " about " ++ acct)
           (lit "Mail <RG:EMAIL:yls6vutv> about 1001986883")
           mapping [lit "ACCT"]).
  - repeat constructor.
    + exists (lit "EMAIL"), (lit "yls6vutv"). repeat split.
    + exists (lit "ACCT"), (lit "xmiv2rqd"). repeat split.
  - vm_compute. reflexivity.
  - vm_compute. reflexivity.
  - discriminate.
  - vm_compute. reflexivity.
  - vm_compute. reflexivity.
Defined.

(** ** Helpers of utils.py *)

Module UtilsFacts.
Import Str Utils.

Lemma batches_nil (A : Type) (fuel n : nat) : @batches A fuel n [] = [].
Proof. now destruct fuel. Qed.

Lemma batches_concat (A : Type) (n : nat) (fuel : nat) :
  forall items : list A,
    (0 < n)%nat -> (length items <= fuel)%nat ->
    concat (batches fuel n items) = items.
Proof.
  induction fuel as [|fuel IH]; intros items Hn Hl.
  - destruct items; [reflexivity|simpl in Hl; lia].
  - destruct items as [|x items]; [reflexivity|].
    cbn [batches concat]. rewrite IH; [apply firstn_skipn|exact Hn|].
    rewrite length_skipn. simpl length in *. lia.
Qed.

Lemma batches_sizes (A : Type) (n : nat) (fuel : nat) :
  forall items : list A,
    (0 < n)%nat -> (length items <= fuel)%nat ->
    Forall (fun b => (0 < length b <= n)%nat) (batches fuel n items).
Proof.
  induction fuel as [|fuel IH]; intros items Hn Hl.
  - destruct items; constructor.
  - destruct items as [|x items]; [constructor|].
    cbn [batches]. constructor.
    + rewrite length_firstn. simpl length in *. lia.
    + apply IH; [exact Hn|].
      rewrite length_skipn. simpl length in *. lia.
Qed.

Lemma batches_full (A : Type) (n : nat) (fuel : nat) :
  forall (items : list A) full last,
    (0 < n)%nat -> (length items <= fuel)%nat ->
    batches fuel n items = full ++ [last] ->
    Forall (fun b => length b = n) full.
Proof.
  induction fuel as [|fuel IH]; intros items full last Hn Hl H.
  - destruct items; simpl in H; now destruct full.
  - destruct items as [|x items]; [simpl in H; now destruct full|].
    cbn [batches] in H.
    destruct full as [|b full]; [constructor|].
    injection H as <- H. constructor.
    + rewrite length_firstn.
      destruct (skipn n (x :: items)) as [|y rest] eqn:E.
      * rewrite batches_nil in H. now destruct full.
      * apply (f_equal (@length A)) in E. rewrite length_skipn in E.
        simpl length in *. lia.
    + apply (IH _ _ _ Hn) in H; [exact H|].
      rewrite length_skipn. simpl length in *. lia.
Qed.

Lemma batches_count (A : Type) (n : nat) (fuel : nat) :
  forall items : list A,
    (0 < n)%nat -> (length items <= fuel)%nat ->
    Z.of_nat (length (batches fuel n items))
    = (Z.of_nat (length items) + Z.of_nat n - 1) / Z.of_nat n.
Proof.
  induction fuel as [|fuel IH]; intros items Hn Hl.
  - destruct items; [|simpl in Hl; lia]. simpl.
    symmetry. apply Z.div_small. lia.
  - destruct items as [|x items].
    + simpl. symmetry. apply Z.div_small. lia.
    + cbn [batches].
      replace (length (firstn n (x :: items)
                       :: batches fuel n (skipn n (x :: items))))
        with (S (length (batches fuel n (skipn n (x :: items)))))
        by reflexivity.
      rewrite Nat2Z.inj_succ, IH;
        [|exact Hn|rewrite length_skipn; simpl length in *; lia].
      rewrite length_skipn.
      remember (length (x :: items)) as L eqn:EL.
      assert (HL : (0 < L)%nat) by (subst L; simpl; lia).
      destruct (Nat.le_gt_cases L n) as [Hle|Hgt].
      * replace (L - n)%nat with 0%nat by lia.
        rewrite (Z.div_small (Z.of_nat 0 + Z.of_nat n - 1)) by lia.
        apply Z.div_unique with (r := Z.of_nat L - 1); lia.
      * rewrite Nat2Z.inj_sub by lia.
        replace (Z.of_nat L + Z.of_nat n - 1)
          with ((Z.of_nat L - Z.of_nat n + Z.of_nat n - 1) + 1 * Z.of_nat n)
          by lia.
        rewrite Z.div_add by lia. lia.
Qed.

(** *** Whitespace *)

Lemma lstrip_space_head (s : str) (x : char) (r : str) :
  lstrip_space s = x :: r -> is_space x = false.
Proof.
  induction s as [|c s IH]; simpl; [discriminate|].
  destruct (is_space c) eqn:E; [exact IH|].
  intros H. injection H as <- _. exact E.
Qed.

Lemma lstrip_space_suffix (s : str) : exists p, s = p ++ lstrip_space s.
Proof.
  induction s as [|c s [p IH]]; simpl; [now exists []|].
  destruct (is_space c); [|now exists []].
  exists (c :: p). simpl. now rewrite <- IH.
Qed.

Lemma strip_space_last (s rest : str) (x : char) :
  strip_space s = rest ++ [x] -> is_space x = false.
Proof.
  unfold strip_space. intros H.
  apply (f_equal (@rev char)) in H.
  rewrite rev_involutive, rev_app_distr in H. simpl in H.
  now apply lstrip_space_head in H.
Qed.

Lemma strip_space_head (s rest : str) (x : char) :
  strip_space s = x :: rest -> is_space x = false.
Proof.
  unfold strip_space. intros H.
  apply (f_equal (@rev char)) in H. rewrite rev_involutive in H.
  destruct (lstrip_space_suffix (rev (lstrip_space s))) as [p Hp].
  rewrite H in Hp. apply (f_equal (@rev char)) in Hp.
  rewrite rev_involutive, rev_app_distr, rev_involutive in Hp.
  simpl in Hp. now apply lstrip_space_head in Hp.
Qed.

End UtilsFacts.

(** X26.  For a positive batch size, the
    batches that [batch_process] yields, put end to end, are the items:
    nothing is lost, repeated or reordered.  No batch is empty or longer
    than the batch size, every batch but the last has exactly that size,
    and there are as many batches as the size divides the number of
    items, rounded up. *)
Theorem batch_process_partitions (A : Type) (items : list A) (batch_size : Z) :
  0 < batch_size ->
  exists bs,
    Utils.batch_process items batch_size = Ok bs /\
    concat bs = items /\
    Forall (fun b => (0 < length b)%nat /\ Z.of_nat (length b) <= batch_size) bs /\
    (forall full last,
        bs = full ++ [last] ->
        Forall (fun b => Z.of_nat (length b) = batch_size) full) /\
    Z.of_nat (length bs)
    = (Z.of_nat (length items) + batch_size - 1) / batch_size.
Proof.
  intros H. unfold Utils.batch_process.
  assert ((batch_size =? 0) = false) as -> by (apply Z.eqb_neq; lia).
  assert ((batch_size <? 0) = false) as -> by (apply Z.ltb_ge; lia).
  set (n := Z.to_nat batch_size).
  assert (Hn : (0 < n)%nat) by (subst n; lia).
  exists (Utils.batches (length items) n items).
  split; [reflexivity|].
  split; [now apply UtilsFacts.batches_concat|].
  split; [|split].
  - eapply Forall_impl;
      [|apply (@UtilsFacts.batches_sizes A n (length items) items Hn);
        reflexivity].
    intros b Hb. simpl in Hb. subst n. lia.
  - intros full last E.
    eapply Forall_impl;
      [|apply (@UtilsFacts.batches_full A n (length items) items full last
                 Hn (le_n _) E)].
    intros b Hb. simpl in Hb. subst n. lia.
  - rewrite (@UtilsFacts.batches_count A n (length items) items Hn (le_n _)).
    subst n. now rewrite Z2Nat.id by lia.
Qed.

Lemma batch_process_partitions_witness :
  exists bs,
    Utils.batch_process [1; 2; 3; 4; 5] 2 = Ok bs /\
    concat bs = [1; 2; 3; 4; 5] /\
    Forall (fun b => (0 < length b)%nat /\ Z.of_nat (length b) <= 2) bs /\
    (forall full last,
        bs = full ++ [last] ->
        Forall (fun b => Z.of_nat (length b) = 2) full) /\
    Z.of_nat (length bs) = (Z.of_nat (length [1; 2; 3; 4; 5]) + 2 - 1) / 2.
Proof.
  apply (@batch_process_partitions Z [1; 2; 3; 4; 5] 2). lia.
Defined.

(** X27.  Every chunk that [validate_chunks]
    returns is non-empty and neither starts nor ends with a whitespace
    character; for a non-negative maximal length it is at most seven
    characters (the mark of a cut) longer than that length.  No chunk is
    added: the result is no longer than the input. *)
Theorem validate_chunks_clean (chunks : list str) (max_length : Z) :
  Forall (fun c =>
            c <> [] /\
            (forall x rest, c = x :: rest -> Str.is_space x = false) /\
            (forall rest x, c = rest ++ [x] -> Str.is_space x = false) /\
            (0 <= max_length -> len c <= max_length + 7))
         (Utils.validate_chunks chunks max_length) /\
  (length (Utils.validate_chunks chunks max_length) <= length chunks)%nat.
Proof.
  assert (Em : RAGGuard.marker
               = ([46; 46; 46; 91; 25130; 26029] ++ [93])%N)
    by (vm_compute; reflexivity).
  induction chunks as [|chunk chunks [IH1 IH2]]; cbn [Utils.validate_chunks].
  - split; [constructor|reflexivity].
  - destruct (Str.strip_space chunk) as [|c0 s0] eqn:E.
    + split; [exact IH1|simpl; lia].
    + split; [|simpl; lia].
      constructor; [|exact IH1].
      pose proof (@UtilsFacts.strip_space_head chunk s0 c0 E) as Hhead.
      destruct (max_length <? len (c0 :: s0)) eqn:Ecut.
      * apply Z.ltb_lt in Ecut.
        split; [|split; [|split]].
        -- rewrite Em. intros H. apply app_eq_nil in H.
           destruct H as [_ H]. apply app_eq_nil in H.
           destruct H as [_ H]. discriminate.
        -- intros x rest H. unfold slice_to in H.
           destruct (norm_index (len (c0 :: s0)) max_length) as [|k];
             cbn [firstn app] in H.
           ++ rewrite Em in H. injection H as <- _. reflexivity.
           ++ injection H as <- _. exact Hhead.
        -- intros rest x H. rewrite Em, !app_assoc in H.
           apply app_inj_tail in H. destruct H as [_ <-]. reflexivity.
        -- intros Hmax. unfold len in *. rewrite length_app.
           unfold slice_to. rewrite length_firstn.
           unfold norm_index.
           assert ((max_length <? 0) = false) as -> by (apply Z.ltb_ge; lia).
           rewrite Em. simpl length in *. lia.
      * apply Z.ltb_ge in Ecut.
        split; [discriminate|]. split; [|split].
        -- intros x rest H. injection H as <- _. exact Hhead.
        -- intros rest x H. rewrite <- E in H.
           now apply UtilsFacts.strip_space_last in H.
        -- intros _. lia.
Qed.
